(** * Weather / yield ingestion pipeline: model and properties

    A shallow embedding of [answers/ingest_data.py] (class [Ingestor]) and
    [answers/utils.py] ([generate_where_clause], [get_data]).

    The program is Python glue around two libraries: pandas (frames read
    from tab-separated files, concatenated and de-duplicated) and
    PostgreSQL (tables with primary keys, a staging script run in one
    transaction, an aggregate query).  Frames are modelled as a list of
    column names with a list of rows; relations as typed columns, a primary
    key and rows; a database as the schemas and tables it holds.  The
    staging script and the aggregate query, whose text is fixed by the
    program, are modelled statement by statement; the SELECT of [get_data],
    whose text is pasted together from the caller's strings, is modelled as
    text: it is scanned, parsed and planned against the table. *)

From Stdlib Require Import List ZArith QArith Qabs String Ascii Bool Lia Arith.
From Stdlib Require Import Permutation DecimalString DecimalNat.
Import ListNotations.

Local Open Scope string_scope.
Local Open Scope list_scope.
Local Open Scope Z_scope.

(* ================================================================= *)
(** ** Values *)

(** A value in a frame, a CSV field or a table cell.  [NULL] stands for
    SQL's NULL and for pandas' NaN (a missing value); [Num] is SQL's
    [numeric], kept as an exact rational. *)
Inductive cell : Type :=
| NULL
| Int (z : Z)
| Num (q : Q)
| Str (s : string)
| Day (y m d : Z).

Definition Q_eq_dec (a b : Q) : {a = b} + {a <> b}.
Proof. decide equality; [apply Pos.eq_dec | apply Z.eq_dec]. Defined.

Definition cell_eq_dec (a b : cell) : {a = b} + {a <> b}.
Proof.
  decide equality;
    try apply Z.eq_dec; try apply Q_eq_dec; try apply string_dec.
Defined.

Definition key_eq_dec : forall a b : list cell, {a = b} + {a <> b} :=
  list_eq_dec cell_eq_dec.

Definition key_eqb (a b : list cell) : bool :=
  if key_eq_dec a b then true else false.

(* ================================================================= *)
(** ** Exceptions *)

Inductive error : Type :=
| ParserError         (* pandas: a line has too many fields *)
| ValueError          (* pandas: nothing to concatenate, bad date *)
| KeyError            (* pandas: no such column *)
| FileNotFoundError
| DatabaseError.      (* any psycopg2 error *)

Inductive result (A : Type) : Type :=
| Ok (a : A)
| Err (e : error).
Arguments Ok {A} a.
Arguments Err {A} e.

Definition rbind {A B} (r : result A) (f : A -> result B) : result B :=
  match r with Ok a => f a | Err e => Err e end.

Notation "x <- r ;; k" := (rbind r (fun x => k))
  (at level 61, r at next level, right associativity).

(** A list comprehension whose body may raise: the first exception wins. *)
Fixpoint traverse {A B} (f : A -> result B) (l : list A) : result (list B) :=
  match l with
  | [] => Ok []
  | a :: l' => b <- f a ;; bs <- traverse f l' ;; Ok (b :: bs)
  end.

(* ================================================================= *)
(** ** Strings *)

(** [s.endswith(suffix)] *)
Definition endswith (s suffix : string) : bool :=
  let n := String.length s in
  let m := String.length suffix in
  (m <=? n)%nat && String.eqb (substring (n - m) m s) suffix.

Definition lower_ascii (c : ascii) : ascii :=
  let n := nat_of_ascii c in
  if ((65 <=? n) && (n <=? 90))%nat then ascii_of_nat (n + 32) else c.

(** PostgreSQL folds an identifier that is not quoted to lower case. *)
Fixpoint fold_ident (s : string) : string :=
  match s with
  | EmptyString => EmptyString
  | String c s' => String (lower_ascii c) (fold_ident s')
  end.

Fixpoint index_of (eqb : string -> string -> bool) (c : string)
         (cols : list string) : option nat :=
  match cols with
  | [] => None
  | c' :: cols' =>
      if eqb c c' then Some O
      else match index_of eqb c cols' with
           | Some i => Some (S i)
           | None => None
           end
  end.

(* ================================================================= *)
(** ** Frames (pandas) *)

Record DataFrame : Type := mkFrame
  { columns : list string;
    values : list (list cell) }.

(** The position of a column label; labels are compared as they are. *)
Definition loc (c : string) (cols : list string) : option nat :=
  index_of String.eqb c cols.

(** The entry of row [r] under label [c]. *)
Definition at_col (cols : list string) (c : string) (r : list cell) : cell :=
  match loc c cols with
  | Some i => nth i r NULL
  | None => NULL
  end.

(** The natural key of a row: its entries under the key labels. *)
Definition subset_key (cols keys : list string) (r : list cell) : list cell :=
  map (fun k => at_col cols k r) keys.

(** [duplicated(keep='first')]: a row is a duplicate when an earlier row has
    the same key.  [seen] holds the keys met so far. *)
Fixpoint drop_seen (key : list cell -> list cell) (seen : list (list cell))
         (rows : list (list cell)) : list (list cell) :=
  match rows with
  | [] => []
  | r :: rows' =>
      if existsb (key_eqb (key r)) seen
      then drop_seen key seen rows'
      else r :: drop_seen key (key r :: seen) rows'
  end.

(** [df.drop_duplicates(keys)].  The call in [ingest_data] passes no [keep],
    so pandas' default [keep='first'] applies.  A key label that is not a
    column raises [KeyError]. *)
Definition drop_duplicates (keys : list string) (df : DataFrame)
  : result DataFrame :=
  if forallb (fun k => match loc k (columns df) with Some _ => true | None => false end) keys
  then Ok (mkFrame (columns df)
                   (drop_seen (subset_key (columns df) keys) [] (values df)))
  else Err KeyError.

(** [pd.concat(frames)].  Every frame built by [ingest_data_helper] has the
    same labels, so the rows are appended under the labels of the first
    frame; an empty list raises [ValueError]. *)
Definition concat_frames (frames : list DataFrame) : result DataFrame :=
  match frames with
  | [] => Err ValueError
  | f :: _ => Ok (mkFrame (columns f) (List.concat (map values frames)))
  end.

(** [df[c] = v] with a scalar [v]: overwrite the column, or append it. *)
Definition set_column (c : string) (v : cell) (df : DataFrame) : DataFrame :=
  match loc c (columns df) with
  | Some i =>
      mkFrame (columns df)
              (map (fun r => firstn i r ++ v :: skipn (S i) r) (values df))
  | None =>
      mkFrame (columns df ++ [c]) (map (fun r => r ++ [v]) (values df))
  end.

(** [df.rename(columns={old: new}, inplace=True)] *)
Definition rename (old new : string) (df : DataFrame) : DataFrame :=
  mkFrame (map (fun c => if String.eqb c old then new else c) (columns df))
          (values df).

Definition remove_nth {A} (i : nat) (l : list A) : list A :=
  firstn i l ++ skipn (S i) l.

(** [df.drop(c, axis=1, inplace=True)] *)
Definition drop_column (c : string) (df : DataFrame) : result DataFrame :=
  match loc c (columns df) with
  | Some i => Ok (mkFrame (remove_nth i (columns df))
                          (map (remove_nth i) (values df)))
  | None => Err KeyError
  end.

Fixpoint update_nth {A} (i : nat) (f : A -> result A) (l : list A)
  : result (list A) :=
  match i, l with
  | _, [] => Ok []
  | O, a :: l' => b <- f a ;; Ok (b :: l')
  | S i', a :: l' => bs <- update_nth i' f l' ;; Ok (a :: bs)
  end.

(** [df[c] = f(df[c])] for an element-wise [f] that may raise. *)
Definition map_column (c : string) (f : cell -> result cell) (df : DataFrame)
  : result DataFrame :=
  match loc c (columns df) with
  | Some i =>
      rows <- traverse (update_nth i f) (values df) ;;
      Ok (mkFrame (columns df) rows)
  | None => Err KeyError
  end.

(* ================================================================= *)
(** ** What the program takes from its environment

    The library calls whose results no property below depends on are
    gathered in one interface; [reference] further down is an instance to
    compute with. *)

Inductive sqltype : Type :=
| int4
| date
| varchar (n : nat).

Class Platform : Type :=
  { (** [str(Path(os.path.abspath(__file__)).parents[1])] *)
    PROJECT_ROOT : string;
    (** [Path(file).stem] *)
    stem : string -> string;
    (** [pd.to_datetime(str(v), format='%Y%m%d')], element-wise *)
    to_datetime : cell -> result cell;
    (** PostgreSQL's input conversion of a CSV field to a column type *)
    pg_input : sqltype -> cell -> result cell }.

(** A directory: its entries in the order [os.listdir] returns them, each
    with the lines of the file, a line being the list of its fields as
    pandas reads them (a number, a string, or nothing between two tabs). *)
Definition directory : Type := list (string * list (list cell)).
Definition filesystem : Type := string -> directory.

Definition listdir (fs : filesystem) (dir : string) : list string :=
  map fst (fs dir).

Definition read_file (fs : filesystem) (dir file : string)
  : result (list (list cell)) :=
  match find (fun e => String.eqb (fst e) file) (fs dir) with
  | Some e => Ok (snd e)
  | None => Err FileNotFoundError
  end.

(** The width of the table that pandas' C parser reads from a file without
    header: that of the first line, or of the list of names if that is
    longer (the parser's [expected_fields]). *)
Definition expected_fields (names : list string) (lines : list (list cell))
  : nat :=
  match lines with
  | [] => List.length names
  | first :: _ => Nat.max (List.length first) (List.length names)
  end.

(** pandas leaves out blank lines ([skip_blank_lines=True]); a blank line
    is a line without any field. *)
Definition skip_blank_lines (content : list (list cell))
  : list (list cell) :=
  filter (fun line => negb (List.length line =? 0)%nat) content.

(** [pd.read_csv(path, sep='\t', names=cols)].  Blank lines are skipped.
    A line with more fields than the table is
    wide raises [ParserError] ("Expected w fields in line k, saw m"); a line
    with fewer fields is completed with missing values.  When the table is
    wider than the names, its leading columns become the index of the frame
    and the names label the others. *)
Definition read_csv (content : list (list cell)) (names : list string)
  : result DataFrame :=
  let lines := skip_blank_lines content in
  let width := expected_fields names lines in
  if forallb (fun line => (List.length line <=? width)%nat) lines
  then
    let leading_cols := (width - List.length names)%nat in
    Ok (mkFrame names
                (map (fun line =>
                        skipn leading_cols
                              (line ++ repeat NULL (width - List.length line)))
                     lines))
  else Err ParserError.

(* ================================================================= *)
(** ** Relations (PostgreSQL) *)

(** A table: typed columns (names folded), the primary key, the columns
    declared or implied NOT NULL, and the rows in column order. *)
Record relation : Type := mkRel
  { rel_cols : list (string * sqltype);
    rel_pk : list string;
    rel_notnull : list string;
    rel_rows : list (list cell) }.

(** What a database holds under a name: a schema, or a table, whose name
    is qualified by that of its schema. *)
Inductive object : Type :=
| Schema
| Table (rel : relation).

Definition database : Type := list (string * object).

Fixpoint find_rel (name : string) (db : database) : option relation :=
  match db with
  | [] => None
  | (n, Table r) :: db' =>
      if String.eqb n name then Some r else find_rel name db'
  | (_, Schema) :: db' => find_rel name db'
  end.

Fixpoint set_rel (name : string) (r : relation) (db : database) : database :=
  match db with
  | [] => [(name, Table r)]
  | (n, Table r') :: db' =>
      if String.eqb n name then (n, Table r) :: db'
      else (n, Table r') :: set_rel name r db'
  | (n, Schema) :: db' => (n, Schema) :: set_rel name r db'
  end.

Definition schema_exists (name : string) (db : database) : bool :=
  existsb (fun e => match snd e with
                    | Schema => String.eqb (fst e) name
                    | Table _ => false
                    end) db.

(** [CREATE TABLE IF NOT EXISTS schema.table (cols, PRIMARY KEY (pk))] *)
Record create_table_query : Type := mkCreate
  { q_schema : string;
    q_table : string;
    q_cols : list (string * sqltype);
    q_pk : list string }.

Definition q_name (query : create_table_query) : string :=
  (q_schema query ++ "." ++ q_table query)%string.

Fixpoint distinct (names : list string) : bool :=
  match names with
  | [] => true
  | n :: names' => negb (existsb (String.eqb n) names') && distinct names'
  end.

(** The server runs a CREATE TABLE IF NOT EXISTS: the schema named must
    exist; a table of that name is left as it is, whatever the statement
    declares; a new table needs columns with different names and a key made
    of different columns of its own.  The key columns are NOT NULL. *)
Definition exec_create_table (query : create_table_query)
           (db : database) : result database :=
  let name := fold_ident (q_name query) in
  if schema_exists (fold_ident (q_schema query)) db then
    match find_rel name db with
    | Some _ => Ok db
    | None =>
        let cols :=
          map (fun c => (fold_ident (fst c), snd c)) (q_cols query) in
        let pk := map fold_ident (q_pk query) in
        if distinct (map fst cols) && distinct pk
           && forallb (fun k => existsb (String.eqb k) (map fst cols)) pk
        then Ok (db ++ [(name, Table (mkRel cols pk pk []))])
        else Err DatabaseError
    end
  else Err DatabaseError.

Definition col_index (rel : relation) (c : string) : option nat :=
  index_of String.eqb (fold_ident c) (map fst (rel_cols rel)).

Definition col_value (rel : relation) (c : string) (r : list cell) : cell :=
  match col_index rel c with
  | Some i => nth i r NULL
  | None => NULL
  end.

(** The primary-key value of a row. *)
Definition pk_key (rel : relation) (r : list cell) : list cell :=
  map (fun c => col_value rel c r) (rel_pk rel).

(** Would inserting [r] violate the primary key?  A relation without a key
    has no unique index, so nothing conflicts. *)
Definition conflicts (rel : relation) (rows : list (list cell))
           (r : list cell) : bool :=
  match rel_pk rel with
  | [] => false
  | _ => existsb (fun r' => key_eqb (pk_key rel r) (pk_key rel r')) rows
  end.

(** [INSERT ... ON CONFLICT DO NOTHING], row by row: a row whose key is
    present (in the table, or inserted earlier by this statement) is
    skipped. *)
Fixpoint on_conflict_do_nothing (rel : relation) (rows new : list (list cell))
  : list (list cell) :=
  match new with
  | [] => rows
  | r :: new' =>
      on_conflict_do_nothing rel
        (if conflicts rel rows r then rows else rows ++ [r]) new'
  end.

Definition with_rows (rel : relation) (rows : list (list cell)) : relation :=
  mkRel (rel_cols rel) (rel_pk rel) (rel_notnull rel) rows.

(** State and exceptions: a database operation returns or raises, and
    leaves a database behind either way. *)
Definition M (A : Type) : Type := database -> result A * database.

Definition ret {A} (a : A) : M A := fun db => (Ok a, db).
Definition raise {A} (e : error) : M A := fun db => (Err e, db).
Definition bind {A B} (m : M A) (f : A -> M B) : M B :=
  fun db => match m db with
            | (Ok a, db') => f a db'
            | (Err e, db') => (Err e, db')
            end.
Definition lift {A} (r : result A) : M A :=
  fun db => (r, db).

Notation "x <~ m ;;; k" := (bind m (fun x => k))
  (at level 61, m at next level, right associativity).

(* ================================================================= *)
(** ** One connection: transactions and the staging script *)

(** The statements of the script that [upload_to_db] sends. *)
Inductive stmt : Type :=
| BEGIN
  (** [CREATE TEMP TABLE tmp_table (LIKE target INCLUDING DEFAULTS)
      ON COMMIT DROP] *)
| CREATE_TEMP_TABLE
  (** [COPY tmp_table(cols) FROM STDOUT CSV HEADER], with the lines read *)
| COPY (cols : list string) (lines : list (list cell))
  (** [INSERT INTO target SELECT * FROM tmp_table ON CONFLICT DO NOTHING] *)
| INSERT_SELECT
| COMMIT.

(** What a connection sees of the target table: the committed table, the
    working copy of an open transaction, and the temporary table. *)
Record session : Type := mkSession
  { committed : relation;
    work : option relation;
    tmp_table : option relation }.

Definition current (s : session) : relation :=
  match work s with
  | Some w => w
  | None => committed s
  end.

(** A write goes to the open transaction; without one it is committed with
    the statement. *)
Definition write (s : session) (r : relation) : session :=
  match work s with
  | Some _ => mkSession (committed s) (Some r) (tmp_table s)
  | None => mkSession r None (tmp_table s)
  end.

(** [(LIKE rel INCLUDING DEFAULTS)]: the columns and their NOT NULL marks
    are copied; the primary key (an index) and the rows are not. *)
Definition LIKE (rel : relation) : relation :=
  mkRel (rel_cols rel) [] (rel_notnull rel) [].

Definition known_columns (rel : relation) (cols : list string) : bool :=
  forallb (fun c => match col_index rel c with
                    | Some _ => true
                    | None => false
                    end) cols.

(** One line of the COPY data becomes one row of the temporary table. *)
Definition copy_row `{Platform} (tmp : relation) (cols : list string)
           (line : list cell) : result (list cell) :=
  if negb (List.length line =? List.length cols)%nat then Err DatabaseError
  else
    traverse
      (fun c : string * sqltype =>
         v <- match index_of String.eqb (fst c) (map fold_ident cols) with
              | Some i => pg_input (snd c) (nth i line NULL)
              | None => Ok NULL
              end ;;
         match v with
         | NULL => if existsb (String.eqb (fst c)) (rel_notnull tmp)
                   then Err DatabaseError else Ok NULL
         | _ => Ok v
         end)
      (rel_cols tmp).

Definition exec `{Platform} (st : stmt) (s : session) : result session :=
  match st with
  | BEGIN =>
      match work s with
      | Some _ => Ok s
      | None => Ok (mkSession (committed s) (Some (committed s)) (tmp_table s))
      end
  | CREATE_TEMP_TABLE =>
      match tmp_table s, work s with
      | Some _, _ => Err DatabaseError
      | None, Some _ =>
          Ok (mkSession (committed s) (work s) (Some (LIKE (current s))))
      | None, None => Ok s      (* dropped by the statement's own commit *)
      end
  | COPY cols lines =>
      match tmp_table s with
      | None => Err DatabaseError
      | Some tmp =>
          if known_columns tmp cols
          then rows <- traverse (copy_row tmp cols) lines ;;
               Ok (mkSession (committed s) (work s)
                     (Some (with_rows tmp (rel_rows tmp ++ rows))))
          else Err DatabaseError
      end
  | INSERT_SELECT =>
      match tmp_table s with
      | None => Err DatabaseError
      | Some tmp =>
          let target := current s in
          Ok (write s (with_rows target
                         (on_conflict_do_nothing target (rel_rows target)
                                                 (rel_rows tmp))))
      end
  | COMMIT =>
      match work s with
      | Some w => Ok (mkSession w None None)
      | None => Ok s
      end
  end.

(** The session after the connection is closed on an exception: the open
    transaction is rolled back, the temporary table is gone. *)
Definition rollback (s : session) : session :=
  mkSession (committed s) None None.

(** Run a script whose first statement is call number [i] of the
    connection.  [fault j] says that call [j] does not reach the server or
    cannot complete (connection lost, disk full). *)
Fixpoint run `{Platform} (fault : nat -> bool) (i : nat) (script : list stmt)
         (s : session) : result unit * session :=
  match script with
  | [] => (Ok tt, s)
  | st :: script' =>
      if fault i then (Err DatabaseError, rollback s)
      else match exec st s with
           | Ok s' => run fault (S i) script' s'
           | Err e => (Err e, rollback s)
           end
  end.

(* ================================================================= *)
(** ** class Ingestor *)

Definition WX_SCHEMA := "wx_schema".
Definition YLD_SCHEMA := "yld_schema".
Definition WX_TABLE := "wx_data".
Definition YLD_TABLE := "yld_data".
Definition AVG_TABLE := "avg_table".

Definition WX_DATA `{Platform} : string := (PROJECT_ROOT ++ "/wx_data")%string.
Definition YLD_DATA `{Platform} : string := (PROJECT_ROOT ++ "/yld_data")%string.

Definition WX_COLS : list string :=
  ["DATE"; "MAX_TEMP_1_10_DEG_C"; "MIN_TEMP_1_10_DEG_C";
   "PRECIPITATION_1_10_MM"].
Definition YLD_COLS : list string := ["YEAR"; "TOTAL_CORN_GRAIN_YIELD_MT"].

Record Ingestor : Type := mkIngestor
  { schema : string;
    table : string }.

(** [f'{self.schema}.{table}'], as the server reads it *)
Definition qualified (self : Ingestor) (table : string) : string :=
  fold_ident (schema self ++ "." ++ table)%string.

Definition ingest_data_helper `{Platform} (fs : filesystem)
           (file data_dir : string) (cols : list string) : result DataFrame :=
  content <- read_file fs data_dir file ;;
  df <- read_csv content cols ;;
  Ok (set_column "FILE" (Str (stem file)) df).

(** [create_table(table, query)]: [CREATE SCHEMA IF NOT EXISTS
    {self.schema}], then the query.  The two statements run in the
    transaction that psycopg2 opens with the first; [session.commit()] is
    reached only if neither raises, so an exception leaves nothing behind,
    the schema included. *)
Definition create_table (self : Ingestor) (table : string)
           (query : create_table_query) : M unit :=
  fun db =>
    let name := fold_ident (schema self) in
    let db1 := if schema_exists name db then db else db ++ [(name, Schema)] in
    match exec_create_table query db1 with
    | Ok db2 => (Ok tt, db2)
    | Err e => (Err e, db)
    end.

(** [upload_to_db(df)].  The result is the number of rows added, which the
    method logs.  [fault i] says that the [i]-th call to the server fails
    (connection lost, disk full): 0 is the first [SELECT COUNT], 1 to 5 are
    the statements of the script, 6 is [session.commit()] and 7 the second
    [SELECT COUNT].  The last two come after the script's own COMMIT. *)
Definition upload_to_db `{Platform} (fault : nat -> bool) (self : Ingestor)
           (df : DataFrame) : M Z :=
  fun db =>
    let name := qualified self (table self) in
    if fault 0%nat then (Err DatabaseError, db)
    else
    match find_rel name db with
    | None => (Err DatabaseError, db)
    | Some rel =>
        let prev_count := Z.of_nat (List.length (rel_rows rel)) in
        let buffer := values df in
        let query :=
          [BEGIN; CREATE_TEMP_TABLE; COPY (columns df) buffer;
           INSERT_SELECT; COMMIT] in
        match run fault 1 query (mkSession rel None None) with
        | (Ok _, s) =>
            let db' := set_rel name (committed s) db in
            if fault 6%nat then (Err DatabaseError, db')
            else if fault 7%nat then (Err DatabaseError, db')
            else
              let new_count :=
                Z.of_nat (List.length (rel_rows (committed s))) in
              (Ok (new_count - prev_count), db')
        | (Err e, s) => (Err e, set_rel name (committed s) db)
        end
    end.

(** Lines 40-42 of [ingest_data]: the key labels, the directory and the
    column names of the domain. *)
Definition data_layout `{Platform} (self : Ingestor)
  : list string * string * list string :=
  let data_is_wx := String.eqb (table self) "wx_data" in
  if data_is_wx then (["FILE"; "DATE"], WX_DATA, WX_COLS)
  else (["YEAR"], YLD_DATA, YLD_COLS).

(** Lines 45-54 of [ingest_data]: the frame handed to [upload_to_db]. *)
Definition ingest_frame `{Platform} (fs : filesystem) (self : Ingestor)
  : result DataFrame :=
  let data_is_wx := String.eqb (table self) "wx_data" in
  let '(keys, data_dir, data_cols) := data_layout self in
  let file_list :=
    filter (fun file => endswith file ".txt") (listdir fs data_dir) in
  frames <- traverse (fun file =>
                        ingest_data_helper fs file data_dir data_cols)
                     file_list ;;
  df <- concat_frames frames ;;
  df <- drop_duplicates keys df ;;
  if data_is_wx
  then map_column "DATE" to_datetime (rename "FILE" "STATION_ID" df)
  else drop_column "FILE" df.

(** [ingest_data(query)].  The method returns nothing; the model returns
    the number that [upload_to_db] logs. *)
Definition ingest_data `{Platform} (fs : filesystem) (fault : nat -> bool)
           (self : Ingestor) (query : create_table_query) : M Z :=
  df <~ lift (ingest_frame fs self) ;;;
  _ <~ create_table self (table self) query ;;;
  upload_to_db fault self df.

(* ================================================================= *)
(** ** The aggregate query of [generate_avg_table] *)

(** [c <> v] on an integer column; unknown (so not true) on NULL. *)
Definition sql_ne (c : cell) (v : Z) : bool :=
  match c with
  | Int z => negb (z =? v)
  | _ => false
  end.

(** [agg(...) FILTER (WHERE cond)]: only the rows that satisfy the
    condition are fed to the aggregate. *)
Definition FILTER (cond : cell -> bool) (vals : list cell) : list cell :=
  filter cond vals.

(** The integers among the inputs of an aggregate, which skips NULL. *)
Definition inputs (vals : list cell) : list Z :=
  flat_map (fun c => match c with Int z => [z] | _ => [] end) vals.

Definition total (xs : list Z) : Z := fold_right Z.add 0 xs.

(** [AVG] over int4 is numeric; NULL when there is no input. *)
Definition AVG (vals : list cell) : cell :=
  match inputs vals with
  | [] => NULL
  | xs => Num (Qmake (total xs) (Pos.of_nat (List.length xs)))
  end.

(** [SUM] over int4 is bigint; NULL when there is no input. *)
Definition SUM (vals : list cell) : cell :=
  match inputs vals with
  | [] => NULL
  | xs => Int (total xs)
  end.

(** [a / b]: numeric division when an operand is numeric, integer division
    (truncating towards zero) when both are integers; NULL if an operand is
    NULL; division by zero is an error. *)
Definition sql_div (a b : cell) : result cell :=
  match a, b with
  | NULL, (NULL | Int _ | Num _) => Ok NULL
  | (Int _ | Num _), NULL => Ok NULL
  | Int x, Int y =>
      if y =? 0 then Err DatabaseError else Ok (Int (Z.quot x y))
  | Num x, Int y =>
      if y =? 0 then Err DatabaseError else Ok (Num (x / inject_Z y)%Q)
  | Int x, Num y =>
      if Qeq_bool y 0 then Err DatabaseError else Ok (Num (inject_Z x / y)%Q)
  | Num x, Num y =>
      if Qeq_bool y 0 then Err DatabaseError else Ok (Num (x / y)%Q)
  | _, _ => Err DatabaseError
  end.

(** [EXTRACT(YEAR FROM d)], a numeric *)
Definition EXTRACT_YEAR (d : cell) : cell :=
  match d with
  | Day y _ _ => Num (inject_Z y)
  | _ => NULL
  end.

(** [GROUP BY]: one group per distinct key, holding the rows with it. *)
Definition GROUP_BY (key : list cell -> list cell) (rows : list (list cell))
  : list (list (list cell)) :=
  map (fun k => filter (fun r => key_eqb (key r) k) rows)
      (nodup key_eq_dec (map key rows)).

Definition group_key (rel : relation) (r : list cell) : list cell :=
  [col_value rel "STATION_ID" r; EXTRACT_YEAR (col_value rel "DATE" r)].

Definition column (rel : relation) (c : string) (g : list (list cell))
  : list cell :=
  map (col_value rel c) g.

(** The three aggregates of the SELECT list, for the rows [g] of a group. *)
Definition avg_max_temp (rel : relation) (g : list (list cell)) : result cell :=
  sql_div (AVG (FILTER (fun v => sql_ne v (-9999))
                       (column rel "MAX_TEMP_1_10_DEG_C" g)))
          (Int 10).

Definition avg_min_temp (rel : relation) (g : list (list cell)) : result cell :=
  sql_div (AVG (FILTER (fun v => sql_ne v (-9999))
                       (column rel "MIN_TEMP_1_10_DEG_C" g)))
          (Int 10).

Definition total_precipitation (rel : relation) (g : list (list cell))
  : result cell :=
  sql_div (SUM (FILTER (fun v => sql_ne v (-9999))
                       (column rel "PRECIPITATION_1_10_mm" g)))
          (Int 100).

(** The row the SELECT yields for a group. *)
Definition summary_row (rel : relation) (g : list (list cell))
  : result (list cell) :=
  a <- avg_max_temp rel g ;;
  b <- avg_min_temp rel g ;;
  p <- total_precipitation rel g ;;
  Ok (match g with
      | r :: _ => group_key rel r
      | [] => [NULL; NULL]
      end ++ [a; b; p]).

(** [SELECT ... FROM rel GROUP BY STATION_ID, EXTRACT(YEAR FROM DATE)] *)
Definition select_summary (rel : relation) : result (list (list cell)) :=
  if known_columns rel ["STATION_ID"; "DATE"; "MAX_TEMP_1_10_DEG_C";
                        "MIN_TEMP_1_10_DEG_C"; "PRECIPITATION_1_10_mm"]
  then traverse (summary_row rel) (GROUP_BY (group_key rel) (rel_rows rel))
  else Err DatabaseError.

Definition in_int4 (z : Z) : bool :=
  (- 2147483648 <=? z) && (z <=? 2147483647).

(** numeric to integer: to the nearest integer, ties away from zero *)
Definition round_half_away (q : Q) : Z :=
  let n := Qnum q in
  let d := Zpos (Qden q) in
  if 0 <=? n then (2 * n + d) / (2 * d)
  else - ((2 * (- n) + d) / (2 * d)).

(** The assignment cast of an INSERT to the column's type. *)
Definition assign (ty : sqltype) (v : cell) : result cell :=
  match ty, v with
  | _, NULL => Ok NULL
  | int4, Int z => if in_int4 z then Ok (Int z) else Err DatabaseError
  | int4, Num q =>
      let z := round_half_away q in
      if in_int4 z then Ok (Int z) else Err DatabaseError
  | date, Day y m d => Ok (Day y m d)
  | varchar n, Str s =>
      if (String.length s <=? n)%nat then Ok (Str s) else Err DatabaseError
  | _, _ => Err DatabaseError
  end.

(** One selected row becomes one row of the target, through the column
    list of the INSERT. *)
Definition insert_row (target : relation) (cols : list string)
           (r : list cell) : result (list cell) :=
  traverse
    (fun c : string * sqltype =>
       v <- match index_of String.eqb (fst c) (map fold_ident cols) with
            | Some i => assign (snd c) (nth i r NULL)
            | None => Ok NULL
            end ;;
       match v with
       | NULL => if existsb (String.eqb (fst c)) (rel_notnull target)
                 then Err DatabaseError else Ok NULL
       | _ => Ok v
       end)
    (rel_cols target).

Definition AVG_COLS : list string :=
  ["STATION_ID"; "YEAR"; "AVG_MAX_TEMP"; "AVG_MIN_TEMP"; "TOTAL_PRECIPITATION"].

Definition avg_table_query (self : Ingestor) : create_table_query :=
  mkCreate (schema self) AVG_TABLE
           [("STATION_ID", varchar 20); ("YEAR", int4); ("AVG_MAX_TEMP", int4);
            ("AVG_MIN_TEMP", int4); ("TOTAL_PRECIPITATION", int4)]
           ["STATION_ID"; "YEAR"].

(** The rows that the INSERT of [generate_avg_table] offers to [target]. *)
Definition summary_rows (source target : relation)
  : result (list (list cell)) :=
  if known_columns target AVG_COLS
  then selected <- select_summary source ;;
       traverse (insert_row target AVG_COLS) selected
  else Err DatabaseError.

(** [generate_avg_table()]: one INSERT ... SELECT, a statement of its own,
    committed after it. *)
Definition generate_avg_table (self : Ingestor) : M unit :=
  _ <~ create_table self AVG_TABLE (avg_table_query self) ;;;
  fun db =>
    match find_rel (qualified self AVG_TABLE) db,
          find_rel (qualified self (table self)) db with
    | Some target, Some source =>
        match summary_rows source target with
        | Ok rows =>
            (Ok tt,
             set_rel (qualified self AVG_TABLE)
                     (with_rows target
                        (on_conflict_do_nothing target (rel_rows target) rows))
                     db)
        | Err e => (Err e, db)
        end
    | _, _ => (Err DatabaseError, db)
    end.

(* ================================================================= *)
(** ** PostgreSQL: a SELECT sent as text

    [get_data] pastes its arguments into the text of one SELECT and sends
    it.  What the server makes of such a text is modelled for statements of
    the form

      SELECT * | COUNT( * ) FROM schema.table
             [WHERE condition] [LIMIT n] [OFFSET n] [;]

    where a condition is built with AND, OR and parentheses from
    comparisons [a = b] of column names, string constants and integer
    constants.  String constants are ['...'], a quote inside written twice.
    The server knows far more SQL than this; a text outside the fragment is
    answered here with an error. *)

Inductive token : Type :=
| IDENT (s : string)       (* an identifier, folded to lower case *)
| KEYWORD (s : string)     (* a reserved word, folded to lower case *)
| SCONST (s : string)      (* a string constant, without its quotes *)
| ICONST (n : nat)         (* an integer constant *)
| EQUALS
| LPAREN
| RPAREN
| STAR
| DOT
| SEMICOLON.

(** The reserved words of PostgreSQL: none of them can name a column. *)
Definition reserved : list string :=
  ["all"; "analyse"; "analyze"; "and"; "any"; "array"; "as"; "asc";
   "asymmetric"; "authorization"; "binary"; "both"; "case"; "cast"; "check";
   "collate"; "collation"; "column"; "concurrently"; "constraint"; "create";
   "cross"; "current_catalog"; "current_date"; "current_role";
   "current_schema"; "current_time"; "current_timestamp"; "current_user";
   "default"; "deferrable"; "desc"; "distinct"; "do"; "else"; "end";
   "except"; "false"; "fetch"; "for"; "foreign"; "freeze"; "from"; "full";
   "grant"; "group"; "having"; "ilike"; "in"; "initially"; "inner";
   "intersect"; "into"; "is"; "isnull"; "join"; "lateral"; "leading";
   "left"; "like"; "limit"; "localtime"; "localtimestamp"; "natural"; "not";
   "notnull"; "null"; "offset"; "on"; "only"; "or"; "order"; "outer";
   "overlaps"; "placing"; "primary"; "references"; "returning"; "right";
   "select"; "session_user"; "similar"; "some"; "symmetric"; "system_user";
   "table"; "tablesample"; "then"; "to"; "trailing"; "true"; "union";
   "unique"; "user"; "using"; "variadic"; "verbose"; "when"; "where";
   "window"; "with"].

Definition is_space (c : ascii) : bool :=
  let n := nat_of_ascii c in
  ((n =? 32) || ((9 <=? n) && (n <=? 13)))%nat.

Definition is_digit (c : ascii) : bool :=
  let n := nat_of_ascii c in
  ((48 <=? n) && (n <=? 57))%nat.

(** A letter, an underscore or a byte of a character that is not ASCII. *)
Definition ident_start (c : ascii) : bool :=
  let n := nat_of_ascii c in
  (((65 <=? n) && (n <=? 90)) || ((97 <=? n) && (n <=? 122))
   || (n =? 95) || (128 <=? n))%nat.

Definition ident_cont (c : ascii) : bool :=
  ident_start c || is_digit c || (nat_of_ascii c =? 36)%nat.

Definition is_quote (c : ascii) : bool := (nat_of_ascii c =? 39)%nat.

Definition symbol (c : ascii) : option token :=
  let n := nat_of_ascii c in
  if (n =? 61)%nat then Some EQUALS
  else if (n =? 40)%nat then Some LPAREN
  else if (n =? 41)%nat then Some RPAREN
  else if (n =? 42)%nat then Some STAR
  else if (n =? 46)%nat then Some DOT
  else if (n =? 59)%nat then Some SEMICOLON
  else None.

Fixpoint all_chars (p : ascii -> bool) (s : string) : bool :=
  match s with
  | EmptyString => true
  | String c s' => p c && all_chars p s'
  end.

(** The token of a word: a reserved word or an identifier. *)
Definition word (acc : string) : token :=
  let w := fold_ident acc in
  if existsb (String.eqb w) reserved then KEYWORD w else IDENT w.

(** The token of a sequence of digits. *)
Definition number (acc : string) : token :=
  ICONST match NilEmpty.uint_of_string acc with
         | Some d => Nat.of_uint d
         | None => O
         end.

(** Where the scanner is: between two tokens, or in one, with the
    characters read so far.  [AfterQuote] is the state after a quote met in
    a string constant: its end, unless another quote follows. *)
Inductive scanner : Type :=
| Between
| InWord (acc : string)
| InNumber (acc : string)
| InString (acc : string)
| AfterQuote (acc : string).

(** The token that ends when the text does, or when a character that does
    not continue it arrives.  A string constant must be closed. *)
Definition flush (st : scanner) : result (list token) :=
  match st with
  | Between => Ok []
  | InWord acc => Ok [word acc]
  | InNumber acc => Ok [number acc]
  | InString _ => Err DatabaseError
  | AfterQuote acc => Ok [SCONST acc]
  end.

(** A character met between two tokens. *)
Definition start (c : ascii) : result (list token * scanner) :=
  if is_space c then Ok ([], Between)
  else if ident_start c then Ok ([], InWord (String c ""))
  else if is_digit c then Ok ([], InNumber (String c ""))
  else if is_quote c then Ok ([], InString "")
  else match symbol c with
       | Some t => Ok ([t], Between)
       | None => Err DatabaseError
       end.

(** One character: the tokens that it completes and the next state. *)
Definition scan (st : scanner) (c : ascii) : result (list token * scanner) :=
  let next :=
    ts <- flush st ;; p <- start c ;; Ok (ts ++ fst p, snd p) in
  match st with
  | Between => start c
  | InWord acc =>
      if ident_cont c then Ok ([], InWord (acc ++ String c "")) else next
  | InNumber acc =>
      if is_digit c then Ok ([], InNumber (acc ++ String c "")) else next
  | InString acc =>
      if is_quote c then Ok ([], AfterQuote acc)
      else Ok ([], InString (acc ++ String c ""))
  | AfterQuote acc =>
      if is_quote c then Ok ([], InString (acc ++ String c "")) else next
  end.

Fixpoint lex_run (st : scanner) (s : string)
  : result (list token * scanner) :=
  match s with
  | EmptyString => Ok ([], st)
  | String c s' =>
      p <- scan st c ;;
      q <- lex_run (snd p) s' ;;
      Ok (fst p ++ fst q, snd q)
  end.

Definition lex (s : string) : result (list token) :=
  p <- lex_run Between s ;;
  ts <- flush (snd p) ;;
  Ok (fst p ++ ts).

Inductive operand : Type :=
| Column (c : string)
| Literal (s : string)
| Number (n : nat).

Inductive condition : Type :=
| Equal (a b : operand)
| And (p q : condition)
| Or (p q : condition).

Definition parse_operand (ts : list token) : result (operand * list token) :=
  match ts with
  | IDENT c :: ts' => Ok (Column c, ts')
  | SCONST s :: ts' => Ok (Literal s, ts')
  | ICONST n :: ts' => Ok (Number n, ts')
  | _ => Err DatabaseError
  end.

(** OR binds less than AND, AND less than a comparison. *)
Inductive level : Type :=
| Disjunction
| Conjunction
| Comparison.

Fixpoint parse_condition (fuel : nat) (l : level) (ts : list token)
  : result (condition * list token) :=
  match fuel with
  | O => Err DatabaseError
  | S fuel =>
      match l with
      | Disjunction =>
          p <- parse_condition fuel Conjunction ts ;;
          match snd p with
          | KEYWORD k :: ts' =>
              if String.eqb k "or"
              then q <- parse_condition fuel Disjunction ts' ;;
                   Ok (Or (fst p) (fst q), snd q)
              else Ok p
          | _ => Ok p
          end
      | Conjunction =>
          p <- parse_condition fuel Comparison ts ;;
          match snd p with
          | KEYWORD k :: ts' =>
              if String.eqb k "and"
              then q <- parse_condition fuel Conjunction ts' ;;
                   Ok (And (fst p) (fst q), snd q)
              else Ok p
          | _ => Ok p
          end
      | Comparison =>
          match ts with
          | LPAREN :: ts' =>
              p <- parse_condition fuel Disjunction ts' ;;
              match snd p with
              | RPAREN :: ts'' => Ok (fst p, ts'')
              | _ => Err DatabaseError
              end
          | _ =>
              a <- parse_operand ts ;;
              match snd a with
              | EQUALS :: ts' =>
                  b <- parse_operand ts' ;;
                  Ok (Equal (fst a) (fst b), snd b)
              | _ => Err DatabaseError
              end
          end
      end
  end.

Record select_stmt : Type := mkSelect
  { sel_count : bool;
    sel_from : string;
    sel_where : option condition;
    sel_limit : option nat;
    sel_offset : option nat }.

(** [*] or [COUNT( * )] *)
Definition parse_selection (ts : list token) : result (bool * list token) :=
  match ts with
  | STAR :: ts' => Ok (false, ts')
  | IDENT f :: LPAREN :: STAR :: RPAREN :: ts' =>
      if String.eqb f "count" then Ok (true, ts') else Err DatabaseError
  | _ => Err DatabaseError
  end.

(** [FROM schema.table] *)
Definition parse_from (ts : list token) : result (string * list token) :=
  match ts with
  | KEYWORD k :: IDENT s :: DOT :: IDENT t :: ts' =>
      if String.eqb k "from" then Ok ((s ++ "." ++ t)%string, ts')
      else Err DatabaseError
  | _ => Err DatabaseError
  end.

Definition parse_where (ts : list token)
  : result (option condition * list token) :=
  match ts with
  | KEYWORD k :: ts' =>
      if String.eqb k "where"
      then p <- parse_condition (3 * List.length ts' + 3) Disjunction ts' ;;
           Ok (Some (fst p), snd p)
      else Ok (None, ts)
  | _ => Ok (None, ts)
  end.

(** [LIMIT n] or [OFFSET n], if it is next. *)
Definition parse_count (k : string) (ts : list token)
  : result (option nat * list token) :=
  match ts with
  | KEYWORD k' :: ts' =>
      if String.eqb k' k
      then match ts' with
           | ICONST n :: ts'' => Ok (Some n, ts'')
           | _ => Err DatabaseError
           end
      else Ok (None, ts)
  | _ => Ok (None, ts)
  end.

Definition parse_select (ts : list token) : result select_stmt :=
  match ts with
  | KEYWORD k :: ts1 =>
      if String.eqb k "select"
      then
        s <- parse_selection ts1 ;;
        f <- parse_from (snd s) ;;
        w <- parse_where (snd f) ;;
        l <- parse_count "limit" (snd w) ;;
        o <- parse_count "offset" (snd l) ;;
        l <- match fst l with
             | Some _ => Ok (fst l, snd o)
             | None => parse_count "limit" (snd o)
             end ;;
        match snd l with
        | [] | [SEMICOLON] =>
            Ok (mkSelect (fst s) (fst f) (fst w) (fst l) (fst o))
        | _ => Err DatabaseError
        end
      else Err DatabaseError
  | _ => Err DatabaseError
  end.

Definition col_type (rel : relation) (c : string) : option sqltype :=
  match col_index rel c with
  | Some i => option_map snd (nth_error (rel_cols rel) i)
  | None => None
  end.

(** A string constant compared with a column is read at the type of the
    column; with a [varchar] column it is compared as text, whatever its
    length. *)
Definition literal `{Platform} (ty : sqltype) (s : string) : result cell :=
  match ty with
  | varchar _ => Ok (Str s)
  | _ => pg_input ty (Str s)
  end.

Definition same_kind (a b : sqltype) : bool :=
  match a, b with
  | int4, int4 | date, date | varchar _, varchar _ => true
  | _, _ => false
  end.

(** The two sides of [a = b] as functions of the row.  They are typed
    before any row is read: a constant that cannot be read at the type it
    is compared with is an error, also on an empty table. *)
Definition comparison `{Platform} (rel : relation) (a b : operand)
  : result ((list cell -> cell) * (list cell -> cell)) :=
  match a, b with
  | Column c, Column d =>
      match col_type rel c, col_type rel d with
      | Some t, Some u =>
          if same_kind t u then Ok (col_value rel c, col_value rel d)
          else Err DatabaseError
      | _, _ => Err DatabaseError
      end
  | Column c, Literal s =>
      match col_type rel c with
      | Some t => v <- literal t s ;; Ok (col_value rel c, fun _ => v)
      | None => Err DatabaseError
      end
  | Literal s, Column c =>
      match col_type rel c with
      | Some t => v <- literal t s ;; Ok (fun _ => v, col_value rel c)
      | None => Err DatabaseError
      end
  | Column c, Number n =>
      match col_type rel c with
      | Some int4 => Ok (col_value rel c, fun _ => Int (Z.of_nat n))
      | _ => Err DatabaseError
      end
  | Number n, Column c =>
      match col_type rel c with
      | Some int4 => Ok (fun _ => Int (Z.of_nat n), col_value rel c)
      | _ => Err DatabaseError
      end
  | Literal s, Literal t => Ok (fun _ => Str s, fun _ => Str t)
  | Literal s, Number n =>
      v <- pg_input int4 (Str s) ;; Ok (fun _ => v, fun _ => Int (Z.of_nat n))
  | Number n, Literal s =>
      v <- pg_input int4 (Str s) ;; Ok (fun _ => Int (Z.of_nat n), fun _ => v)
  | Number n, Number m =>
      Ok (fun _ => Int (Z.of_nat n), fun _ => Int (Z.of_nat m))
  end.

(** SQL's three truth values: [None] is unknown. *)
Definition sql_eq (a b : cell) : option bool :=
  match a, b with
  | NULL, _ => None
  | _, NULL => None
  | _, _ => Some (if cell_eq_dec a b then true else false)
  end.

Definition sql_and (p q : option bool) : option bool :=
  match p, q with
  | Some false, _ => Some false
  | _, Some false => Some false
  | Some true, Some true => Some true
  | _, _ => None
  end.

Definition sql_or (p q : option bool) : option bool :=
  match p, q with
  | Some true, _ => Some true
  | _, Some true => Some true
  | Some false, Some false => Some false
  | _, _ => None
  end.

Fixpoint plan `{Platform} (rel : relation) (c : condition)
  : result (list cell -> option bool) :=
  match c with
  | Equal a b =>
      f <- comparison rel a b ;;
      Ok (fun r => sql_eq (fst f r) (snd f r))
  | And p q =>
      f <- plan rel p ;; g <- plan rel q ;;
      Ok (fun r => sql_and (f r) (g r))
  | Or p q =>
      f <- plan rel p ;; g <- plan rel q ;;
      Ok (fun r => sql_or (f r) (g r))
  end.

(** WHERE keeps the rows on which the condition is true. *)
Definition selects (keep : list cell -> option bool) (r : list cell) : bool :=
  match keep r with
  | Some true => true
  | _ => false
  end.

(** The rows that a statement yields, in the order of the table. *)
Definition run_select `{Platform} (db : database) (sel : select_stmt)
  : result (list (list cell)) :=
  match find_rel (sel_from sel) db with
  | None => Err DatabaseError
  | Some rel =>
      keep <- match sel_where sel with
              | Some c => plan rel c
              | None => Ok (fun _ => Some true)
              end ;;
      let matching := filter (selects keep) (rel_rows rel) in
      let selected :=
        if sel_count sel then [[Int (Z.of_nat (List.length matching))]]
        else matching in
      let skipped :=
        match sel_offset sel with
        | Some o => skipn o selected
        | None => selected
        end in
      Ok match sel_limit sel with
         | Some l => firstn l skipped
         | None => skipped
         end
  end.

(** [cur.execute(query)] and [cur.fetchall()] *)
Definition execute `{Platform} (db : database) (query : string)
  : result (list (list cell)) :=
  ts <- lex query ;;
  sel <- parse_select ts ;;
  run_select db sel.

(* ================================================================= *)
(** ** utils.py: the read side *)

(** [f"{v}"]: the value as [str] prints it. *)
Definition format (v : option string) : string :=
  match v with
  | Some s => s
  | None => "None"
  end.

(** [generate_where_clause(where_lst)] *)
Definition generate_where_clause (where_lst : list (string * option string))
  : string :=
  let where_lst :=
    filter (fun x => match snd x with
                     | Some _ => true
                     | None => false
                     end) where_lst in
  match where_lst with
  | [] => ""
  | x0 :: rest =>
      let str_temp :=
        (" WHERE " ++ fst x0 ++ " = '" ++ format (snd x0) ++ "'")%string in
      match rest with
      | [] => str_temp
      | x1 :: _ =>
          (str_temp
           ++ (" AND " ++ fst x1 ++ " = '" ++ format (snd x1) ++ "'"))%string
      end
  end.

(** [get_data(schema, table, where_clause, pagination_clause, count)] *)
Definition get_data `{Platform} (db : database)
           (schema table where_clause pagination_clause : string)
           (count : bool) : result (list (list cell)) :=
  let selection := if count then "COUNT(*)" else "*" in
  let query :=
    ("SELECT " ++ selection ++ " FROM " ++ schema ++ "." ++ table
     ++ where_clause ++ pagination_clause ++ ";")%string in
  execute db query.

Record payload : Type := mkPayload
  { count : Z;
    offset : nat;
    results : list (list cell) }.

(** A number as [str] prints it. *)
Definition decimal (n : nat) : string :=
  NilEmpty.string_of_uint (Nat.to_uint n).

(** Modelled from the spec: the route handlers that call [get_data] are not
    among the sources.  Section 4.5 of the specification: accept equality
    filters, an offset and a limit; return [{count, offset, results}] where
    [count] is the total of matching rows, not affected by pagination, and
    [results] is the page of rows starting at [offset] with at most [limit]
    entries. *)
Definition query_service `{Platform} (db : database) (schema table : string)
           (where_lst : list (string * option string)) (offset limit : nat)
  : result payload :=
  let where_clause := generate_where_clause where_lst in
  let pagination_clause :=
    (" LIMIT " ++ decimal limit ++ " OFFSET " ++ decimal offset)%string in
  counted <- get_data db schema table where_clause "" true ;;
  rows <- get_data db schema table where_clause pagination_clause false ;;
  match counted with
  | [[Int n]] => Ok (mkPayload n offset rows)
  | _ => Err DatabaseError
  end.

(* ================================================================= *)
(** ** A reference environment, and the tables of [__main__] *)

Fixpoint rfind (c : ascii) (s : string) : option nat :=
  match s with
  | EmptyString => None
  | String a s' =>
      match rfind c s' with
      | Some i => Some (S i)
      | None => if Ascii.eqb a c then Some O else None
      end
  end.

(** pathlib: the name without its last suffix. *)
Definition path_stem (name : string) : string :=
  match rfind "."%char name with
  | Some i =>
      if ((0 <? i) && (i <? String.length name - 1))%nat
      then substring 0 i name else name
  | None => name
  end.

Definition leap_year (y : Z) : bool :=
  ((y mod 4 =? 0) && negb (y mod 100 =? 0)) || (y mod 400 =? 0).

Definition days_in_month (y m : Z) : Z :=
  if m =? 2 then (if leap_year y then 29 else 28)
  else if (m =? 4) || (m =? 6) || (m =? 9) || (m =? 11) then 30 else 31.

(** An eight-digit integer [yyyymmdd] read as a calendar day. *)
Definition parse_yyyymmdd (v : cell) : result cell :=
  match v with
  | Int z =>
      let y := z / 10000 in
      let m := (z / 100) mod 100 in
      let d := z mod 100 in
      if (1000 <=? y) && (y <=? 9999) && (1 <=? m) && (m <=? 12)
         && (1 <=? d) && (d <=? days_in_month y m)
      then Ok (Day y m d) else Err ValueError
  | _ => Err ValueError
  end.

(** A decimal integer, with or without a minus sign. *)
Definition parse_int (s : string) : option Z :=
  match s with
  | EmptyString => None
  | String c s' =>
      if Ascii.eqb c "-"
      then match s' with
           | EmptyString => None
           | _ => option_map (fun d => - Z.of_nat (Nat.of_uint d))
                             (NilEmpty.uint_of_string s')
           end
      else option_map (fun d => Z.of_nat (Nat.of_uint d))
                      (NilEmpty.uint_of_string s)
  end.

(** A day written [yyyy-mm-dd]. *)
Definition parse_iso_date (s : string) : result cell :=
  match parse_int (substring 0 4 s), parse_int (substring 5 2 s),
        parse_int (substring 8 2 s) with
  | Some y, Some m, Some d =>
      if (String.length s =? 10)%nat
         && String.eqb (substring 4 1 s) "-"
         && String.eqb (substring 7 1 s) "-"
         && (1 <=? y) && (1 <=? m) && (m <=? 12)
         && (1 <=? d) && (d <=? days_in_month y m)
      then Ok (Day y m d) else Err DatabaseError
  | _, _, _ => Err DatabaseError
  end.

(** A field of the COPY data or a string constant, read at a type.  A
    number or a day of a frame is written and read back as itself. *)
Definition text_input (ty : sqltype) (v : cell) : result cell :=
  match ty, v with
  | _, NULL => Ok NULL
  | int4, Int z => if in_int4 z then Ok (Int z) else Err DatabaseError
  | int4, Str s =>
      match parse_int s with
      | Some z => if in_int4 z then Ok (Int z) else Err DatabaseError
      | None => Err DatabaseError
      end
  | date, Day y m d => Ok (Day y m d)
  | date, Str s => parse_iso_date s
  | varchar n, Str s =>
      if (String.length s <=? n)%nat then Ok (Str s) else Err DatabaseError
  | _, _ => Err DatabaseError
  end.

Definition reference : Platform :=
  {| PROJECT_ROOT := "/app";
     stem := path_stem;
     to_datetime := parse_yyyymmdd;
     pg_input := text_input |}.

Definition query_wx : create_table_query :=
  mkCreate WX_SCHEMA WX_TABLE
           [("STATION_ID", varchar 20); ("DATE", date);
            ("MIN_TEMP_1_10_DEG_C", int4); ("MAX_TEMP_1_10_DEG_C", int4);
            ("PRECIPITATION_1_10_mm", int4)]
           ["STATION_ID"; "DATE"].

Definition query_yld : create_table_query :=
  mkCreate YLD_SCHEMA YLD_TABLE
           [("YEAR", int4); ("TOTAL_CORN_GRAIN_YIELD_MT", int4)]
           ["YEAR"].

Definition Ingestion_Obj_WX : Ingestor := mkIngestor WX_SCHEMA WX_TABLE.
Definition Ingestion_Obj_YLD : Ingestor := mkIngestor YLD_SCHEMA YLD_TABLE.

Definition no_fault : nat -> bool := fun _ => false.

(* ================================================================= *)
(** ** The script under [if __name__ == '__main__'] *)

(** Weather is ingested, then yield, then the averages are computed; an
    exception ends the script.  Each ingestion opens its own connection,
    so each has its own faults. *)
Definition main `{Platform} (fs : filesystem)
           (fault_wx fault_yld : nat -> bool) : M unit :=
  _ <~ ingest_data fs fault_wx Ingestion_Obj_WX query_wx ;;;
  _ <~ ingest_data fs fault_yld Ingestion_Obj_YLD query_yld ;;;
  generate_avg_table Ingestion_Obj_WX.

(* ================================================================= *)
(** ** Vocabulary of the statements *)

(** The rows that the COPY of [upload_to_db] stages for [rel] out of a
    frame. *)
Definition staged `{Platform} (rel : relation) (df : DataFrame)
  : result (list (list cell)) :=
  if known_columns (LIKE rel) (columns df)
  then traverse (copy_row (LIKE rel) (columns df)) (values df)
  else Err DatabaseError.

(** The relation after the INSERT of [upload_to_db] has merged [rows]. *)
Definition merged (rel : relation) (rows : list (list cell)) : relation :=
  with_rows rel (on_conflict_do_nothing rel (rel_rows rel) rows).

(** How the script of [upload_to_db] ends on a table [rel]: [Ok], or the
    exception of the statement that failed. *)
Definition script_outcome `{Platform} (fault : nat -> bool) (rel : relation)
           (df : DataFrame) : result unit :=
  fst (run fault 1
           [BEGIN; CREATE_TEMP_TABLE; COPY (columns df) (values df);
            INSERT_SELECT; COMMIT]
           (mkSession rel None None)).

(** The schema of the ingestor, the schema and the table of the query
    exist. *)
Definition created (self : Ingestor) (query : create_table_query)
           (db : database) : Prop :=
  schema_exists (fold_ident (schema self)) db = true /\
  schema_exists (fold_ident (q_schema query)) db = true /\
  find_rel (fold_ident (q_name query)) db <> None.

(** [db'] has the schemas and the tables of [db], whatever their rows. *)
Definition extends (db db' : database) : Prop :=
  (forall name, schema_exists name db = true ->
                schema_exists name db' = true) /\
  (forall name, find_rel name db <> None -> find_rel name db' <> None).

(** The table that a CREATE TABLE statement declares, empty. *)
Definition declared (query : create_table_query) : relation :=
  mkRel (map (fun c => (fold_ident (fst c), snd c)) (q_cols query))
        (map fold_ident (q_pk query)) (map fold_ident (q_pk query)) [].

(** The row stored under a primary-key value, if any. *)
Definition stored (rel : relation) (k : list cell) : option (list cell) :=
  find (fun r => key_eqb (pk_key rel r) k) (rel_rows rel).

(** [SELECT COUNT( * )] on the table of an ingestor; 0 if it is missing. *)
Definition count_rows (self : Ingestor) (db : database) : Z :=
  match find_rel (qualified self (table self)) db with
  | Some rel => Z.of_nat (List.length (rel_rows rel))
  | None => 0
  end.

(** The table of an ingestor exists and has a primary key. *)
Definition keyed (self : Ingestor) (db : database) : Prop :=
  exists rel,
    find_rel (qualified self (table self)) db = Some rel /\ rel_pk rel <> [].

(** The directory and the column names that [ingest_data] uses. *)
Definition data_dir_of `{Platform} (self : Ingestor) : string :=
  snd (fst (data_layout self)).
Definition data_cols_of `{Platform} (self : Ingestor) : list string :=
  snd (data_layout self).
Definition keys_of `{Platform} (self : Ingestor) : list string :=
  fst (fst (data_layout self)).

(** The measurements of column [c] in the rows [g]: the integers found
    there, in row order, the ones equal to -9999 left out. *)
Definition readings (rel : relation) (c : string) (g : list (list cell))
  : list Z :=
  flat_map (fun r => match col_value rel c r with
                     | Int v => if v =? -9999 then [] else [v]
                     | _ => []
                     end) g.

(** The arithmetic mean of a list of integers that is not empty. *)
Definition mean (xs : list Z) : Q :=
  Qmake (total xs) (Pos.of_nat (List.length xs)).

(** A stored temperature: NULL when there is no reading, else an integer
    within half a unit of a tenth of the mean of the readings. *)
Definition whole_degrees (xs : list Z) (stored_value : cell) : Prop :=
  match xs with
  | [] => stored_value = NULL
  | _ => exists z, stored_value = Int z /\
                   (Qabs (inject_Z z - mean xs / inject_Z 10) <= 1 # 2)%Q
  end.

(** A stored precipitation: NULL when there is no reading, else the sum of
    the readings over 100 with the remainder dropped (towards zero). *)
Definition whole_hundreds (xs : list Z) (stored_value : cell) : Prop :=
  match xs with
  | [] => stored_value = NULL
  | _ => exists z, stored_value = Int z /\
                   Z.abs (total xs) - 100 < 100 * Z.abs z <= Z.abs (total xs) /\
                   0 <= z * total xs
  end.

(** The summary table as [generate_avg_table] creates it. *)
Definition avg_relation : relation :=
  mkRel [("station_id", varchar 20); ("year", int4); ("avg_max_temp", int4);
         ("avg_min_temp", int4); ("total_precipitation", int4)]
        ["station_id"; "year"] ["station_id"; "year"] [].

(** No natural key occurs in two different files of the directory. *)
Definition keys_within_files `{Platform} (fs : filesystem) (self : Ingestor)
  : Prop :=
  forall f1 f2 d1 d2 r1 r2,
    ingest_data_helper fs f1 (data_dir_of self) (data_cols_of self) = Ok d1 ->
    ingest_data_helper fs f2 (data_dir_of self) (data_cols_of self) = Ok d2 ->
    In r1 (values d1) -> In r2 (values d2) ->
    subset_key (columns d1) (keys_of self) r1 =
    subset_key (columns d2) (keys_of self) r2 ->
    f1 = f2.

(** No key occurs in two different blocks of rows. *)
Definition keys_within_blocks (key : list cell -> list cell)
           (blocks : list (list (list cell))) : Prop :=
  forall b1 b2 r1 r2,
    In b1 blocks -> In b2 blocks -> In r1 b1 -> In r2 b2 ->
    key r1 = key r2 -> b1 = b2.

(** Every key label is a column of the frame. *)
Definition has_columns (keys : list string) (df : DataFrame) : Prop :=
  forall k, In k keys -> loc k (columns df) <> None.

(** Sample data. *)
Definition sample_fs : filesystem :=
  fun dir =>
    if String.eqb dir "/app/wx_data" then
      [("USC1.txt", [[Int 19850101; Int (-22); Int (-128); Int 94];
                     [Int 19850102; Int (-9999); Int (-144); Int 0];
                     [Int 19850101; Int 5; Int 6; Int 7];
                     [Int 19860103; Int 10; Int (-9999); Int (-9999)]]);
       ("notes.md", [[Int 1]]);
       ("USC2.txt", [[Int 19850101; Int 15; Int 11; Int 250]])]
    else if String.eqb dir "/app/yld_data" then
      [("a.txt", [[Int 2000; Int 10]; [Int 2001; Int 11]]);
       ("b.txt", [[Int 2000; Int 20]])]
    else [].


(** Every line of a.txt has three fields, one more than the yield columns;
    the second line of b.txt has one field only. *)
Definition indexed_fs : filesystem :=
  fun _ => [("a.txt", [[Int 1; Int 2000; Int 10]; [Int 2; Int 2001; Int 11]])].

Definition short_fs : filesystem :=
  fun _ => [("b.txt", [[Int 2002]])].

Definition sample_wx_db : database :=
  Eval vm_compute in
    snd (@ingest_data reference sample_fs no_fault Ingestion_Obj_WX query_wx []).

Definition sample_wx_rel : relation :=
  Eval vm_compute in
    match find_rel "wx_schema.wx_data" sample_wx_db with
    | Some rel => rel
    | None => avg_relation
    end.

Definition sample_yld_rel : relation :=
  mkRel [("year", int4); ("total_corn_grain_yield_mt", int4)]
        ["year"] ["year"] [[Int 2000; Int 10]].

Definition sample_yld_db : database :=
  [("yld_schema", Schema); ("yld_schema.yld_data", Table sample_yld_rel)].

Definition revised_yields : DataFrame :=
  mkFrame YLD_COLS [[Int 2000; Int 99]; [Int 2001; Int 11]].

Definition listing_ab : filesystem :=
  fun _ => [("a.txt", [[Int 2000; Int 10]]); ("b.txt", [[Int 2000; Int 20]])].
Definition listing_ba : filesystem :=
  fun _ => [("b.txt", [[Int 2000; Int 20]]); ("a.txt", [[Int 2000; Int 10]])].
Definition years_ab : filesystem :=
  fun _ => [("a.txt", [[Int 2000; Int 10]]); ("b.txt", [[Int 2001; Int 20]])].
Definition years_ba : filesystem :=
  fun _ => [("b.txt", [[Int 2001; Int 20]]); ("a.txt", [[Int 2000; Int 10]])].

Definition two_yields : DataFrame :=
  mkFrame ["YEAR"; "TOTAL_CORN_GRAIN_YIELD_MT"; "FILE"]
          [[Int 2000; Int 10; Str "a"]; [Int 2000; Int 20; Str "b"]].

(** The filters of a request that carry a value, in the order given. *)
Definition present (where_lst : list (string * option string))
  : list (string * string) :=
  flat_map (fun x => match snd x with
                     | Some v => [(fst x, v)]
                     | None => []
                     end) where_lst.

(** A name that the server reads as one identifier: a letter or an
    underscore, then letters, digits, underscores or dollar signs; not a
    reserved word. *)
Definition is_name (s : string) : bool :=
  match s with
  | EmptyString => false
  | String c s' =>
      ident_start c && all_chars ident_cont s'
      && negb (existsb (String.eqb (fold_ident s)) reserved)
  end.

Definition quote_free (s : string) : bool :=
  all_chars (fun c => negb (is_quote c)) s.

(** The value that a filter asks for, read at the type of its column. *)
Definition wanted `{Platform} (rel : relation) (f : string * string)
  : result cell :=
  match col_type rel (fst f) with
  | Some ty => literal ty (snd f)
  | None => Err DatabaseError
  end.

(** A filter whose text the server reads as one comparison: the column is
    a name, the value has no quote. *)
Definition plain (f : string * string) : Prop :=
  is_name (fst f) = true /\ quote_free (snd f) = true.

(** A filter that the server reads as the comparison meant: it is plain,
    its column is a column of the table and its value can be read at the
    type of that column. *)
Definition well_formed `{Platform} (rel : relation) (f : string * string)
  : Prop :=
  plain f /\ exists v, wanted rel f = Ok v.

(** The row holds the value that the filter asks for. *)
Definition meets `{Platform} (rel : relation) (f : string * string)
           (r : list cell) : bool :=
  match wanted rel f with
  | Ok NULL => false
  | Ok v => if cell_eq_dec (col_value rel (fst f) r) v then true else false
  | Err _ => false
  end.

(** The rows that the filters applied select: the first two that carry a
    value. *)
Definition matching_rows `{Platform} (rel : relation)
           (where_lst : list (string * option string)) : list (list cell) :=
  filter (fun r => forallb (fun f => meets rel f r)
                           (firstn 2 (present where_lst)))
         (rel_rows rel).

(** The text of a string is [toks] when a space, a symbol or the end of
    the text follows. *)
Definition reads (s : string) (toks : list token) : Prop :=
  exists ts st ts',
    lex_run Between s = Ok (ts, st) /\ flush st = Ok ts' /\
    toks = ts ++ ts'.

(** A clause appended to a statement: nothing, or a space and a text. *)
Definition reads_after (s : string) (toks : list token) : Prop :=
  (s = "" /\ toks = []) \/
  (exists s', s = String " " s' /\ reads s' toks).

(** The text of the WHERE clause for the filters applied. *)
Definition clause_text (fs : list (string * string)) : string :=
  match fs with
  | [] => ""
  | f0 :: rest =>
      let str_temp :=
        (" WHERE " ++ fst f0 ++ " = '" ++ snd f0 ++ "'")%string in
      match rest with
      | [] => str_temp
      | f1 :: _ =>
          (str_temp ++ (" AND " ++ fst f1 ++ " = '" ++ snd f1 ++ "'"))%string
      end
  end.

(** A pagination clause: none, or [" LIMIT l OFFSET o"]. *)
Definition pagination (page : option (nat * nat)) : string :=
  match page with
  | None => ""
  | Some (limit, start) =>
      (" LIMIT " ++ decimal limit ++ " OFFSET " ++ decimal start)%string
  end.

(** The page of a list of rows. *)
Definition paginate {A} (page : option (nat * nat)) (rows : list A)
  : list A :=
  match page with
  | None => rows
  | Some (limit, start) => firstn limit (skipn start rows)
  end.

(** The tokens of the WHERE clause for the filters applied. *)
Definition where_tokens (fs : list (string * string)) : list token :=
  match fs with
  | [] => []
  | f0 :: rest =>
      [KEYWORD "where"; IDENT (fold_ident (fst f0)); EQUALS; SCONST (snd f0)]
      ++ match rest with
         | [] => []
         | f1 :: _ =>
             [KEYWORD "and"; IDENT (fold_ident (fst f1)); EQUALS;
              SCONST (snd f1)]
         end
  end.

(** The tokens of the selection and of a pagination clause. *)
Definition selection_tokens (count : bool) : list token :=
  if count then [IDENT "count"; LPAREN; STAR; RPAREN] else [STAR].

Definition page_tokens (page : option (nat * nat)) : list token :=
  match page with
  | None => []
  | Some (limit, start) =>
      [KEYWORD "limit"; ICONST limit; KEYWORD "offset"; ICONST start]
  end.

(** The condition of the WHERE clause for the filters applied. *)
Definition where_condition (fs : list (string * string)) : option condition :=
  match fs with
  | [] => None
  | f0 :: rest =>
      let c0 := Equal (Column (fold_ident (fst f0))) (Literal (snd f0)) in
      Some match rest with
           | [] => c0
           | f1 :: _ =>
               And c0 (Equal (Column (fold_ident (fst f1)))
                             (Literal (snd f1)))
           end
  end.

(** The columns of the frame that [ingest_data] uploads for weather. *)
Definition WX_FRAME_COLS : list string :=
  ["DATE"; "MAX_TEMP_1_10_DEG_C"; "MIN_TEMP_1_10_DEG_C";
   "PRECIPITATION_1_10_MM"; "STATION_ID"].

(** The primary key of every row of the relation is its own. *)
Definition unique_keys (rel : relation) : Prop :=
  NoDup (map (pk_key rel) (rel_rows rel)).

(** The summary table of an ingestor exists and has a primary key. *)
Definition summary_keyed (self : Ingestor) (db : database) : Prop :=
  exists rel,
    find_rel (qualified self AVG_TABLE) db = Some rel /\ rel_pk rel <> [].

(** How a stored summary row relates to the key of its group. *)
Definition summarises (source : relation) (k row : list cell) : Prop :=
  exists r s y a b p,
    In r (rel_rows source) /\ k = group_key source r /\
    row = [s; y; a; b; p] /\
    assign (varchar 20) (col_value source "STATION_ID" r) = Ok s /\
    s <> NULL /\
    assign int4 (EXTRACT_YEAR (col_value source "DATE" r)) = Ok y /\
    y <> NULL.

(* ================================================================= *)
(** * Properties *)

(** ** Keys, exceptions, lists *)

Lemma key_eqb_eq a b : key_eqb a b = true <-> a = b.
Proof. unfold key_eqb; destruct (key_eq_dec a b); split; congruence. Qed.

Lemma key_eqb_refl a : key_eqb a a = true.
Proof. now apply key_eqb_eq. Qed.

Lemma key_eqb_neq a b : key_eqb a b = false <-> a <> b.
Proof. unfold key_eqb; destruct (key_eq_dec a b); split; congruence. Qed.

Lemma existsb_key_In k seen :
  existsb (key_eqb k) seen = true <-> In k seen.
Proof.
  rewrite existsb_exists; split.
  - intros [x [Hin Heq]]. apply key_eqb_eq in Heq. now subst.
  - intros Hin. exists k. split; [assumption | apply key_eqb_refl].
Qed.

Lemma existsb_key_not_In k seen :
  existsb (key_eqb k) seen = false <-> ~ In k seen.
Proof.
  rewrite <- existsb_key_In. destruct (existsb (key_eqb k) seen); split;
    congruence.
Qed.

Lemma rbind_Ok {A B} (r : result A) (f : A -> result B) b :
  rbind r f = Ok b <-> exists a, r = Ok a /\ f a = Ok b.
Proof.
  destruct r as [a | e]; simpl; split.
  - intros Hf. now exists a.
  - intros [a' [Ha Hf]]. now inversion Ha; subst.
  - discriminate.
  - intros [a' [Ha _]]. discriminate.
Qed.

(** Split a hypothesis [x <- r ;; k = Ok b] into [r = Ok x] and the rest. *)
Ltac bind_inv H x Hx :=
  apply rbind_Ok in H; destruct H as [x [Hx H]].

Lemma traverse_Ok {A B} (f : A -> result B) l bs :
  traverse f l = Ok bs <-> Forall2 (fun a b => f a = Ok b) l bs.
Proof.
  revert bs; induction l as [| a l IH]; intros bs; simpl.
  - split.
    + intros H; inversion H; constructor.
    + intros H; inversion H; reflexivity.
  - split.
    + intros H. apply rbind_Ok in H. destruct H as [b [Hb H]].
      apply rbind_Ok in H. destruct H as [bs' [Hbs H]].
      inversion H; subst. constructor; [assumption | now apply IH].
    + intros H. inversion H as [| ? b ? bs' Hb Hbs]; subst.
      rewrite Hb; simpl. apply IH in Hbs. rewrite Hbs. reflexivity.
Qed.


(* ----------------------------------------------------------------- *)
(** ** De-duplication keeps the first record of each key *)

Section DropSeen.

Variable key : list cell -> list cell.

Lemma drop_seen_In seen rows r :
  In r (drop_seen key seen rows) -> In r rows /\ ~ In (key r) seen.
Proof.
  revert seen; induction rows as [| x rows IH]; intros seen; simpl.
  - contradiction.
  - destruct (existsb (key_eqb (key x)) seen) eqn:Hx.
    + intros H. apply IH in H. tauto.
    + intros [-> | H].
      * split; [now left | now apply existsb_key_not_In].
      * apply IH in H. destruct H as [Hin Hk]. split; [now right |].
        intros Hs. apply Hk. now right.
Qed.

Lemma drop_seen_NoDup seen rows :
  NoDup (map key (drop_seen key seen rows)).
Proof.
  revert seen; induction rows as [| x rows IH]; intros seen; simpl.
  - constructor.
  - destruct (existsb (key_eqb (key x)) seen); [apply IH |].
    simpl. constructor; [| apply IH].
    intros Hin. apply in_map_iff in Hin. destruct Hin as [r [Hk Hr]].
    apply drop_seen_In in Hr. destruct Hr as [_ Hr]. apply Hr.
    left. congruence.
Qed.

Lemma drop_seen_complete seen rows r :
  In r rows -> ~ In (key r) seen ->
  exists r', In r' (drop_seen key seen rows) /\ key r' = key r.
Proof.
  revert seen; induction rows as [| x rows IH]; intros seen Hin Hk;
    [contradiction |].
  simpl. destruct (existsb (key_eqb (key x)) seen) eqn:Hx.
  - destruct Hin as [-> | Hin].
    + apply existsb_key_In in Hx. contradiction.
    + now apply IH.
  - destruct (key_eq_dec (key x) (key r)) as [Heq | Hne].
    + exists x. split; [now left | assumption].
    + destruct Hin as [-> | Hin]; [congruence |].
      destruct (IH (key x :: seen) Hin) as [r' [Hr' Hk']].
      * intros [H | H]; [congruence | contradiction].
      * exists r'. split; [now right | assumption].
Qed.

(** A survivor is the first row of the input that has its key. *)
Lemma drop_seen_first seen rows r :
  In r (drop_seen key seen rows) ->
  find (fun r' => key_eqb (key r') (key r)) rows = Some r.
Proof.
  revert seen; induction rows as [| x rows IH]; intros seen; simpl;
    [contradiction |].
  destruct (existsb (key_eqb (key x)) seen) eqn:Hx.
  - intros H. pose proof (drop_seen_In _ _ _ H) as [_ Hk].
    destruct (key_eqb (key x) (key r)) eqn:Hxr.
    + apply key_eqb_eq in Hxr. apply existsb_key_In in Hx.
      rewrite Hxr in Hx. contradiction.
    + now apply (IH seen).
  - intros [-> | H].
    + now rewrite key_eqb_refl.
    + pose proof (drop_seen_In _ _ _ H) as [_ Hk].
      destruct (key_eqb (key x) (key r)) eqn:Hxr.
      * apply key_eqb_eq in Hxr. exfalso. apply Hk. now left.
      * now apply (IH (key x :: seen)).
Qed.

End DropSeen.

Lemma has_columns_forallb keys df :
  has_columns keys df ->
  forallb (fun k => match loc k (columns df) with
                    | Some _ => true
                    | None => false
                    end) keys = true.
Proof.
  intros H. apply forallb_forall. intros k Hk. specialize (H k Hk).
  destruct (loc k (columns df)); congruence.
Qed.

(** C2, as the code has it.  [drop_duplicates(keys)] returns a frame with
    exactly one record per natural key: the keys of the output are pairwise
    distinct, every key of the input is still there, and the record kept for
    a key is the FIRST record of the input sequence with that key (pandas'
    default [keep='first']), not the last. *)
Theorem drop_duplicates_keeps_first (keys : list string) (df : DataFrame)
        (Hkeys : has_columns keys df) :
  let key := subset_key (columns df) keys in
  exists out,
    drop_duplicates keys df = Ok out /\
    columns out = columns df /\
    NoDup (map key (values out)) /\
    (forall r, In r (values df) ->
               exists r', In r' (values out) /\ key r' = key r) /\
    (forall r, In r (values out) ->
               find (fun r' => key_eqb (key r') (key r)) (values df) = Some r).
Proof.
  intros key. unfold drop_duplicates.
  rewrite (has_columns_forallb _ _ Hkeys).
  eexists; split; [reflexivity |]. simpl.
  split; [reflexivity |]. split; [apply drop_seen_NoDup |]. split.
  - intros r Hr. apply drop_seen_complete; [assumption | intros []].
  - intros r Hr. now apply drop_seen_first with (seen := []).
Qed.

Lemma drop_duplicates_keeps_first_witness :
  has_columns ["YEAR"] two_yields /\
  exists out,
    drop_duplicates ["YEAR"] two_yields = Ok out /\
    values out = [[Int 2000; Int 10; Str "a"]].
Proof.
  assert (H : has_columns ["YEAR"] two_yields).
  { intros k [<- | []]. discriminate. }
  split; [exact H |].
  destruct (drop_duplicates_keeps_first ["YEAR"] two_yields H)
    as [out [Hout _]].
  exists out. split; [exact Hout |].
  vm_compute in Hout. inversion Hout. reflexivity.
Defined.

(** C2, as the claim states it, fails: of two records with the same year
    and different yields, the last one seen is dropped. *)
Lemma last_seen_does_not_win :
  ~ (forall keys df out,
        drop_duplicates keys df = Ok out ->
        forall r, In r (values out) ->
                  find (fun r' => key_eqb (subset_key (columns df) keys r')
                                          (subset_key (columns df) keys r))
                       (rev (values df)) = Some r).
Proof.
  intros H.
  specialize (H ["YEAR"] two_yields
                (mkFrame (columns two_yields) [[Int 2000; Int 10; Str "a"]])
                eq_refl [Int 2000; Int 10; Str "a"] (or_introl eq_refl)).
  vm_compute in H. discriminate.
Qed.

(* ----------------------------------------------------------------- *)
(** ** The database as a list of named relations *)

Lemma set_rel_same name rel db :
  find_rel name db = Some rel -> set_rel name rel db = db.
Proof.
  induction db as [| [n [| r]] db IH]; simpl; [discriminate | |].
  - intros H. now rewrite IH.
  - destruct (String.eqb n name) eqn:Hn.
    + intros H; inversion H; reflexivity.
    + intros H. now rewrite IH.
Qed.

Lemma find_rel_set_rel name rel db :
  find_rel name (set_rel name rel db) = Some rel.
Proof.
  induction db as [| [n [| r]] db IH]; simpl.
  - now rewrite String.eqb_refl.
  - assumption.
  - destruct (String.eqb n name) eqn:Hn; simpl; rewrite Hn;
      [reflexivity | assumption].
Qed.

Lemma find_rel_set_rel_other name name' rel db :
  name' <> name ->
  find_rel name' (set_rel name rel db) = find_rel name' db.
Proof.
  intros Hne. induction db as [| [n [| r]] db IH]; simpl.
  - destruct (String.eqb name name') eqn:Hn; [| reflexivity].
    apply String.eqb_eq in Hn. congruence.
  - assumption.
  - destruct (String.eqb n name) eqn:Hn; simpl.
    + apply String.eqb_eq in Hn; subst n.
      destruct (String.eqb name name') eqn:Hn'; [| reflexivity].
      apply String.eqb_eq in Hn'. congruence.
    + now rewrite IH.
Qed.

Lemma find_rel_app name db db' :
  find_rel name (db ++ db') =
  match find_rel name db with
  | Some r => Some r
  | None => find_rel name db'
  end.
Proof.
  induction db as [| [n [| r]] db IH]; simpl; [reflexivity | assumption |].
  now destruct (String.eqb n name).
Qed.

Lemma find_rel_app_new name rel db :
  find_rel name db = None ->
  find_rel name (db ++ [(name, Table rel)]) = Some rel.
Proof.
  intros Hf. rewrite find_rel_app, Hf. simpl. now rewrite String.eqb_refl.
Qed.

Lemma find_rel_app_old name db db' r :
  find_rel name db = Some r -> find_rel name (db ++ db') = Some r.
Proof. intros Hf. now rewrite find_rel_app, Hf. Qed.

Lemma find_rel_app_Schema name name' db :
  find_rel name (db ++ [(name', Schema)]) = find_rel name db.
Proof. rewrite find_rel_app. now destruct (find_rel name db). Qed.

Lemma schema_exists_app name db db' :
  schema_exists name (db ++ db') =
  schema_exists name db || schema_exists name db'.
Proof. apply existsb_app. Qed.

Lemma schema_exists_set_rel name name' rel db :
  schema_exists name (set_rel name' rel db) = schema_exists name db.
Proof.
  induction db as [| [n [| r]] db IH]; simpl; [reflexivity | |].
  - now rewrite <- IH.
  - destruct (String.eqb n name'); simpl; [reflexivity | exact IH].
Qed.

(* ----------------------------------------------------------------- *)
(** ** [create_table] *)

Lemma extends_refl db : extends db db.
Proof. split; trivial. Qed.

Lemma extends_trans db1 db2 db3 :
  extends db1 db2 -> extends db2 db3 -> extends db1 db3.
Proof. intros [H1 H2] [H3 H4]. split; auto. Qed.

Lemma extends_set_rel name rel db : extends db (set_rel name rel db).
Proof.
  split; intros n Hn.
  - now rewrite schema_exists_set_rel.
  - destruct (string_dec n name) as [-> | Hne].
    + rewrite find_rel_set_rel. discriminate.
    + now rewrite find_rel_set_rel_other.
Qed.

Lemma created_extends self query db db' :
  created self query db -> extends db db' -> created self query db'.
Proof. intros [H1 [H2 H3]] [Hs Ht]. repeat split; auto. Qed.


Lemma create_table_created self table query db :
  created self query db -> create_table self table query db = (Ok tt, db).
Proof.
  intros [Hs [Hq Ht]]. unfold create_table, exec_create_table.
  rewrite Hs, Hq.
  destruct (find_rel (fold_ident (q_name query)) db); congruence.
Qed.

Lemma create_table_Ok self table query db db0 :
  create_table self table query db = (Ok tt, db0) ->
  created self query db0 /\ extends db db0 /\
  (forall name rel, find_rel name db = Some rel ->
                    find_rel name db0 = Some rel) /\
  (forall name, name <> fold_ident (q_name query) ->
                find_rel name db0 = find_rel name db) /\
  (find_rel (fold_ident (q_name query)) db = None ->
   find_rel (fold_ident (q_name query)) db0 = Some (declared query)).
Proof.
  unfold create_table, exec_create_table.
  set (ns := fold_ident (schema self)).
  set (q := fold_ident (q_name query)).
  set (db1 := if schema_exists ns db then db else db ++ [(ns, Schema)]).
  assert (Hfind1 : forall name, find_rel name db1 = find_rel name db).
  { intros name. unfold db1. destruct (schema_exists ns db);
      [reflexivity | apply find_rel_app_Schema]. }
  assert (Hns : schema_exists ns db1 = true).
  { unfold db1. destruct (schema_exists ns db) eqn:E; [assumption |].
    rewrite schema_exists_app. simpl. rewrite String.eqb_refl.
    now rewrite orb_true_r. }
  assert (Hmono : forall name, schema_exists name db = true ->
                               schema_exists name db1 = true).
  { intros name Hn. unfold db1. destruct (schema_exists ns db);
      [assumption |]. rewrite schema_exists_app, Hn. reflexivity. }
  destruct (schema_exists (fold_ident (q_schema query)) db1) eqn:Hqs;
    [| discriminate].
  rewrite Hfind1. destruct (find_rel q db) as [r |] eqn:Hq.
  - intros Heq. inversion Heq; subst db0; clear Heq.
    split; [| split; [| split; [| split]]].
    + repeat split; try assumption. fold q. rewrite Hfind1, Hq. discriminate.
    + split; [exact Hmono | intros name; now rewrite Hfind1].
    + intros name rel. now rewrite Hfind1.
    + intros name _. apply Hfind1.
    + discriminate.
  - destruct (distinct _ && distinct _ && forallb _ _); [| discriminate].
    intros Heq. inversion Heq; subst db0; clear Heq.
    fold (declared query).
    assert (Hnew : find_rel q (db1 ++ [(q, Table (declared query))])
                   = Some (declared query)).
    { apply find_rel_app_new. now rewrite Hfind1. }
    assert (Hold : forall name rel,
               find_rel name db = Some rel ->
               find_rel name (db1 ++ [(q, Table (declared query))])
               = Some rel).
    { intros name rel Hn. apply find_rel_app_old. now rewrite Hfind1. }
    split; [| split; [| split; [| split]]].
    + repeat split.
      * rewrite schema_exists_app. fold ns. now rewrite Hns.
      * rewrite schema_exists_app. now rewrite Hqs.
      * fold q. rewrite Hnew. discriminate.
    + split.
      * intros name Hn. rewrite schema_exists_app, (Hmono name Hn).
        reflexivity.
      * intros name Hn. destruct (find_rel name db) as [r |] eqn:Hr;
          [| congruence]. rewrite (Hold name r Hr). discriminate.
    + exact Hold.
    + intros name Hne. rewrite find_rel_app, Hfind1.
      destruct (find_rel name db); [reflexivity |]. simpl.
      destruct (String.eqb q name) eqn:E; [| reflexivity].
      apply String.eqb_eq in E. congruence.
    + intros _. exact Hnew.
Qed.

Lemma create_table_cases self table query db :
  (exists db0, create_table self table query db = (Ok tt, db0)) \/
  (exists e, create_table self table query db = (Err e, db)).
Proof.
  unfold create_table. destruct (exec_create_table _ _);
    [left | right]; now eexists.
Qed.

(** A table that exists is found as it was, with its rows. *)
Lemma create_table_existing self table query db db0 name :
  create_table self table query db = (Ok tt, db0) ->
  find_rel (fold_ident (q_name query)) db <> None ->
  find_rel name db0 = find_rel name db.
Proof.
  intros Hrun Hex.
  destruct (create_table_Ok _ _ _ _ _ Hrun) as [_ [_ [Hold [Hother _]]]].
  destruct (string_dec name (fold_ident (q_name query))) as [-> | Hne];
    [| now apply Hother].
  destruct (find_rel (fold_ident (q_name query)) db) as [r |] eqn:Hr;
    [| congruence].
  now apply Hold.
Qed.

(* ----------------------------------------------------------------- *)
(** ** INSERT ... ON CONFLICT DO NOTHING *)

Section Merge.

Variable rel : relation.

Lemma conflicts_app rows more r :
  conflicts rel rows r = true -> conflicts rel (rows ++ more) r = true.
Proof.
  unfold conflicts. destruct (rel_pk rel); [discriminate |].
  rewrite existsb_app. intros ->. reflexivity.
Qed.

Lemma conflicts_last r rows :
  rel_pk rel <> [] -> conflicts rel (rows ++ [r]) r = true.
Proof.
  unfold conflicts. destruct (rel_pk rel); [congruence |]. intros _.
  rewrite existsb_app. simpl. rewrite key_eqb_refl.
  now rewrite orb_true_r.
Qed.

(** The statement only appends: the rows present stay where they are,
    and each row added had a key that was absent. *)
Lemma on_conflict_do_nothing_appends rows new :
  exists added,
    on_conflict_do_nothing rel rows new = rows ++ added /\
    (forall r, In r added -> In r new /\ conflicts rel rows r = false).
Proof.
  revert rows; induction new as [| x new IH]; intros rows; simpl.
  - exists []. split; [now rewrite app_nil_r | contradiction].
  - destruct (conflicts rel rows x) eqn:Hx.
    + destruct (IH rows) as [added [Heq Hadd]].
      exists added. split; [assumption |].
      intros r Hr. destruct (Hadd r Hr). split; [now right | assumption].
    + destruct (IH (rows ++ [x])) as [added [Heq Hadd]].
      exists (x :: added). split.
      * rewrite Heq, <- app_assoc. reflexivity.
      * intros r [<- | Hr]; [split; [now left | assumption] |].
        destruct (Hadd r Hr) as [Hin Hc]. split; [now right |].
        destruct (conflicts rel rows r) eqn:Hr'; [| reflexivity].
        now rewrite (conflicts_app _ [x] _ Hr') in Hc.
Qed.

(** Afterwards every offered key is in the table. *)
Lemma on_conflict_do_nothing_covers rows new r :
  rel_pk rel <> [] -> In r new ->
  conflicts rel (on_conflict_do_nothing rel rows new) r = true.
Proof.
  intros Hpk. revert rows; induction new as [| x new IH]; intros rows;
    simpl; [contradiction |].
  intros [-> | Hin]; [| now apply IH].
  destruct (on_conflict_do_nothing_appends
              (if conflicts rel rows r then rows else rows ++ [r]) new)
    as [added [-> _]].
  apply conflicts_app.
  destruct (conflicts rel rows r) eqn:Hr;
    [assumption | now apply conflicts_last].
Qed.

(** Offering only keys that are present changes nothing. *)
Lemma on_conflict_do_nothing_noop rows new :
  (forall r, In r new -> conflicts rel rows r = true) ->
  on_conflict_do_nothing rel rows new = rows.
Proof.
  induction new as [| x new IH]; intros H; simpl; [reflexivity |].
  rewrite (H x (or_introl eq_refl)). apply IH.
  intros r Hr. apply H. now right.
Qed.

Lemma on_conflict_do_nothing_with_rows any rows new :
  on_conflict_do_nothing (with_rows rel any) rows new =
  on_conflict_do_nothing rel rows new.
Proof.
  revert rows; induction new as [| x new IH]; intros rows; simpl;
    [reflexivity |].
  apply IH.
Qed.

Lemma on_conflict_do_nothing_idempotent rows new :
  rel_pk rel <> [] ->
  on_conflict_do_nothing rel (on_conflict_do_nothing rel rows new) new =
  on_conflict_do_nothing rel rows new.
Proof.
  intros Hpk. apply on_conflict_do_nothing_noop.
  intros r Hr. now apply on_conflict_do_nothing_covers.
Qed.

End Merge.

(* ----------------------------------------------------------------- *)
(** ** The staging script of [upload_to_db] *)

Section Upload.

Context `{Platform}.

Lemma run_upload_script fault rel df :
  run fault 1
      [BEGIN; CREATE_TEMP_TABLE; COPY (columns df) (values df);
       INSERT_SELECT; COMMIT]
      (mkSession rel None None) =
  if fault 1%nat || fault 2%nat || fault 3%nat
  then (Err DatabaseError, mkSession rel None None)
  else match staged rel df with
       | Ok rows =>
           if fault 4%nat || fault 5%nat
           then (Err DatabaseError, mkSession rel None None)
           else (Ok tt, mkSession (merged rel rows) None None)
       | Err e => (Err e, mkSession rel None None)
       end.
Proof.
  unfold staged, merged.
  cbn [run exec work tmp_table committed current rollback].
  destruct (fault 1%nat); [reflexivity |].
  cbn [orb run exec work tmp_table committed current rollback].
  destruct (fault 2%nat); [reflexivity |].
  cbn [orb run exec work tmp_table committed current rollback].
  destruct (fault 3%nat); [reflexivity |].
  cbn [orb run exec work tmp_table committed current rollback].
  destruct (known_columns (LIKE rel) (columns df)); [| reflexivity].
  destruct (traverse (copy_row (LIKE rel) (columns df)) (values df))
    as [rows | e]; [| reflexivity].
  cbn [rbind run exec work tmp_table committed current rollback].
  destruct (fault 4%nat); [reflexivity |].
  cbn [orb run exec work tmp_table committed current rollback write
           with_rows rel_rows LIKE app].
  destruct (fault 5%nat); reflexivity.
Qed.

End Upload.

Section UploadToDb.

Context `{Platform}.

Lemma upload_to_db_eq fault self df db :
  upload_to_db fault self df db =
  match find_rel (qualified self (table self)) db with
  | None => (Err DatabaseError, db)
  | Some rel =>
      if fault 0%nat || fault 1%nat || fault 2%nat || fault 3%nat
      then (Err DatabaseError, db)
      else match staged rel df with
           | Ok rows =>
               if fault 4%nat || fault 5%nat then (Err DatabaseError, db)
               else if fault 6%nat || fault 7%nat
               then (Err DatabaseError,
                     set_rel (qualified self (table self))
                             (merged rel rows) db)
               else (Ok (Z.of_nat (List.length (rel_rows (merged rel rows)))
                         - Z.of_nat (List.length (rel_rows rel))),
                     set_rel (qualified self (table self))
                             (merged rel rows) db)
           | Err e => (Err e, db)
           end
  end.
Proof.
  unfold upload_to_db.
  destruct (find_rel (qualified self (table self)) db) as [rel |] eqn:Hrel;
    [| now destruct (fault 0%nat)].
  rewrite run_upload_script.
  destruct (fault 0%nat); [reflexivity |]. cbn [orb].
  destruct (fault 1%nat || fault 2%nat || fault 3%nat).
  - cbn [committed]. now rewrite (set_rel_same _ _ _ Hrel).
  - destruct (staged rel df) as [rows | e].
    + destruct (fault 4%nat || fault 5%nat); cbn [committed].
      * now rewrite (set_rel_same _ _ _ Hrel).
      * destruct (fault 6%nat); [reflexivity |].
        destruct (fault 7%nat); reflexivity.
    + cbn [committed]. now rewrite (set_rel_same _ _ _ Hrel).
Qed.

Lemma merged_rows rel rows :
  exists added,
    rel_rows (merged rel rows) = rel_rows rel ++ added /\
    (forall r, In r added ->
               In r rows /\ conflicts rel (rel_rows rel) r = false).
Proof. unfold merged. simpl. apply on_conflict_do_nothing_appends. Qed.

Lemma merged_merged rel rows :
  rel_pk rel <> [] -> merged (merged rel rows) rows = merged rel rows.
Proof.
  intros Hpk. unfold merged.
  set (rows' := on_conflict_do_nothing rel (rel_rows rel) rows).
  change (rel_rows (with_rows rel rows')) with rows'.
  rewrite on_conflict_do_nothing_with_rows. unfold rows'.
  rewrite on_conflict_do_nothing_idempotent by assumption.
  reflexivity.
Qed.

Lemma staged_merged rel rows df :
  staged (merged rel rows) df = staged rel df.
Proof. reflexivity. Qed.

Lemma no_conflict_not_stored rel r :
  rel_pk rel <> [] ->
  conflicts rel (rel_rows rel) r = false ->
  stored rel (pk_key rel r) = None.
Proof.
  unfold conflicts, stored. destruct (rel_pk rel) eqn:Hpk; [congruence |].
  intros _ Hc.
  destruct (find (fun r0 => key_eqb (pk_key rel r0) (pk_key rel r))
                 (rel_rows rel)) as [r' |] eqn:Hf; [| reflexivity].
  apply find_some in Hf. destruct Hf as [Hin Hk].
  assert (existsb (fun r'0 => key_eqb (pk_key rel r) (pk_key rel r'0))
                  (rel_rows rel) = true) as Hex.
  { apply existsb_exists. exists r'. split; [assumption |].
    apply key_eqb_eq in Hk. apply key_eqb_eq. congruence. }
  unfold pk_key in Hc, Hex. rewrite Hpk in Hc, Hex. congruence.
Qed.

Lemma find_app_Some {A} (p : A -> bool) l l' a :
  find p l = Some a -> find p (l ++ l') = Some a.
Proof.
  induction l as [| x l IH]; simpl; [discriminate |].
  destruct (p x); [trivial | assumption].
Qed.

Lemma upload_to_db_Ok_count fault self df db n db' :
  upload_to_db fault self df db = (Ok n, db') ->
  0 <= n /\ count_rows self db' = count_rows self db + n.
Proof.
  rewrite upload_to_db_eq. unfold count_rows.
  destruct (find_rel (qualified self (table self)) db) as [rel |] eqn:Hrel;
    [| discriminate].
  destruct (fault 0%nat || fault 1%nat || fault 2%nat || fault 3%nat); [discriminate |].
  destruct (staged rel df) as [rows | e]; [| discriminate].
  destruct (fault 4%nat || fault 5%nat); [discriminate |].
  destruct (fault 6%nat || fault 7%nat); [discriminate |].
  intros Hup. injection Hup as Hn Hdb. subst n db'.
  rewrite find_rel_set_rel. unfold merged. cbn [with_rows rel_rows].
  destruct (on_conflict_do_nothing_appends rel (rel_rows rel) rows)
    as [added [-> _]].
  rewrite length_app. lia.
Qed.

Lemma script_outcome_eq fault rel df :
  script_outcome fault rel df =
  if fault 1%nat || fault 2%nat || fault 3%nat then Err DatabaseError
  else match staged rel df with
       | Ok _ => if fault 4%nat || fault 5%nat then Err DatabaseError
                 else Ok tt
       | Err e => Err e
       end.
Proof.
  unfold script_outcome. rewrite run_upload_script.
  destruct (fault 1%nat || fault 2%nat || fault 3%nat); [reflexivity |].
  destruct (staged rel df); [| reflexivity].
  now destruct (fault 4%nat || fault 5%nat).
Qed.

(** C5.  [upload_to_db] is all or nothing.  If the script fails at any
    point (a statement that does not reach the server, a line that COPY
    cannot stage, an INSERT or a COMMIT that cannot complete), the call
    raises and the database is exactly what it was.  Whatever the outcome,
    the database afterwards is the database before or the database with the
    whole frame merged; on an exception it is the latter only when the
    script has run to its end and the failure is that of a later call
    ([session.commit()] or the second [SELECT COUNT]).  The row count never
    decreases: when the call returns, the number [n] it reports is not
    negative and the table has [n] rows more than before. *)
Theorem upload_to_db_all_or_nothing (fault : nat -> bool) (self : Ingestor)
        (df : DataFrame) (db : database) :
  (forall rel e,
      find_rel (qualified self (table self)) db = Some rel ->
      script_outcome fault rel df = Err e ->
      exists e', upload_to_db fault self df db = (Err e', db)) /\
  match upload_to_db fault self df db with
  | (Err _, db') =>
      db' = db \/
      (fault 6%nat || fault 7%nat = true /\
       exists rel rows,
         find_rel (qualified self (table self)) db = Some rel /\
         script_outcome fault rel df = Ok tt /\
         staged rel df = Ok rows /\
         db' = set_rel (qualified self (table self)) (merged rel rows) db)
  | (Ok n, db') => 0 <= n /\ count_rows self db' = count_rows self db + n
  end /\
  count_rows self db <= count_rows self (snd (upload_to_db fault self df db)).
Proof.
  rewrite upload_to_db_eq. unfold count_rows.
  destruct (find_rel (qualified self (table self)) db) as [rel |] eqn:Hrel.
  2:{ split; [discriminate |]. split; [now left | cbn [snd]].
      rewrite Hrel. lia. }
  assert (Hgrow : forall rows,
             Z.of_nat (List.length (rel_rows rel)) <=
             Z.of_nat (List.length (rel_rows (merged rel rows)))).
  { intros rows. destruct (merged_rows rel rows) as [added [-> _]].
    rewrite length_app. lia. }
  split; [| split].
  - intros rel0 e Hrel0 Hout. inversion Hrel0; subst rel0; clear Hrel0.
    rewrite script_outcome_eq in Hout.
    destruct (fault 0%nat); [now eexists |]. cbn [orb] in *.
    destruct (fault 1%nat || fault 2%nat || fault 3%nat); [now eexists |].
    destruct (staged rel df) as [rows | e0]; [| now eexists].
    destruct (fault 4%nat || fault 5%nat); [now eexists | discriminate].
  - destruct (fault 0%nat || fault 1%nat || fault 2%nat || fault 3%nat) eqn:H03;
      [now left |].
    destruct (staged rel df) as [rows | e0] eqn:Hst; [| now left].
    destruct (fault 4%nat || fault 5%nat) eqn:H45; [now left |].
    destruct (fault 6%nat || fault 7%nat) eqn:H67.
    + right. split; [reflexivity |]. exists rel, rows.
      split; [reflexivity |]. split; [| now split].
      rewrite script_outcome_eq, Hst, H45.
      destruct (fault 0%nat); [discriminate |]. cbn [orb] in H03.
      now rewrite H03.
    + rewrite find_rel_set_rel. specialize (Hgrow rows).
      destruct (merged_rows rel rows) as [added [Heq _]].
      rewrite Heq in *. rewrite length_app in *. lia.
  - destruct (fault 0%nat || fault 1%nat || fault 2%nat || fault 3%nat);
      [cbn [snd]; rewrite Hrel; lia |].
    destruct (staged rel df) as [rows | e0];
      [| cbn [snd]; rewrite Hrel; lia].
    destruct (fault 4%nat || fault 5%nat); [cbn [snd]; rewrite Hrel; lia |].
    destruct (fault 6%nat || fault 7%nat); cbn [snd];
      rewrite find_rel_set_rel; apply Hgrow.
Qed.

(** C3.  Rows whose key is already in the table are skipped, silently:
    whenever COPY can stage the frame, [upload_to_db] returns (no conflict
    raises), the rows of the table are the old rows, in place, followed by
    the rows added; whatever was stored under a key is still stored under
    it, also when the frame offers another value for that key; and each row
    added is a staged row under whose key nothing was stored. *)
Theorem upload_to_db_skips_conflicts (self : Ingestor) (df : DataFrame)
        (db : database) (rel : relation) (rows : list (list cell))
        (Hrel : find_rel (qualified self (table self)) db = Some rel)
        (Hpk : rel_pk rel <> [])
        (Hstaged : staged rel df = Ok rows) :
  exists added,
    upload_to_db no_fault self df db =
    (Ok (Z.of_nat (List.length added)),
     set_rel (qualified self (table self))
             (with_rows rel (rel_rows rel ++ added)) db) /\
    (forall k r, stored rel k = Some r ->
                 stored (with_rows rel (rel_rows rel ++ added)) k = Some r) /\
    (forall r, In r added ->
               In r rows /\ stored rel (pk_key rel r) = None).
Proof.
  rewrite upload_to_db_eq, Hrel. unfold no_fault. cbn [orb].
  rewrite Hstaged. unfold merged.
  destruct (on_conflict_do_nothing_appends rel (rel_rows rel) rows)
    as [added [-> Hadded]].
  exists added. split; [| split].
  - cbn [with_rows rel_rows]. rewrite length_app, Nat2Z.inj_add.
    do 2 f_equal. lia.
  - intros k r Hk. exact (find_app_Some _ _ _ _ Hk).
  - intros r Hr. destruct (Hadded r Hr) as [Hin Hc].
    split; [assumption | now apply no_conflict_not_stored].
Qed.

End UploadToDb.

(* ----------------------------------------------------------------- *)
(** ** [ingest_data] as a whole *)

Section IngestData.

Context `{Platform}.

Lemma ingest_data_eq fs fault self query db :
  ingest_data fs fault self query db =
  match ingest_frame fs self with
  | Ok df =>
      match create_table self (table self) query db with
      | (Ok _, db0) => upload_to_db fault self df db0
      | (Err e, db0) => (Err e, db0)
      end
  | Err e => (Err e, db)
  end.
Proof.
  unfold ingest_data, bind, lift.
  now destruct (ingest_frame fs self) as [df | e].
Qed.

(** [create_table] does not change the number of rows of a table. *)
Lemma create_table_count self tbl query db db0 :
  create_table self tbl query db = (Ok tt, db0) ->
  count_rows self db0 = count_rows self db.
Proof.
  intros Hrun. unfold count_rows.
  destruct (create_table_Ok _ _ _ _ _ Hrun) as [_ [_ [Hold [Hother Hnew]]]].
  destruct (find_rel (qualified self (table self)) db) as [r |] eqn:Hr.
  - now rewrite (Hold _ _ Hr).
  - destruct (string_dec (qualified self (table self))
                         (fold_ident (q_name query))) as [Heq | Hne].
    + rewrite Heq in *. now rewrite (Hnew Hr).
    + now rewrite (Hother _ Hne), Hr.
Qed.

(** C1.  Ingesting the same files a second time adds nothing: if
    [ingest_data] has returned and the table has a primary key, running
    it again on the same files returns 0 rows added and leaves the
    database, hence the row count of the base table, exactly as the
    first run left it. *)
Theorem ingest_data_twice (fs : filesystem) (fault : nat -> bool)
        (self : Ingestor) (query : create_table_query)
        (db db1 : database) (n : Z)
        (Hfirst : ingest_data fs fault self query db = (Ok n, db1))
        (Hkey : keyed self db1) :
  ingest_data fs no_fault self query db1 = (Ok 0, db1) /\
  count_rows self db1 = count_rows self db + n.
Proof.
  rewrite ingest_data_eq in Hfirst. rewrite ingest_data_eq.
  destruct (ingest_frame fs self) as [df | e]; [| discriminate].
  destruct (create_table self (table self) query db) as [[[] | e] db0]
    eqn:Hcreate; [| discriminate].
  pose proof (upload_to_db_Ok_count fault self df db0 n db1 Hfirst)
    as Hcount.
  destruct (create_table_Ok _ _ _ _ _ Hcreate) as [Hcreated _].
  rewrite upload_to_db_eq in Hfirst.
  destruct (find_rel (qualified self (table self)) db0) as [rel |] eqn:Hrel;
    [| discriminate].
  destruct (fault 0%nat || fault 1%nat || fault 2%nat || fault 3%nat);
    [discriminate |].
  destruct (staged rel df) as [rows | e] eqn:Hst; [| discriminate].
  destruct (fault 4%nat || fault 5%nat); [discriminate |].
  destruct (fault 6%nat || fault 7%nat); [discriminate |].
  inversion Hfirst; subst n db1; clear Hfirst.
  destruct Hkey as [rel1 [Hrel1 Hpk]].
  rewrite find_rel_set_rel in Hrel1. inversion Hrel1; subst rel1.
  assert (Hpk0 : rel_pk rel <> []) by exact Hpk.
  split.
  - rewrite (create_table_created self (table self) query)
      by (apply (created_extends _ _ db0);
          [assumption | apply extends_set_rel]).
    rewrite upload_to_db_eq, find_rel_set_rel.
    unfold no_fault.
    cbn [orb]. rewrite staged_merged, Hst.
    rewrite merged_merged by assumption.
    rewrite Z.sub_diag. f_equal.
    apply set_rel_same, find_rel_set_rel.
  - destruct Hcount as [_ Hcount]. rewrite Hcount. f_equal.
    exact (create_table_count _ _ _ _ _ Hcreate).
Qed.


Lemma expected_fields_names names lines :
  (List.length names <= expected_fields names lines)%nat.
Proof. unfold expected_fields. destruct lines; lia. Qed.



(** What [read_csv] returns: one record per line that is not blank, each
    with one field per name. *)
Lemma read_csv_Ok content names df :
  read_csv content names = Ok df ->
  columns df = names /\
  List.length (values df) = List.length (skip_blank_lines content) /\
  forall r, In r (values df) -> List.length r = List.length names.
Proof.
  unfold read_csv.
  destruct (forallb _ (skip_blank_lines content)) eqn:Hall; [| discriminate].
  intros Hdf. inversion Hdf; subst df; clear Hdf. cbn [columns values].
  split; [reflexivity |]. split; [apply length_map |].
  intros r Hr. apply in_map_iff in Hr. destruct Hr as [line [<- Hline]].
  rewrite forallb_forall in Hall. specialize (Hall line Hline).
  apply Nat.leb_le in Hall.
  pose proof (expected_fields_names names (skip_blank_lines content)).
  rewrite length_skipn, length_app, repeat_length. lia.
Qed.



End IngestData.

(* ----------------------------------------------------------------- *)
(** ** The aggregates of [generate_avg_table] *)

Section Aggregates.

Variable rel : relation.

Lemma inputs_FILTER c g :
  inputs (FILTER (fun v => sql_ne v (-9999)) (column rel c g)) =
  readings rel c g.
Proof.
  unfold FILTER, column, readings.
  induction g as [| r g IH]; simpl; [reflexivity |].
  destruct (col_value rel c r) as [| v | | |]; simpl; try exact IH.
  destruct (v =? -9999); simpl; [exact IH | now rewrite IH].
Qed.

Lemma AVG_FILTER c g :
  AVG (FILTER (fun v => sql_ne v (-9999)) (column rel c g)) =
  match readings rel c g with
  | [] => NULL
  | xs => Num (mean xs)
  end.
Proof. unfold AVG. now rewrite inputs_FILTER. Qed.

Lemma SUM_FILTER c g :
  SUM (FILTER (fun v => sql_ne v (-9999)) (column rel c g)) =
  match readings rel c g with
  | [] => NULL
  | xs => Int (total xs)
  end.
Proof. unfold SUM. now rewrite inputs_FILTER. Qed.

Lemma avg_max_temp_eq g :
  avg_max_temp rel g =
  Ok match readings rel "MAX_TEMP_1_10_DEG_C" g with
     | [] => NULL
     | xs => Num (mean xs / inject_Z 10)
     end.
Proof.
  unfold avg_max_temp. rewrite AVG_FILTER.
  now destruct (readings rel "MAX_TEMP_1_10_DEG_C" g).
Qed.

Lemma avg_min_temp_eq g :
  avg_min_temp rel g =
  Ok match readings rel "MIN_TEMP_1_10_DEG_C" g with
     | [] => NULL
     | xs => Num (mean xs / inject_Z 10)
     end.
Proof.
  unfold avg_min_temp. rewrite AVG_FILTER.
  now destruct (readings rel "MIN_TEMP_1_10_DEG_C" g).
Qed.

Lemma total_precipitation_eq g :
  total_precipitation rel g =
  Ok match readings rel "PRECIPITATION_1_10_mm" g with
     | [] => NULL
     | xs => Int (Z.quot (total xs) 100)
     end.
Proof.
  unfold total_precipitation. rewrite SUM_FILTER.
  now destruct (readings rel "PRECIPITATION_1_10_mm" g).
Qed.

Lemma readings_sentinel c r g :
  col_value rel c r = Int (-9999) ->
  readings rel c (r :: g) = readings rel c g.
Proof. intros Hr. unfold readings. simpl. now rewrite Hr. Qed.

Lemma readings_all_sentinel c g :
  (forall r, In r g -> col_value rel c r = Int (-9999)) ->
  readings rel c g = [].
Proof.
  induction g as [| r g IH]; intros Hall; [reflexivity |].
  rewrite readings_sentinel by (apply Hall; now left).
  apply IH. intros r' Hr'. apply Hall. now right.
Qed.

Lemma readings_kept c r g v :
  col_value rel c r = Int v -> v <> -9999 ->
  readings rel c (r :: g) = v :: readings rel c g.
Proof.
  intros Hr Hv. unfold readings. simpl. rewrite Hr.
  destruct (v =? -9999) eqn:E; [| reflexivity].
  apply Z.eqb_eq in E. contradiction.
Qed.

(** C4.  A value equal to -9999 is left out of the reduction of its own
    field and of no other.  For a row [r] added to a group [g]: if a field
    of [r] holds -9999, the aggregate of that field is that of [g]; if it
    holds another number, that number enters the aggregate of that field,
    whatever the other fields of [r] hold, -9999 included.  The aggregate
    of a field is a function of the column of that field alone.  A group
    whose values for a field are all -9999 yields NULL for that field (not
    zero, not -9999); and a group always yields its row, with the three
    aggregates side by side. *)
Theorem sentinel_excluded_per_field (g : list (list cell)) (r : list cell) :
  (col_value rel "MAX_TEMP_1_10_DEG_C" r = Int (-9999) ->
   avg_max_temp rel (r :: g) = avg_max_temp rel g) /\
  (col_value rel "MIN_TEMP_1_10_DEG_C" r = Int (-9999) ->
   avg_min_temp rel (r :: g) = avg_min_temp rel g) /\
  (col_value rel "PRECIPITATION_1_10_mm" r = Int (-9999) ->
   total_precipitation rel (r :: g) = total_precipitation rel g) /\
  (forall v,
      col_value rel "MAX_TEMP_1_10_DEG_C" r = Int v -> v <> -9999 ->
      avg_max_temp rel (r :: g) =
      Ok (Num (mean (v :: readings rel "MAX_TEMP_1_10_DEG_C" g)
               / inject_Z 10))) /\
  (forall v,
      col_value rel "MIN_TEMP_1_10_DEG_C" r = Int v -> v <> -9999 ->
      avg_min_temp rel (r :: g) =
      Ok (Num (mean (v :: readings rel "MIN_TEMP_1_10_DEG_C" g)
               / inject_Z 10))) /\
  (forall v,
      col_value rel "PRECIPITATION_1_10_mm" r = Int v -> v <> -9999 ->
      total_precipitation rel (r :: g) =
      Ok (Int (Z.quot (total (v :: readings rel "PRECIPITATION_1_10_mm" g))
                      100))) /\
  (forall g',
      map (col_value rel "MAX_TEMP_1_10_DEG_C") g' =
      map (col_value rel "MAX_TEMP_1_10_DEG_C") g ->
      avg_max_temp rel g' = avg_max_temp rel g) /\
  (forall g',
      map (col_value rel "MIN_TEMP_1_10_DEG_C") g' =
      map (col_value rel "MIN_TEMP_1_10_DEG_C") g ->
      avg_min_temp rel g' = avg_min_temp rel g) /\
  (forall g',
      map (col_value rel "PRECIPITATION_1_10_mm") g' =
      map (col_value rel "PRECIPITATION_1_10_mm") g ->
      total_precipitation rel g' = total_precipitation rel g) /\
  ((forall r', In r' g ->
               col_value rel "MAX_TEMP_1_10_DEG_C" r' = Int (-9999)) ->
   avg_max_temp rel g = Ok NULL) /\
  ((forall r', In r' g ->
               col_value rel "MIN_TEMP_1_10_DEG_C" r' = Int (-9999)) ->
   avg_min_temp rel g = Ok NULL) /\
  ((forall r', In r' g ->
               col_value rel "PRECIPITATION_1_10_mm" r' = Int (-9999)) ->
   total_precipitation rel g = Ok NULL) /\
  (exists a b p,
      avg_max_temp rel (r :: g) = Ok a /\
      avg_min_temp rel (r :: g) = Ok b /\
      total_precipitation rel (r :: g) = Ok p /\
      summary_row rel (r :: g) = Ok (group_key rel r ++ [a; b; p])).
Proof.
  repeat match goal with |- _ /\ _ => split end.
  - intros Hr. rewrite !avg_max_temp_eq. now rewrite readings_sentinel.
  - intros Hr. rewrite !avg_min_temp_eq. now rewrite readings_sentinel.
  - intros Hr. rewrite !total_precipitation_eq. now rewrite readings_sentinel.
  - intros v Hr Hv. rewrite avg_max_temp_eq.
    now rewrite (readings_kept _ _ _ _ Hr Hv).
  - intros v Hr Hv. rewrite avg_min_temp_eq.
    now rewrite (readings_kept _ _ _ _ Hr Hv).
  - intros v Hr Hv. rewrite total_precipitation_eq.
    now rewrite (readings_kept _ _ _ _ Hr Hv).
  - intros g' Hg'. unfold avg_max_temp, column. now rewrite Hg'.
  - intros g' Hg'. unfold avg_min_temp, column. now rewrite Hg'.
  - intros g' Hg'. unfold total_precipitation, column. now rewrite Hg'.
  - intros Hall. rewrite avg_max_temp_eq. now rewrite readings_all_sentinel.
  - intros Hall. rewrite avg_min_temp_eq. now rewrite readings_all_sentinel.
  - intros Hall. rewrite total_precipitation_eq.
    now rewrite readings_all_sentinel.
  - unfold summary_row.
    rewrite avg_max_temp_eq, avg_min_temp_eq, total_precipitation_eq.
    cbn [rbind]. do 3 eexists. repeat split; reflexivity.
Qed.

Lemma Qdiv_10_mult (q : Q) : (q / inject_Z 10 * inject_Z 10 == q)%Q.
Proof. field. Qed.

(** C7.  The divisors of the summary: each temperature aggregate is the
    mean of the readings of its field divided by 10, and the
    precipitation aggregate is the sum of the readings divided by 100. *)
Theorem summary_divisors (g : list (list cell)) :
  match readings rel "MAX_TEMP_1_10_DEG_C" g with
  | [] => avg_max_temp rel g = Ok NULL
  | xs => exists q, avg_max_temp rel g = Ok (Num q) /\
                    (q * inject_Z 10 == mean xs)%Q
  end /\
  match readings rel "MIN_TEMP_1_10_DEG_C" g with
  | [] => avg_min_temp rel g = Ok NULL
  | xs => exists q, avg_min_temp rel g = Ok (Num q) /\
                    (q * inject_Z 10 == mean xs)%Q
  end /\
  match readings rel "PRECIPITATION_1_10_mm" g with
  | [] => total_precipitation rel g = Ok NULL
  | xs => total_precipitation rel g = Ok (Int (Z.quot (total xs) 100))
  end.
Proof.
  rewrite avg_max_temp_eq, avg_min_temp_eq, total_precipitation_eq.
  repeat split.
  - destruct (readings rel "MAX_TEMP_1_10_DEG_C" g); [reflexivity |].
    eexists. split; [reflexivity | apply Qdiv_10_mult].
  - destruct (readings rel "MIN_TEMP_1_10_DEG_C" g); [reflexivity |].
    eexists. split; [reflexivity | apply Qdiv_10_mult].
  - now destruct (readings rel "PRECIPITATION_1_10_mm" g).
Qed.

End Aggregates.

(* ----------------------------------------------------------------- *)
(** ** What [generate_avg_table] stores *)

Lemma round_half_away_nearest (q : Q) :
  (Qabs (inject_Z (round_half_away q) - q) <= 1 # 2)%Q.
Proof.
  destruct q as [n d]. apply Qabs_Qle_condition.
  unfold round_half_away. cbn [Qnum Qden].
  assert (Hd : 0 < 2 * Z.pos d) by lia.
  destruct (0 <=? n) eqn:Hn.
  - pose proof (Z.div_mod (2 * n + Z.pos d) (2 * Z.pos d) ltac:(lia)) as Hdm.
    pose proof (Z.mod_pos_bound (2 * n + Z.pos d) (2 * Z.pos d) Hd) as Hb.
    set (z := (2 * n + Z.pos d) / (2 * Z.pos d)) in *.
    unfold Qle, Qminus, Qplus, Qopp, inject_Z. cbn [Qnum Qden].
    split; nia.
  - pose proof (Z.div_mod (2 * - n + Z.pos d) (2 * Z.pos d) ltac:(lia)) as Hdm.
    pose proof (Z.mod_pos_bound (2 * - n + Z.pos d) (2 * Z.pos d) Hd) as Hb.
    set (z := (2 * - n + Z.pos d) / (2 * Z.pos d)) in *.
    unfold Qle, Qminus, Qplus, Qopp, inject_Z. cbn [Qnum Qden].
    split; nia.
Qed.

Lemma quot_100_truncates (t : Z) :
  Z.abs t - 100 < 100 * Z.abs (Z.quot t 100) <= Z.abs t /\
  0 <= Z.quot t 100 * t.
Proof.
  pose proof (Z.quot_rem' t 100) as Hqr.
  pose proof (Z.rem_bound_abs t 100 ltac:(lia)) as Hb.
  destruct (Z_le_gt_dec 0 t) as [Hpos | Hneg].
  - pose proof (Z.rem_nonneg t 100 ltac:(lia) Hpos).
    pose proof (Z.quot_pos t 100 Hpos ltac:(lia)). lia.
  - pose proof (Z.rem_nonpos t 100 ltac:(lia) ltac:(lia)).
    assert (Z.quot t 100 <= 0)
      by (apply Z.quot_le_upper_bound; lia || idtac; lia).
    nia.
Qed.

Lemma Forall2_In_r {A B} (R : A -> B -> Prop) l l' b :
  Forall2 R l l' -> In b l' -> exists a, In a l /\ R a b.
Proof.
  induction 1 as [| a b' l l' Hab _ IH]; simpl; [contradiction |].
  intros [<- | Hin].
  - exists a. split; [now left | assumption].
  - destruct (IH Hin) as [a' [Ha' HR]]. exists a'. split; [now right | assumption].
Qed.

Lemma assign_int4_cases (v c : cell) :
  assign int4 v = Ok c ->
  match v with
  | NULL => c = NULL
  | Int z => c = Int z
  | Num q => c = Int (round_half_away q)
  | _ => False
  end.
Proof.
  destruct v as [| z | q | s | y m d]; simpl; try discriminate.
  - intros H; now inversion H.
  - destruct (in_int4 z); [intros H; now inversion H | discriminate].
  - destruct (in_int4 (round_half_away q));
      [intros H; now inversion H | discriminate].
Qed.

Lemma insert_row_avg (k1 k2 a0 b0 p0 : cell) (row : list cell) :
  insert_row avg_relation AVG_COLS [k1; k2; a0; b0; p0] = Ok row ->
  exists s y a b p,
    row = [s; y; a; b; p] /\
    assign int4 a0 = Ok a /\ assign int4 b0 = Ok b /\ assign int4 p0 = Ok p.
Proof.
  unfold insert_row, avg_relation, AVG_COLS.
  cbn [rel_cols rel_notnull traverse map fold_ident fst snd].
  intros Hrow.
  bind_inv Hrow s Hs. bind_inv Hrow rest Hrest.
  inversion Hrow; subst row; clear Hrow.
  bind_inv Hrest y Hy. bind_inv Hrest rest' Hrest'.
  inversion Hrest; subst rest; clear Hrest.
  bind_inv Hrest' a Ha. bind_inv Hrest' rest Hrest.
  inversion Hrest'; subst rest'; clear Hrest'.
  bind_inv Hrest b Hb. bind_inv Hrest rest' Hrest'.
  inversion Hrest; subst rest; clear Hrest.
  bind_inv Hrest' p Hp.
  inversion Hrest'; subst rest'; clear Hrest'.
  exists s, y, a, b, p. split; [reflexivity |].
  vm_compute index_of in Ha, Hb, Hp.
  bind_inv Ha a' Ha'. bind_inv Hb b' Hb'. bind_inv Hp p' Hp'.
  cbn [nth] in Ha', Hb', Hp'.
  repeat split.
  all: match goal with
       | Hv : assign int4 ?v0 = Ok ?v', Hc : _ = Ok ?c
         |- assign int4 ?v0 = Ok ?c =>
           rewrite Hv; f_equal; revert Hc; clear;
           destruct v'; vm_compute; intros E; now inversion E
       end.
Qed.

Lemma summary_row_shape rel g sel :
  summary_row rel g = Ok sel ->
  exists k1 k2 a b p,
    sel = [k1; k2; a; b; p] /\
    avg_max_temp rel g = Ok a /\ avg_min_temp rel g = Ok b /\
    total_precipitation rel g = Ok p.
Proof.
  unfold summary_row. intros Hsel.
  bind_inv Hsel a Ha. bind_inv Hsel b Hb. bind_inv Hsel p Hp.
  inversion Hsel; subst sel; clear Hsel.
  destruct g as [| r g']; cbn [group_key app];
    do 5 eexists; (split; [reflexivity | now repeat split]).
Qed.

Lemma stored_temperature (xs : list Z) (a : cell) :
  assign int4 match xs with
              | [] => NULL
              | z :: l => Num (mean (z :: l) / inject_Z 10)
              end = Ok a ->
  whole_degrees xs a.
Proof.
  intros Ha. apply assign_int4_cases in Ha. unfold whole_degrees.
  destruct xs as [| x xs']; [assumption |].
  eexists. split; [eassumption | apply round_half_away_nearest].
Qed.

Lemma stored_precipitation (xs : list Z) (p : cell) :
  assign int4 match xs with
              | [] => NULL
              | z :: l => Int (Z.quot (total (z :: l)) 100)
              end = Ok p ->
  whole_hundreds xs p.
Proof.
  intros Hp. apply assign_int4_cases in Hp. unfold whole_hundreds.
  destruct xs as [| x xs']; [assumption |].
  eexists. split; [eassumption | apply quot_100_truncates].
Qed.

Lemma generate_avg_table_eq self db :
  generate_avg_table self db =
  match create_table self AVG_TABLE (avg_table_query self) db with
  | (Ok _, db0) =>
      match find_rel (qualified self AVG_TABLE) db0,
            find_rel (qualified self (table self)) db0 with
      | Some target, Some source =>
          match summary_rows source target with
          | Ok rows =>
              (Ok tt,
               set_rel (qualified self AVG_TABLE) (merged target rows) db0)
          | Err e => (Err e, db0)
          end
      | _, _ => (Err DatabaseError, db0)
      end
  | (Err e, db0) => (Err e, db0)
  end.
Proof. reflexivity. Qed.

(** What a run of [generate_avg_table] that returned has done. *)
Lemma generate_avg_table_Ok self db db1 :
  generate_avg_table self db = (Ok tt, db1) ->
  exists db0 source target rows,
    create_table self AVG_TABLE (avg_table_query self) db = (Ok tt, db0) /\
    find_rel (qualified self AVG_TABLE) db0 = Some target /\
    find_rel (qualified self (table self)) db0 = Some source /\
    summary_rows source target = Ok rows /\
    db1 = set_rel (qualified self AVG_TABLE) (merged target rows) db0.
Proof.
  intros Hrun. rewrite generate_avg_table_eq in Hrun.
  destruct (create_table self AVG_TABLE (avg_table_query self) db)
    as [[[] | e] db0]; [| discriminate].
  destruct (find_rel (qualified self AVG_TABLE) db0) as [target |] eqn:Ht;
    [| discriminate].
  destruct (find_rel (qualified self (table self)) db0) as [source |]
    eqn:Hs; [| discriminate].
  destruct (summary_rows source target) as [rows | e] eqn:Hrows;
    [| discriminate].
  inversion Hrun. exists db0, source, target, rows.
  repeat split; try reflexivity; assumption.
Qed.

(** The summary table, when [create_table] has to make it. *)
Lemma create_avg_table self db db0 :
  find_rel (qualified self AVG_TABLE) db = None ->
  create_table self AVG_TABLE (avg_table_query self) db = (Ok tt, db0) ->
  find_rel (qualified self AVG_TABLE) db0 = Some avg_relation /\
  forall name rel, find_rel name db = Some rel ->
                   find_rel name db0 = Some rel.
Proof.
  intros Hfresh Hcreate.
  destruct (create_table_Ok _ _ _ _ _ Hcreate) as [_ [_ [Hold [_ Hnew]]]].
  split; [exact (Hnew Hfresh) | exact Hold].
Qed.

(** C10.  What the summary table holds after [generate_avg_table] has
    created and filled it: every row is a station, a year and three values
    for one group of the base table, and each value is NULL or a whole
    number.  A temperature is the integer nearest to a tenth of the mean of
    the group's readings (the numeric quotient is rounded when it is stored
    in the int4 column); the precipitation is the sum of the readings over
    100 by integer division, the remainder dropped. *)
Theorem summary_values_are_whole (self : Ingestor) (db db' : database)
        (source : relation)
        (Hfresh : find_rel (qualified self AVG_TABLE) db = None)
        (Hsource : find_rel (qualified self (table self)) db = Some source)
        (Hrun : generate_avg_table self db = (Ok tt, db')) :
  exists target,
    find_rel (qualified self AVG_TABLE) db' = Some target /\
    forall row, In row (rel_rows target) ->
      exists g s y a b p,
        In g (GROUP_BY (group_key source) (rel_rows source)) /\
        row = [s; y; a; b; p] /\
        whole_degrees (readings source "MAX_TEMP_1_10_DEG_C" g) a /\
        whole_degrees (readings source "MIN_TEMP_1_10_DEG_C" g) b /\
        whole_hundreds (readings source "PRECIPITATION_1_10_mm" g) p.
Proof.
  destruct (generate_avg_table_Ok self db db' Hrun)
    as [db0 [src [target [rows [Hcreate [Ht [Hs [Hrows ->]]]]]]]].
  destruct (create_avg_table self db db0 Hfresh Hcreate) as [Htarget Hold].
  rewrite Htarget in Ht. inversion Ht; subst target; clear Ht.
  rewrite (Hold _ _ Hsource) in Hs. inversion Hs; subst src; clear Hs.
  eexists. split; [apply find_rel_set_rel |].
  unfold merged. cbn [with_rows rel_rows avg_relation]. intros row Hrow.
  destruct (on_conflict_do_nothing_appends avg_relation [] rows)
    as [added [Heq Hadded]].
  rewrite Heq in Hrow. cbn [app] in Hrow.
  apply Hadded in Hrow. destruct Hrow as [Hrow _].
  unfold summary_rows in Hrows.
  destruct (known_columns avg_relation AVG_COLS); [| discriminate].
  apply rbind_Ok in Hrows. destruct Hrows as [selected [Hsel Hins]].
  apply traverse_Ok in Hins.
  destruct (Forall2_In_r _ _ _ _ Hins Hrow) as [sel [Hsel_in Hsel_row]].
  unfold select_summary in Hsel.
  destruct (known_columns source _); [| discriminate].
  apply traverse_Ok in Hsel.
  destruct (Forall2_In_r _ _ _ _ Hsel Hsel_in) as [g [Hg Hg_sel]].
  destruct (summary_row_shape _ _ _ Hg_sel)
    as [k1 [k2 [a0 [b0 [p0 [-> [Ha0 [Hb0 Hp0]]]]]]]].
  destruct (insert_row_avg _ _ _ _ _ _ Hsel_row)
    as [s [y [a [b [p [-> [Ha [Hb Hp]]]]]]]].
  rewrite avg_max_temp_eq in Ha0. rewrite avg_min_temp_eq in Hb0.
  rewrite total_precipitation_eq in Hp0.
  injection Ha0 as <-. injection Hb0 as <-. injection Hp0 as <-.
  exists g, s, y, a, b, p. split; [assumption |]. split; [reflexivity |].
  split; [apply stored_temperature; exact Ha |].
  split; [apply stored_temperature; exact Hb |
          apply stored_precipitation; exact Hp].
Qed.

(* ----------------------------------------------------------------- *)
(** ** The read side: strings and the scanner *)

Lemma string_app_assoc (a b c : string) :
  ((a ++ b) ++ c)%string = (a ++ (b ++ c))%string.
Proof. induction a as [| x a IH]; simpl; [reflexivity | now rewrite IH]. Qed.

Lemma string_app_nil_r (a : string) : (a ++ "")%string = a.
Proof. induction a as [| x a IH]; simpl; [reflexivity | now rewrite IH]. Qed.

Lemma lower_ascii_idem c : lower_ascii (lower_ascii c) = lower_ascii c.
Proof. destruct c as [[] [] [] [] [] [] [] []]; reflexivity. Qed.

Lemma fold_ident_idem s : fold_ident (fold_ident s) = fold_ident s.
Proof.
  induction s as [| c s IH]; simpl; [reflexivity |].
  now rewrite lower_ascii_idem, IH.
Qed.

Lemma fold_ident_app a b :
  fold_ident (a ++ b) = (fold_ident a ++ fold_ident b)%string.
Proof. induction a as [| c a IH]; simpl; [reflexivity | now rewrite IH]. Qed.

Lemma col_index_fold rel c : col_index rel (fold_ident c) = col_index rel c.
Proof. unfold col_index. now rewrite fold_ident_idem. Qed.

Lemma col_value_fold rel c r :
  col_value rel (fold_ident c) r = col_value rel c r.
Proof. unfold col_value. now rewrite col_index_fold. Qed.

Lemma col_type_fold rel c : col_type rel (fold_ident c) = col_type rel c.
Proof. unfold col_type. now rewrite col_index_fold. Qed.

Lemma ident_start_cases c :
  ident_start c = true ->
  is_space c = false /\ ident_cont c = true.
Proof.
  destruct c as [[] [] [] [] [] [] [] []]; vm_compute;
    intros E; try discriminate E; split; reflexivity.
Qed.

Lemma lex_run_app st s1 s2 :
  lex_run st (s1 ++ s2) =
  (p <- lex_run st s1 ;;
   q <- lex_run (snd p) s2 ;;
   Ok (fst p ++ fst q, snd q)).
Proof.
  revert st; induction s1 as [| c s1 IH]; intros st; simpl.
  - destruct (lex_run st s2) as [[ts st'] | e]; reflexivity.
  - destruct (scan st c) as [[t st1] | e]; simpl; [| reflexivity].
    rewrite IH.
    destruct (lex_run st1 s1) as [[t1 st2] | e]; simpl; [| reflexivity].
    destruct (lex_run st2 s2) as [[t2 st3] | e]; simpl; [| reflexivity].
    now rewrite app_assoc.
Qed.

Lemma lex_run_word acc s :
  all_chars ident_cont s = true ->
  lex_run (InWord acc) s = Ok ([], InWord (acc ++ s)).
Proof.
  revert acc; induction s as [| c s IH]; intros acc Hs; simpl.
  - now rewrite string_app_nil_r.
  - simpl in Hs. apply andb_prop in Hs. destruct Hs as [Hc Hs].
    rewrite Hc. simpl. rewrite (IH _ Hs). simpl.
    now rewrite string_app_assoc.
Qed.

Lemma is_name_word s :
  is_name s = true ->
  lex_run Between s = Ok ([], InWord s) /\ word s = IDENT (fold_ident s).
Proof.
  destruct s as [| c s]; [discriminate |].
  unfold is_name. intros Hs.
  apply andb_prop in Hs. destruct Hs as [Hs Hres].
  apply andb_prop in Hs. destruct Hs as [Hc Hs].
  split.
  - change (lex_run Between (String c s))
      with (p <- start c ;; q <- lex_run (snd p) s ;;
            Ok (fst p ++ fst q, snd q)).
    unfold start.
    destruct (ident_start_cases c Hc) as [Hsp _]. rewrite Hsp, Hc.
    cbn [rbind fst snd]. rewrite (lex_run_word _ _ Hs). reflexivity.
  - unfold word. apply negb_true_iff in Hres. now rewrite Hres.
Qed.

Lemma lex_run_string acc v :
  quote_free v = true ->
  lex_run (InString acc) v = Ok ([], InString (acc ++ v)).
Proof.
  revert acc; induction v as [| c v IH]; intros acc Hv; simpl.
  - now rewrite string_app_nil_r.
  - unfold quote_free in Hv. simpl in Hv.
    apply andb_prop in Hv. destruct Hv as [Hc Hv].
    apply negb_true_iff in Hc. rewrite Hc. simpl.
    rewrite (IH _ Hv). simpl. now rewrite string_app_assoc.
Qed.

Lemma lex_run_uint acc d :
  lex_run (InNumber acc) (NilEmpty.string_of_uint d) =
  Ok ([], InNumber (acc ++ NilEmpty.string_of_uint d)).
Proof.
  revert acc; induction d; intros acc; simpl;
    try (rewrite IHd; simpl; now rewrite string_app_assoc).
  now rewrite string_app_nil_r.
Qed.

Lemma to_uint_nonnil n : Nat.to_uint n <> Decimal.Nil.
Proof.
  pose proof (Unsigned.to_of (Nat.to_uint n)) as E.
  rewrite Unsigned.of_to in E. rewrite E. unfold Decimal.unorm.
  destruct (Decimal.nzhead (Nat.to_uint n)); discriminate.
Qed.

Lemma lex_run_decimal n :
  lex_run Between (decimal n) = Ok ([], InNumber (decimal n)).
Proof.
  unfold decimal. pose proof (to_uint_nonnil n) as Hn.
  destruct (Nat.to_uint n) as [| d | d | d | d | d | d | d | d | d | d];
    [congruence | ..];
    cbn [NilEmpty.string_of_uint lex_run];
    (match goal with
     | |- context [scan Between ?c] =>
         change (scan Between c) with (Ok (@nil token, InNumber (String c "")))
     end);
    cbn [rbind fst snd]; rewrite lex_run_uint; reflexivity.
Qed.

Lemma number_decimal n : number (decimal n) = ICONST n.
Proof.
  unfold number, decimal. now rewrite NilEmpty.usu, Unsigned.of_to.
Qed.

(** What ends a token ends it whatever the token is. *)
Lemma scan_space st ts :
  flush st = Ok ts -> scan st " " = Ok (ts, Between).
Proof.
  destruct st; simpl; intros E; inversion E; try reflexivity.
Qed.

Lemma scan_dot st ts :
  flush st = Ok ts -> scan st "." = Ok (ts ++ [DOT], Between).
Proof.
  destruct st; simpl; intros E; inversion E; try reflexivity.
Qed.

Lemma scan_semicolon st ts :
  flush st = Ok ts -> scan st ";" = Ok (ts ++ [SEMICOLON], Between).
Proof.
  destruct st; simpl; intros E; inversion E; try reflexivity.
Qed.

Lemma reads_name s : is_name s = true -> reads s [IDENT (fold_ident s)].
Proof.
  intros Hs. destruct (is_name_word s Hs) as [Hlex Hword].
  exists [], (InWord s), [IDENT (fold_ident s)].
  repeat split; [assumption |]. simpl. now rewrite Hword.
Qed.

Lemma reads_string v :
  quote_free v = true -> reads (String "'" (v ++ "'")) [SCONST v].
Proof.
  intros Hv. exists [], (AfterQuote v), [SCONST v]. repeat split.
  cbn [lex_run].
  change (scan Between "'") with (Ok (@nil token, InString "")).
  cbn [rbind fst snd]. rewrite lex_run_app, (lex_run_string _ _ Hv).
  reflexivity.
Qed.

Lemma reads_decimal n : reads (decimal n) [ICONST n].
Proof.
  exists [], (InNumber (decimal n)), [ICONST n]. repeat split.
  - apply lex_run_decimal.
  - simpl. now rewrite number_decimal.
Qed.

Lemma reads_nil : reads "" [].
Proof. now exists [], Between, []. Qed.

Lemma reads_space s1 s2 ts1 ts2 :
  reads s1 ts1 -> reads s2 ts2 ->
  reads (s1 ++ String " " s2) (ts1 ++ ts2).
Proof.
  intros [a1 [st1 [b1 [H1 [F1 ->]]]]] [a2 [st2 [b2 [H2 [F2 ->]]]]].
  exists (a1 ++ b1 ++ a2), st2, b2. repeat split; [| assumption |].
  - rewrite lex_run_app, H1. cbn [rbind fst snd lex_run].
    rewrite (scan_space _ _ F1). cbn [rbind fst snd]. rewrite H2.
    reflexivity.
  - now rewrite <- !app_assoc.
Qed.

Lemma reads_dot s1 s2 ts1 ts2 :
  reads s1 ts1 -> reads s2 ts2 ->
  reads (s1 ++ String "." s2) (ts1 ++ DOT :: ts2).
Proof.
  intros [a1 [st1 [b1 [H1 [F1 ->]]]]] [a2 [st2 [b2 [H2 [F2 ->]]]]].
  exists (a1 ++ (b1 ++ [DOT]) ++ a2), st2, b2.
  repeat split; [| assumption |].
  - rewrite lex_run_app, H1. cbn [rbind fst snd lex_run].
    rewrite (scan_dot _ _ F1). cbn [rbind fst snd]. rewrite H2.
    reflexivity.
  - rewrite <- !app_assoc. reflexivity.
Qed.

Lemma reads_then s1 s2 ts1 ts2 :
  reads s1 ts1 -> reads_after s2 ts2 -> reads (s1 ++ s2) (ts1 ++ ts2).
Proof.
  intros H1 [[-> ->] | [s' [-> H2]]].
  - now rewrite string_app_nil_r, app_nil_r.
  - now apply reads_space.
Qed.

Lemma reads_after_app s1 s2 ts1 ts2 :
  reads_after s1 ts1 -> reads_after s2 ts2 ->
  reads_after (s1 ++ s2) (ts1 ++ ts2).
Proof.
  intros [[-> ->] | [s' [-> H1]]] H2; [exact H2 |].
  right. exists (s' ++ s2)%string. split; [reflexivity |].
  now apply reads_then.
Qed.

Lemma lex_reads s ts :
  reads s ts -> lex (s ++ ";") = Ok (ts ++ [SEMICOLON]).
Proof.
  intros [a [st [b [H1 [F1 ->]]]]]. unfold lex.
  rewrite lex_run_app, H1. cbn [rbind fst snd lex_run].
  rewrite (scan_semicolon _ _ F1). cbn [rbind fst snd flush].
  now rewrite !app_nil_r, app_assoc.
Qed.

(* ----------------------------------------------------------------- *)
(** ** The read side: the text that [get_data] sends *)

Lemma present_filter where_lst :
  map (fun x => (fst x, format (snd x)))
      (filter (fun x : string * option string =>
                 match snd x with
                 | Some _ => true
                 | None => false
                 end) where_lst)
  = present where_lst.
Proof.
  induction where_lst as [| [c [v |]] l IH]; simpl;
    [reflexivity | now rewrite IH | assumption].
Qed.

Lemma generate_where_clause_eq where_lst :
  generate_where_clause where_lst = clause_text (present where_lst).
Proof.
  unfold generate_where_clause. rewrite <- present_filter.
  destruct (filter _ where_lst) as [| x0 [| x1 l]]; reflexivity.
Qed.

Lemma reads_WHERE : reads "WHERE" [KEYWORD "where"].
Proof. now exists [], (InWord "WHERE"), [KEYWORD "where"]. Qed.

Lemma reads_AND : reads "AND" [KEYWORD "and"].
Proof. now exists [], (InWord "AND"), [KEYWORD "and"]. Qed.

Lemma reads_LIMIT : reads "LIMIT" [KEYWORD "limit"].
Proof. now exists [], (InWord "LIMIT"), [KEYWORD "limit"]. Qed.

Lemma reads_OFFSET : reads "OFFSET" [KEYWORD "offset"].
Proof. now exists [], (InWord "OFFSET"), [KEYWORD "offset"]. Qed.

Lemma reads_SELECT : reads "SELECT" [KEYWORD "select"].
Proof. now exists [], (InWord "SELECT"), [KEYWORD "select"]. Qed.

Lemma reads_FROM : reads "FROM" [KEYWORD "from"].
Proof. now exists [], (InWord "FROM"), [KEYWORD "from"]. Qed.

Lemma reads_EQUALS : reads "=" [EQUALS].
Proof. now exists [EQUALS], Between, []. Qed.

Lemma reads_selection (count : bool) :
  reads (if count then "COUNT(*)" else "*") (selection_tokens count).
Proof.
  destruct count.
  - now exists [IDENT "count"; LPAREN; STAR; RPAREN], Between, [].
  - now exists [STAR], Between, [].
Qed.

Lemma reads_filter (k : string) (kw : list token) (f : string * string) :
  reads k kw -> plain f ->
  reads (k ++ String " " (fst f ++ String " " ("=" ++ String " "
           (String "'" (snd f ++ "'")))))
        (kw ++ [IDENT (fold_ident (fst f)); EQUALS; SCONST (snd f)]).
Proof.
  intros Hk [Hname Hquote].
  apply reads_space; [exact Hk |].
  apply (reads_space (fst f) _ [IDENT (fold_ident (fst f))]);
    [now apply reads_name |].
  apply (reads_space "=" _ [EQUALS]); [exact reads_EQUALS |].
  now apply reads_string.
Qed.

Lemma reads_clause fs :
  (forall f, In f (firstn 2 fs) -> plain f) ->
  reads_after (clause_text fs) (where_tokens fs).
Proof.
  intros Hfs. destruct fs as [| f0 rest]; [now left |].
  assert (H0 : reads_after (" WHERE " ++ fst f0 ++ " = '" ++ snd f0 ++ "'")
                           [KEYWORD "where"; IDENT (fold_ident (fst f0));
                            EQUALS; SCONST (snd f0)]).
  { right. eexists. split; [reflexivity |].
    apply (reads_filter "WHERE" [KEYWORD "where"] f0 reads_WHERE).
    apply Hfs. now left. }
  destruct rest as [| f1 rest]; [exact H0 |].
  cbn [clause_text where_tokens].
  apply reads_after_app; [exact H0 |].
  right. eexists. split; [reflexivity |].
  apply (reads_filter "AND" [KEYWORD "and"] f1 reads_AND).
  apply Hfs. right. now left.
Qed.

Lemma reads_pagination page :
  reads_after (pagination page) (page_tokens page).
Proof.
  destruct page as [[limit start] |]; [| now left].
  right. eexists. split; [reflexivity |].
  apply (reads_space "LIMIT" _ [KEYWORD "limit"] [ICONST limit; _; _]);
    [exact reads_LIMIT |].
  apply (reads_space (decimal limit) _ [ICONST limit]
                     [KEYWORD "offset"; ICONST start]);
    [apply reads_decimal |].
  apply (reads_space "OFFSET" _ [KEYWORD "offset"] [ICONST start]);
    [exact reads_OFFSET | apply reads_decimal].
Qed.

(** The tokens of the statement that [get_data] builds. *)
Lemma lex_query (count : bool) (schema table W P : string) tW tP :
  is_name schema = true -> is_name table = true ->
  reads_after W tW -> reads_after P tP ->
  lex ("SELECT " ++ (if count then "COUNT(*)" else "*") ++ " FROM "
       ++ schema ++ "." ++ table ++ W ++ P ++ ";") =
  Ok (KEYWORD "select"
      :: selection_tokens count
      ++ [KEYWORD "from"; IDENT (fold_ident schema); DOT;
          IDENT (fold_ident table)]
      ++ tW ++ tP ++ [SEMICOLON]).
Proof.
  intros Hschema Htable HW HP.
  assert (Hbody :
    reads ("SELECT" ++ String " " ((if count then "COUNT(*)" else "*")
             ++ String " " ("FROM" ++ String " "
                  (schema ++ String "." (table ++ (W ++ P))))))
          ([KEYWORD "select"]
           ++ selection_tokens count
           ++ [KEYWORD "from"]
           ++ [IDENT (fold_ident schema)]
           ++ DOT :: [IDENT (fold_ident table)] ++ tW ++ tP)).
  { apply reads_space; [exact reads_SELECT |].
    apply reads_space; [apply reads_selection |].
    apply reads_space; [exact reads_FROM |].
    apply reads_dot; [now apply reads_name |].
    apply reads_then; [now apply reads_name |].
    now apply reads_after_app. }
  apply lex_reads in Hbody.
  match type of Hbody with
  | lex ?body = _ =>
      replace (lex ("SELECT " ++ (if count then "COUNT(*)" else "*")
                    ++ " FROM " ++ schema ++ "." ++ table ++ W ++ P ++ ";"))
        with (lex body)
  end.
  - rewrite Hbody. f_equal.
    repeat (rewrite <- app_assoc || rewrite <- app_comm_cons). reflexivity.
  - f_equal. destruct count; cbn [append];
      repeat (rewrite ?string_app_assoc; cbn [append]); reflexivity.
Qed.


(** The statement that the server reads in these tokens. *)
Lemma parse_generated (count : bool) (schema table : string)
      (fs : list (string * string)) (page : option (nat * nat)) :
  parse_select (KEYWORD "select"
                :: selection_tokens count
                ++ [KEYWORD "from"; IDENT schema; DOT; IDENT table]
                ++ where_tokens fs ++ page_tokens page ++ [SEMICOLON]) =
  Ok (mkSelect count (schema ++ "." ++ table) (where_condition fs)
               (option_map fst page) (option_map snd page)).
Proof.
  destruct count; destruct fs as [| [c0 v0] [| [c1 v1] rest]];
    destruct page as [[limit start] |]; reflexivity.
Qed.

Lemma selects_sql_eq (a v : cell) :
  match sql_eq a v with
  | Some true => true
  | _ => false
  end =
  match v with
  | NULL => false
  | _ => if cell_eq_dec a v then true else false
  end.
Proof.
  destruct a, v; cbn [sql_eq]; try reflexivity;
    match goal with
    | |- context [cell_eq_dec ?x ?y] =>
        destruct (cell_eq_dec x y) as [E | E];
        try reflexivity; discriminate E
    end.
Qed.

Lemma selects_sql_and (p q : option bool) :
  match sql_and p q with
  | Some true => true
  | _ => false
  end =
  match p with Some true => true | _ => false end
  && match q with Some true => true | _ => false end.
Proof. destruct p as [[] |], q as [[] |]; reflexivity. Qed.


Section ReadSide.

Context `{Platform}.

(** The statement that [get_data] sends for a list of plain filters and a
    pagination clause, as the server reads it. *)
Lemma get_data_sent (db : database) (schema table : string)
      (where_lst : list (string * option string))
      (page : option (nat * nat)) (count : bool) :
  is_name schema = true -> is_name table = true ->
  (forall f, In f (firstn 2 (present where_lst)) -> plain f) ->
  get_data db schema table (generate_where_clause where_lst)
           (pagination page) count =
  run_select db (mkSelect count (fold_ident (schema ++ "." ++ table))
                          (where_condition (present where_lst))
                          (option_map fst page) (option_map snd page)).
Proof.
  intros Hschema Htable Hfs. unfold get_data, execute.
  rewrite generate_where_clause_eq.
  rewrite (lex_query count schema table _ _ _ _ Hschema Htable
                     (reads_clause _ Hfs) (reads_pagination page)).
  cbn [rbind]. rewrite parse_generated. cbn [rbind].
  rewrite !fold_ident_app. reflexivity.
Qed.

Variable rel : relation.

(** The comparison that the server makes of a filter. *)
Lemma plan_filter (f : string * string) :
  match wanted rel f with
  | Ok v =>
      exists keep,
        plan rel (Equal (Column (fold_ident (fst f))) (Literal (snd f)))
        = Ok keep /\
        forall r, selects keep r = meets rel f r
  | Err e =>
      plan rel (Equal (Column (fold_ident (fst f))) (Literal (snd f)))
      = Err e
  end.
Proof.
  cbn [plan comparison]. unfold meets, wanted. rewrite col_type_fold.
  destruct (col_type rel (fst f)) as [ty |]; [| reflexivity].
  destruct (literal ty (snd f)) as [v | e]; [| reflexivity].
  cbn [rbind fst snd]. eexists. split; [reflexivity |].
  intros r. unfold selects. rewrite col_value_fold. apply selects_sql_eq.
Qed.

Lemma plan_generated_Ok (fs : list (string * string)) :
  (forall f, In f (firstn 2 fs) -> exists x, wanted rel f = Ok x) ->
  exists keep,
    match where_condition fs with
    | Some c => plan rel c
    | None => Ok (fun _ => Some true)
    end = Ok keep /\
    forall r, selects keep r = forallb (fun f => meets rel f r) (firstn 2 fs).
Proof.
  intros Hfs. destruct fs as [| f0 [| f1 rest]].
  - eexists. split; reflexivity.
  - pose proof (plan_filter f0) as P0.
    destruct (Hfs f0 (or_introl eq_refl)) as [x0 Hx0]. rewrite Hx0 in P0.
    destruct P0 as [k0 [Hk0 Hs0]].
    exists k0. split; [exact Hk0 |].
    intros r. cbn [firstn forallb]. now rewrite Hs0, andb_true_r.
  - pose proof (plan_filter f0) as P0. pose proof (plan_filter f1) as P1.
    destruct (Hfs f0 (or_introl eq_refl)) as [x0 Hx0]. rewrite Hx0 in P0.
    destruct (Hfs f1 (or_intror (or_introl eq_refl))) as [x1 Hx1].
    rewrite Hx1 in P1.
    destruct P0 as [k0 [Hk0 Hs0]]. destruct P1 as [k1 [Hk1 Hs1]].
    cbn [where_condition]. 
    change (plan rel (And ?p ?q))
      with (f <- plan rel p ;; g <- plan rel q ;;
            Ok (fun r => sql_and (f r) (g r))).
    rewrite Hk0, Hk1. cbn [rbind].
    eexists. split; [reflexivity |].
    intros r. cbn [firstn forallb]. rewrite <- Hs0, <- Hs1, andb_true_r.
    unfold selects. apply selects_sql_and.
Qed.


(** What [get_data] returns for the clause made of a list of filters and
    a pagination clause: the page of the rows that hold the values asked
    for, or of the single row with their number. *)
Lemma get_data_generated (db : database) (schema table : string)
      (where_lst : list (string * option string))
      (page : option (nat * nat)) (count : bool) :
  is_name schema = true -> is_name table = true ->
  find_rel (fold_ident (schema ++ "." ++ table)%string) db = Some rel ->
  (forall f, In f (firstn 2 (present where_lst)) -> well_formed rel f) ->
  get_data db schema table (generate_where_clause where_lst)
           (pagination page) count =
  Ok (paginate page
        (if count
         then [[Int (Z.of_nat (List.length (matching_rows rel where_lst)))]]
         else matching_rows rel where_lst)).
Proof.
  intros Hschema Htable Hrel Hfs.
  rewrite get_data_sent; try assumption;
    [| intros f Hf; now apply (Hfs f Hf)].
  unfold run_select. cbn [sel_from sel_where sel_count sel_limit sel_offset].
  rewrite Hrel.
  destruct (plan_generated_Ok (present where_lst)) as [keep [Hkeep Hsel]];
    [intros f Hf; now apply (Hfs f Hf) |].
  rewrite Hkeep. cbn [rbind]. f_equal.
  assert (Hrows : filter (selects keep) (rel_rows rel)
                  = matching_rows rel where_lst).
  { unfold matching_rows. apply filter_ext. exact Hsel. }
  rewrite Hrows.
  destruct page as [[limit start] |]; reflexivity.
Qed.

End ReadSide.

Section QueryService.

Context `{Platform}.


End QueryService.

(* ----------------------------------------------------------------- *)
(** ** The order of the directory listing *)

Lemma traverse_Permutation {A B} (f : A -> result B) l l' bs :
  Permutation l l' -> traverse f l = Ok bs ->
  exists bs', traverse f l' = Ok bs' /\ Permutation bs bs'.
Proof.
  intros Hperm. revert bs.
  induction Hperm as [| x l l' _ IH | x y l | l l' l'' _ IH1 _ IH2];
    intros bs Hbs.
  - exists bs. split; [assumption | apply Permutation_refl].
  - simpl in Hbs. apply rbind_Ok in Hbs. destruct Hbs as [b [Hb Hbs]].
    apply rbind_Ok in Hbs. destruct Hbs as [bs0 [Hbs0 Hbs]].
    inversion Hbs; subst bs; clear Hbs.
    destruct (IH bs0 Hbs0) as [bs' [Hbs' Hp]].
    exists (b :: bs'). simpl. rewrite Hb, Hbs'. simpl.
    split; [reflexivity | now apply perm_skip].
  - simpl in Hbs. apply rbind_Ok in Hbs. destruct Hbs as [b [Hb Hbs]].
    apply rbind_Ok in Hbs. destruct Hbs as [bs0 [Hbs0 Hbs]].
    inversion Hbs; subst bs; clear Hbs.
    apply rbind_Ok in Hbs0. destruct Hbs0 as [c [Hc Hbs0]].
    apply rbind_Ok in Hbs0. destruct Hbs0 as [bs1 [Hbs1 Hbs0]].
    inversion Hbs0; subst bs0; clear Hbs0.
    exists (c :: b :: bs1). simpl. rewrite Hb, Hc, Hbs1. simpl.
    split; [reflexivity | apply perm_swap].
  - destruct (IH1 bs Hbs) as [bs' [Hbs' Hp]].
    destruct (IH2 bs' Hbs') as [bs'' [Hbs'' Hp']].
    exists bs''. split; [assumption | now apply Permutation_trans with bs'].
Qed.

Lemma find_app_eq {A} (p : A -> bool) l l' :
  find p (l ++ l') = match find p l with
                     | Some a => Some a
                     | None => find p l'
                     end.
Proof.
  induction l as [| x l IH]; simpl; [reflexivity |].
  now destruct (p x).
Qed.

Lemma find_concat_Some {A} (p : A -> bool) blocks a :
  find p (List.concat blocks) = Some a ->
  exists b, In b blocks /\ find p b = Some a.
Proof.
  induction blocks as [| b0 blocks IH]; simpl; [discriminate |].
  rewrite find_app_eq. destruct (find p b0) as [a0 |] eqn:H0.
  - intros E; inversion E; subst. exists b0. split; [now left | assumption].
  - intros E. destruct (IH E) as [b [Hb Hf]].
    exists b. split; [now right | assumption].
Qed.

Lemma find_concat_unique {A} (p : A -> bool) blocks b a :
  In b blocks -> find p b = Some a ->
  (forall b' x, In b' blocks -> In x b' -> p x = true -> b' = b) ->
  find p (List.concat blocks) = Some a.
Proof.
  induction blocks as [| b0 blocks IH]; intros Hin Hf Huniq;
    [contradiction |].
  simpl. rewrite find_app_eq. destruct (find p b0) as [a0 |] eqn:H0.
  - pose proof (find_some _ _ H0) as [Hin0 Hp0].
    rewrite (Huniq b0 a0 (or_introl eq_refl) Hin0 Hp0) in H0.
    congruence.
  - destruct Hin as [-> | Hin]; [congruence |].
    apply IH; [assumption | assumption |].
    intros b' x Hb'. apply Huniq. now right.
Qed.

Section DedupOrder.

Variable key : list cell -> list cell.

(** A row survives exactly when it is the first row with its key. *)
Lemma drop_seen_iff rows r :
  In r (drop_seen key [] rows) <->
  find (fun r' => key_eqb (key r') (key r)) rows = Some r.
Proof.
  split; [apply drop_seen_first |].
  intros Hf. pose proof (find_some _ _ Hf) as [Hin _].
  destruct (drop_seen_complete key [] rows r Hin (fun F => F))
    as [r' [Hr' Hk]].
  pose proof (drop_seen_first key [] rows r' Hr') as Hf'.
  rewrite Hk in Hf'. congruence.
Qed.

Lemma drop_seen_blocks blocks r :
  keys_within_blocks key blocks ->
  (In r (drop_seen key [] (List.concat blocks)) <->
   exists b, In b blocks /\
             find (fun r' => key_eqb (key r') (key r)) b = Some r).
Proof.
  intros Hwithin. rewrite drop_seen_iff. split.
  - apply find_concat_Some.
  - intros [b [Hb Hf]]. apply (find_concat_unique _ _ b); try assumption.
    intros b' x Hb' Hx Hk. apply key_eqb_eq in Hk.
    apply find_some in Hf. destruct Hf as [Hr _].
    apply (Hwithin b' b x r); assumption.
Qed.

Lemma drop_seen_Permutation blocks blocks' :
  keys_within_blocks key blocks -> Permutation blocks blocks' ->
  Permutation (drop_seen key [] (List.concat blocks))
              (drop_seen key [] (List.concat blocks')).
Proof.
  intros Hwithin Hperm.
  assert (Hwithin' : keys_within_blocks key blocks').
  { intros b1 b2 r1 r2 H1 H2. apply Hwithin;
      eapply Permutation_in; try eassumption; now apply Permutation_sym. }
  apply NoDup_Permutation.
  - apply (NoDup_map_inv key), drop_seen_NoDup.
  - apply (NoDup_map_inv key), drop_seen_NoDup.
  - intros r. rewrite !drop_seen_blocks by assumption.
    split; intros [b [Hb Hf]]; exists b; (split; [| assumption]).
    + now apply (Permutation_in _ Hperm).
    + now apply (Permutation_in _ (Permutation_sym Hperm)).
Qed.

End DedupOrder.

Lemma Permutation_filter_same {A} (f : A -> bool) l l' :
  Permutation l l' -> Permutation (filter f l) (filter f l').
Proof.
  induction 1 as [| x l l' _ IH | x y l | l l' l'' _ IH1 _ IH2]; simpl.
  - constructor.
  - destruct (f x); [now apply perm_skip | assumption].
  - destruct (f x), (f y); try apply Permutation_refl. apply perm_swap.
  - now apply Permutation_trans with (filter f l').
Qed.

Lemma NoDup_map_injective {A B} (f : A -> B) l a b :
  NoDup (map f l) -> In a l -> In b l -> f a = f b -> a = b.
Proof.
  induction l as [| x l IH]; simpl; [contradiction |].
  intros Hnd. inversion Hnd as [| ? ? Hx Hnd']; subst.
  intros [-> | Ha] [-> | Hb] Heq; try reflexivity.
  - exfalso. apply Hx. rewrite Heq. now apply in_map.
  - exfalso. apply Hx. rewrite <- Heq. now apply in_map.
  - now apply IH.
Qed.

Lemma traverse_ext {A B} (f g : A -> result B) l :
  (forall a, f a = g a) -> traverse f l = traverse g l.
Proof.
  intros Hfg. induction l as [| a l IH]; simpl; [reflexivity |].
  now rewrite Hfg, IH.
Qed.

Section ListingOrder.

Context `{Platform}.

Lemma read_file_Permutation fs fs' dir file :
  NoDup (listdir fs dir) -> Permutation (fs dir) (fs' dir) ->
  read_file fs dir file = read_file fs' dir file.
Proof.
  unfold listdir, read_file. intros Hnd Hperm.
  set (p := fun e : string * list (list cell) => String.eqb (fst e) file).
  destruct (find p (fs dir)) as [e |] eqn:Hf;
    destruct (find p (fs' dir)) as [e' |] eqn:Hf'; try reflexivity.
  - apply find_some in Hf, Hf'. destruct Hf as [Hin Hp], Hf' as [Hin' Hp'].
    apply (Permutation_in _ (Permutation_sym Hperm)) in Hin'.
    unfold p in Hp, Hp'. apply String.eqb_eq in Hp, Hp'.
    f_equal. f_equal.
    apply (NoDup_map_injective fst (fs dir)); congruence.
  - apply find_some in Hf. destruct Hf as [Hin Hp].
    apply (Permutation_in _ Hperm) in Hin.
    apply (find_none _ _ Hf') in Hin. congruence.
  - apply find_some in Hf'. destruct Hf' as [Hin Hp].
    apply (Permutation_in _ (Permutation_sym Hperm)) in Hin.
    apply (find_none _ _ Hf) in Hin. congruence.
Qed.

Lemma helper_columns fs file dir cols d :
  ingest_data_helper fs file dir cols = Ok d ->
  columns d = columns (set_column "FILE" NULL (mkFrame cols [])).
Proof.
  unfold ingest_data_helper. intros Hd.
  apply rbind_Ok in Hd. destruct Hd as [content [_ Hd]].
  apply rbind_Ok in Hd. destruct Hd as [df [Hdf Hd]].
  destruct (read_csv_Ok _ _ _ Hdf) as [Hcols _].
  inversion Hd; subst d.
  unfold set_column. rewrite Hcols. cbn [columns].
  now destruct (loc "FILE" cols).
Qed.

(** C6, as the code has it.  [ingest_data] does not sort: it takes the
    files in the order of the directory listing.  What does not depend on
    that order is the SET of records: when no natural key occurs in two
    different files, two listings of the same files yield frames with the
    same columns and the same records, up to their order. *)
Theorem listing_order_permutes_records (fs fs' : filesystem)
        (self : Ingestor) (df : DataFrame)
        (Hnames : NoDup (listdir fs (data_dir_of self)))
        (Hperm : Permutation (fs (data_dir_of self)) (fs' (data_dir_of self)))
        (Hkeys : keys_within_files fs self)
        (Hdf : ingest_frame fs self = Ok df) :
  exists df',
    ingest_frame fs' self = Ok df' /\
    columns df' = columns df /\
    Permutation (values df) (values df').
Proof.
  unfold ingest_frame in *.
  unfold keys_within_files, data_dir_of, data_cols_of, keys_of in *.
  destruct (data_layout self) as [[keys dir] cols]. cbn [fst snd] in *.
  set (helper := fun file => ingest_data_helper fs file dir cols) in *.
  rewrite (traverse_ext
             (fun file => ingest_data_helper fs' file dir cols) helper).
  2:{ intros file. unfold helper, ingest_data_helper.
      now rewrite (read_file_Permutation fs fs' dir file Hnames Hperm). }
  assert (Hlist : Permutation
                    (filter (fun file => endswith file ".txt")
                            (listdir fs dir))
                    (filter (fun file => endswith file ".txt")
                            (listdir fs' dir))).
  { apply Permutation_filter_same. unfold listdir.
    now apply Permutation_map. }
  apply rbind_Ok in Hdf. destruct Hdf as [frames [Hframes Hdf]].
  destruct (traverse_Permutation _ _ _ _ Hlist Hframes)
    as [frames' [Hframes' Hfperm]].
  rewrite Hframes'. cbn [rbind].
  apply traverse_Ok in Hframes. apply traverse_Ok in Hframes'.
  set (C := columns (set_column "FILE" NULL (mkFrame cols []))).
  assert (Hcols : forall d, In d frames -> columns d = C).
  { intros d Hd. destruct (Forall2_In_r _ _ _ _ Hframes Hd) as [f [_ Hf]].
    exact (helper_columns _ _ _ _ _ Hf). }
  assert (Hcols' : forall d, In d frames' -> columns d = C).
  { intros d Hd. apply Hcols.
    now apply (Permutation_in _ (Permutation_sym Hfperm)). }
  apply rbind_Ok in Hdf. destruct Hdf as [df1 [Hdf1 Hdf]].
  destruct frames as [| f0 frames0]; [discriminate |].
  destruct frames' as [| f0' frames0'];
    [apply Permutation_sym, Permutation_nil in Hfperm; discriminate |].
  cbn [concat_frames] in Hdf1 |- *. inversion Hdf1; subst df1; clear Hdf1.
  rewrite (Hcols f0 (or_introl eq_refl)) in Hdf.
  rewrite (Hcols' f0' (or_introl eq_refl)). cbn [rbind].
  apply rbind_Ok in Hdf. destruct Hdf as [df2 [Hdf2 Hdf]].
  unfold drop_duplicates in Hdf2 |- *. cbn [columns values] in Hdf2 |- *.
  destruct (forallb _ keys); [| discriminate].
  inversion Hdf2; subst df2; clear Hdf2. cbn [rbind].
  assert (Hrows : Permutation
                    (drop_seen (subset_key C keys) []
                               (List.concat (map values (f0 :: frames0))))
                    (drop_seen (subset_key C keys) []
                               (List.concat (map values (f0' :: frames0'))))).
  { apply drop_seen_Permutation; [| now apply Permutation_map].
    intros b1 b2 r1 r2 Hb1 Hb2 Hr1 Hr2 Hk.
    apply in_map_iff in Hb1, Hb2.
    destruct Hb1 as [d1 [<- Hd1]], Hb2 as [d2 [<- Hd2]].
    destruct (Forall2_In_r _ _ _ _ Hframes Hd1) as [f1 [_ Hf1]].
    destruct (Forall2_In_r _ _ _ _ Hframes Hd2) as [f2 [_ Hf2]].
    assert (f1 = f2) as ->.
    { apply (Hkeys f1 f2 d1 d2 r1 r2); try assumption.
      now rewrite (Hcols d1 Hd1), (Hcols d2 Hd2). }
    unfold helper in Hf1, Hf2. congruence. }
  set (rows := drop_seen _ _ _) in *.
  set (rows' := drop_seen _ _ _) in *.
  destruct (String.eqb (table self) "wx_data").
  - unfold map_column, rename in Hdf |- *. cbn [columns values] in Hdf |- *.
    destruct (loc "DATE" _) as [i |]; [| discriminate].
    apply rbind_Ok in Hdf. destruct Hdf as [out [Hout Hdf]].
    inversion Hdf; subst df; clear Hdf.
    destruct (traverse_Permutation _ _ _ _ Hrows Hout)
      as [out' [Hout' Hp]].
    rewrite Hout'. cbn [rbind]. eexists. split; [reflexivity |].
    split; [reflexivity | exact Hp].
  - unfold drop_column in Hdf |- *. cbn [columns values] in Hdf |- *.
    destruct (loc "FILE" C) as [i |]; [| discriminate].
    inversion Hdf; subst df; clear Hdf.
    eexists. split; [reflexivity |]. split; [reflexivity |].
    now apply Permutation_map.
Qed.

End ListingOrder.

(* ================================================================= *)
(** * The properties on sample data *)

Lemma ingest_data_twice_witness :
  let db1 := snd (@ingest_data reference sample_fs no_fault
                               Ingestion_Obj_YLD query_yld []) in
  @ingest_data reference sample_fs no_fault Ingestion_Obj_YLD query_yld db1
  = (Ok 0, db1) /\
  count_rows Ingestion_Obj_YLD db1 = count_rows Ingestion_Obj_YLD [] + 2.
Proof.
  apply (@ingest_data_twice reference sample_fs no_fault Ingestion_Obj_YLD
                            query_yld []).
  - vm_compute. reflexivity.
  - eexists. split; [vm_compute; reflexivity | cbn; discriminate].
Defined.

Lemma upload_to_db_skips_conflicts_witness :
  exists added,
    @upload_to_db reference no_fault Ingestion_Obj_YLD revised_yields
                  sample_yld_db =
    (Ok (Z.of_nat (List.length added)),
     set_rel (qualified Ingestion_Obj_YLD (table Ingestion_Obj_YLD))
             (with_rows sample_yld_rel (rel_rows sample_yld_rel ++ added))
             sample_yld_db) /\
    (forall k r,
        stored sample_yld_rel k = Some r ->
        stored (with_rows sample_yld_rel (rel_rows sample_yld_rel ++ added)) k
        = Some r) /\
    (forall r, In r added ->
               In r [[Int 2000; Int 99]; [Int 2001; Int 11]] /\
               stored sample_yld_rel (pk_key sample_yld_rel r) = None).
Proof.
  apply (@upload_to_db_skips_conflicts reference Ingestion_Obj_YLD
           revised_yields sample_yld_db sample_yld_rel
           [[Int 2000; Int 99]; [Int 2001; Int 11]]).
  - vm_compute. reflexivity.
  - cbn. discriminate.
  - vm_compute. reflexivity.
Defined.

Lemma sentinel_excluded_per_field_witness :
  let g := [[Str "USC1"; Day 1985 1 1; Int (-128); Int (-22); Int 94]] in
  let r := [Str "USC1"; Day 1985 1 2; Int (-144); Int (-9999); Int 0] in
  avg_max_temp sample_wx_rel (r :: g) = avg_max_temp sample_wx_rel g /\
  avg_min_temp sample_wx_rel (r :: g) =
  Ok (Num (mean (-144 :: readings sample_wx_rel "MIN_TEMP_1_10_DEG_C" g)
           / inject_Z 10)).
Proof.
  intros g r.
  pose proof (sentinel_excluded_per_field sample_wx_rel g r)
    as [Hmax [_ [_ [_ [Hmin _]]]]].
  split.
  - apply Hmax. vm_compute. reflexivity.
  - apply (Hmin (-144)); [vm_compute; reflexivity | discriminate].
Defined.


(** C8, as the claim states it, fails: a line that does not have the
    declared number of columns need not stop anything.  Every line of the
    yield file below has three fields instead of two; the first field of
    each line becomes the index of the frame, and both records are
    stored.  A file whose only line has one field is read as well, the yield
    missing. *)
Lemma misaligned_lines_are_ingested :
  (exists line,
      In line [[Int 1; Int 2000; Int 10]; [Int 2; Int 2001; Int 11]] /\
      List.length line <> List.length YLD_COLS) /\
  (exists db',
      @ingest_data reference indexed_fs no_fault Ingestion_Obj_YLD query_yld []
      = (Ok 2, db') /\
      option_map rel_rows (find_rel "yld_schema.yld_data" db') =
      Some [[Int 2000; Int 10]; [Int 2001; Int 11]]) /\
  @ingest_frame reference short_fs Ingestion_Obj_YLD
  = Ok (mkFrame YLD_COLS [[Int 2002; NULL]]) /\
  ~ (forall (fs : filesystem) (file : string) (content : list (list cell))
            (line : list cell),
        In file (listdir fs (@data_dir_of reference Ingestion_Obj_YLD)) ->
        endswith file ".txt" = true ->
        read_file fs (@data_dir_of reference Ingestion_Obj_YLD) file
        = Ok content ->
        In line content ->
        List.length line
        <> List.length (@data_cols_of reference Ingestion_Obj_YLD) ->
        @ingest_data reference fs no_fault Ingestion_Obj_YLD query_yld []
        = (Err ParserError, [])).
Proof.
  split; [| split; [| split]].
  - exists [Int 1; Int 2000; Int 10]. split; [now left | discriminate].
  - eexists. split; vm_compute; reflexivity.
  - vm_compute. reflexivity.
  - intros Hclaim.
    specialize (Hclaim indexed_fs "a.txt"
                       [[Int 1; Int 2000; Int 10]; [Int 2; Int 2001; Int 11]]
                       [Int 1; Int 2000; Int 10]).
    vm_compute in Hclaim.
    specialize (Hclaim (or_introl eq_refl) eq_refl eq_refl
                       (or_introl eq_refl)).
    assert (Hlen : 3%nat = 2%nat -> False) by discriminate.
    specialize (Hclaim Hlen). discriminate Hclaim.
Qed.


(** C9, as the claim states it, fails.  A value is not compared with the
    column, it is read as SQL: with the quote of [x' OR '1'='1] the
    constant ends and the condition goes on, so that every row of the table
    is counted and returned, none of which has that station; and a value
    that is not a date makes the query on a date raise. *)
Lemma quoted_value_matches_every_row :
  (exists p,
      @query_service reference sample_wx_db "wx_schema" "wx_data"
                     [("station_id", Some "x' OR '1'='1")] 0 10 = Ok p /\
      p.(count) = 4 /\ p.(results) = rel_rows sample_wx_rel) /\
  @query_service reference sample_wx_db "wx_schema" "wx_data"
                 [("date", Some "abc")] 0 10 = Err DatabaseError /\
  ~ (forall (where_lst : list (string * option string)) (start limit : nat),
        exists p,
          @query_service reference sample_wx_db "wx_schema" "wx_data"
                         where_lst start limit = Ok p /\
          p.(count) =
          Z.of_nat (List.length
                      (filter (fun r =>
                                 forallb (fun f =>
                                            @meets reference sample_wx_rel f r)
                                         (present where_lst))
                              (rel_rows sample_wx_rel)))).
Proof.
  split; [| split].
  - eexists. split; [vm_compute; reflexivity |].
    split; vm_compute; reflexivity.
  - vm_compute. reflexivity.
  - intros Hclaim.
    destruct (Hclaim [("station_id", Some "x' OR '1'='1")] 0%nat 10%nat)
      as [p [Hp Hcount]].
    vm_compute in Hp. inversion Hp; subst p; clear Hp.
    vm_compute in Hcount. discriminate Hcount.
Qed.

Lemma summary_values_are_whole_witness :
  exists target,
    find_rel (qualified Ingestion_Obj_WX AVG_TABLE)
             (snd (generate_avg_table Ingestion_Obj_WX sample_wx_db))
    = Some target /\
    forall row, In row (rel_rows target) ->
      exists g s y a b p,
        In g (GROUP_BY (group_key sample_wx_rel) (rel_rows sample_wx_rel)) /\
        row = [s; y; a; b; p] /\
        whole_degrees (readings sample_wx_rel "MAX_TEMP_1_10_DEG_C" g) a /\
        whole_degrees (readings sample_wx_rel "MIN_TEMP_1_10_DEG_C" g) b /\
        whole_hundreds (readings sample_wx_rel "PRECIPITATION_1_10_mm" g) p.
Proof.
  apply (summary_values_are_whole Ingestion_Obj_WX sample_wx_db).
  - vm_compute. reflexivity.
  - vm_compute. reflexivity.
  - vm_compute. reflexivity.
Defined.

(** C6, as the claim states it, fails: the two yield files below hold the
    same year; listed as a, b the record of a.txt survives, listed as b, a
    the record of b.txt does. *)
Lemma listing_order_changes_winners :
  ~ (forall (fs fs' : filesystem) (self : Ingestor),
        (forall dir, Permutation (fs dir) (fs' dir)) ->
        @ingest_frame reference fs self = @ingest_frame reference fs' self).
Proof.
  intros Hsame.
  specialize (Hsame listing_ab listing_ba Ingestion_Obj_YLD
                    (fun _ => perm_swap _ _ [])).
  vm_compute in Hsame. discriminate.
Qed.

Lemma years_ab_keys_within_files :
  @keys_within_files reference years_ab Ingestion_Obj_YLD.
Proof.
  intros f1 f2 d1 d2 r1 r2 H1 H2 Hr1 Hr2 Hk.
  unfold ingest_data_helper, read_file, years_ab in H1, H2.
  cbn [find fst snd] in H1, H2.
  destruct (String.eqb "a.txt" f1) eqn:Ea1;
    [| destruct (String.eqb "b.txt" f1) eqn:Eb1; [| discriminate]];
    (destruct (String.eqb "a.txt" f2) eqn:Ea2;
     [| destruct (String.eqb "b.txt" f2) eqn:Eb2; [| discriminate]]);
    repeat match goal with
           | E : String.eqb _ _ = true |- _ => apply String.eqb_eq in E
           end;
    try congruence;
    vm_compute in H1, H2; inversion H1; inversion H2; subst d1 d2;
    cbn [values] in Hr1, Hr2;
    destruct Hr1 as [<- | []]; destruct Hr2 as [<- | []];
    vm_compute in Hk; discriminate.
Qed.

Lemma listing_order_permutes_records_witness :
  exists df',
    @ingest_frame reference years_ba Ingestion_Obj_YLD = Ok df' /\
    columns df' = YLD_COLS /\
    Permutation [[Int 2000; Int 10]; [Int 2001; Int 20]] (values df').
Proof.
  apply (@listing_order_permutes_records reference years_ab years_ba
           Ingestion_Obj_YLD
           (mkFrame YLD_COLS [[Int 2000; Int 10]; [Int 2001; Int 20]])).
  - vm_compute. repeat constructor; simpl; intuition discriminate.
  - apply perm_swap.
  - exact years_ab_keys_within_files.
  - vm_compute. reflexivity.
Defined.

(* ================================================================= *)
(** * Further properties of the code *)

(** ** Frames *)

Lemma drop_seen_unique (key : list cell -> list cell) seen rows :
  NoDup (map key rows) ->
  (forall r, In r rows -> ~ In (key r) seen) ->
  drop_seen key seen rows = rows.
Proof.
  revert seen; induction rows as [| x rows IH]; intros seen Hnd Hseen;
    [reflexivity |].
  simpl. inversion Hnd as [| ? ? Hx Hnd']; subst.
  assert (Hnew : existsb (key_eqb (key x)) seen = false).
  { apply existsb_key_not_In. apply Hseen. now left. }
  rewrite Hnew. f_equal. apply IH; [assumption |].
  intros r Hr [Hk | Hk].
  - apply Hx. rewrite Hk. now apply in_map.
  - apply (Hseen r); [now right | assumption].
Qed.

(** X1.  De-duplicating twice is de-duplicating once: the frame that
    [drop_duplicates(keys)] returns is returned unchanged by a second
    call. *)
Theorem drop_duplicates_idempotent (keys : list string) (df out : DataFrame)
        (Hout : drop_duplicates keys df = Ok out) :
  drop_duplicates keys out = Ok out.
Proof.
  unfold drop_duplicates in *.
  destruct (forallb _ keys) eqn:Hkeys; [| discriminate].
  inversion Hout; subst out; clear Hout. cbn [columns values].
  rewrite Hkeys. f_equal. f_equal.
  apply drop_seen_unique; [apply drop_seen_NoDup | intros r _ []].
Qed.

Lemma drop_duplicates_idempotent_witness :
  drop_duplicates ["YEAR"]
                  (mkFrame (columns two_yields) [[Int 2000; Int 10; Str "a"]])
  = Ok (mkFrame (columns two_yields) [[Int 2000; Int 10; Str "a"]]).
Proof.
  apply (drop_duplicates_idempotent ["YEAR"] two_yields).
  vm_compute. reflexivity.
Defined.

Lemma filter_none {A} (f : A -> bool) l :
  (forall a, In a l -> f a = false) -> filter f l = [].
Proof.
  induction l as [| x l IH]; intros H; simpl; [reflexivity |].
  rewrite (H x (or_introl eq_refl)). apply IH. intros a Ha. apply H. now right.
Qed.

Lemma filter_map_filter {A B} (f : B -> bool) (g : A -> B) l :
  filter f (map g (filter (fun a => f (g a)) l)) = filter f (map g l).
Proof.
  induction l as [| x l IH]; simpl; [reflexivity |].
  destruct (f (g x)) eqn:Hx; simpl; rewrite ?Hx; now rewrite IH.
Qed.

Lemma find_filter {A} (p q : A -> bool) l :
  (forall a, p a = true -> q a = true) -> find p (filter q l) = find p l.
Proof.
  intros Hpq. induction l as [| x l IH]; simpl; [reflexivity |].
  destruct (q x) eqn:Hq; simpl.
  - now rewrite IH.
  - destruct (p x) eqn:Hp; [| assumption].
    apply Hpq in Hp. congruence.
Qed.

Lemma traverse_ext_in {A B} (f g : A -> result B) l :
  (forall a, In a l -> f a = g a) -> traverse f l = traverse g l.
Proof.
  induction l as [| a l IH]; intros Hfg; simpl; [reflexivity |].
  rewrite (Hfg a (or_introl eq_refl)), IH; [reflexivity |].
  intros a' Ha'. apply Hfg. now right.
Qed.

Section IngestFrame.

Context `{Platform}.

(** X2.  A directory without a file whose name ends in [.txt] makes
    [ingest_data] raise [ValueError] ([pd.concat] of an empty list): no
    table is created and the database is what it was. *)
Theorem ingest_data_no_files (fs : filesystem) (fault : nat -> bool)
        (self : Ingestor) (query : create_table_query) (db : database)
        (Hnone : forall file, In file (listdir fs (data_dir_of self)) ->
                              endswith file ".txt" = false) :
  ingest_data fs fault self query db = (Err ValueError, db).
Proof.
  rewrite ingest_data_eq.
  assert (Hframe : ingest_frame fs self = Err ValueError);
    [| now rewrite Hframe].
  unfold ingest_frame. unfold data_dir_of in Hnone.
  destruct (data_layout self) as [[keys dir] cols]. cbn [fst snd] in *.
  now rewrite (filter_none _ _ Hnone).
Qed.

(** X3.  Only the files whose name ends in [.txt] are read: removing every
    other entry from the directory, whatever it holds, does not change the
    frame that [ingest_data] builds. *)
Theorem ingest_frame_ignores_other_files (fs fs' : filesystem)
        (self : Ingestor)
        (Hdir : fs' (data_dir_of self) =
                filter (fun e => endswith (fst e) ".txt")
                       (fs (data_dir_of self))) :
  ingest_frame fs' self = ingest_frame fs self.
Proof.
  unfold ingest_frame. unfold data_dir_of in Hdir.
  destruct (data_layout self) as [[keys dir] cols]. cbn [fst snd] in *.
  assert (Hlist : filter (fun file => endswith file ".txt") (listdir fs' dir)
                  = filter (fun file => endswith file ".txt") (listdir fs dir)).
  { unfold listdir. rewrite Hdir.
    apply (filter_map_filter (fun file => endswith file ".txt") fst). }
  rewrite Hlist.
  rewrite (traverse_ext_in
             (fun file => ingest_data_helper fs' file dir cols)
             (fun file => ingest_data_helper fs file dir cols));
    [reflexivity |].
  intros file Hfile. apply filter_In in Hfile. destruct Hfile as [_ Htxt].
  unfold ingest_data_helper, read_file. rewrite Hdir.
  rewrite find_filter; [reflexivity |].
  intros e He. apply String.eqb_eq in He. now rewrite He.
Qed.

End IngestFrame.

Lemma ingest_data_no_files_witness :
  @ingest_data reference (fun _ => [("notes.md", [[Int 1]])]) no_fault
               Ingestion_Obj_YLD query_yld []
  = (Err ValueError, []).
Proof.
  apply (@ingest_data_no_files reference).
  intros file [<- | []]. vm_compute. reflexivity.
Defined.

Lemma ingest_frame_ignores_other_files_witness :
  @ingest_frame reference
                (fun _ => [("a.txt", [[Int 2000; Int 10]; [Int 2001; Int 11]]);
                           ("b.txt", [[Int 2000; Int 20]])])
                Ingestion_Obj_YLD
  = @ingest_frame reference
                  (fun _ => [("a.txt", [[Int 2000; Int 10]; [Int 2001; Int 11]]);
                             ("notes.md", [[Int 1]]);
                             ("b.txt", [[Int 2000; Int 20]])])
                  Ingestion_Obj_YLD.
Proof.
  apply (@ingest_frame_ignores_other_files reference).
  vm_compute. reflexivity.
Defined.

Lemma update_nth_Ok {A} (f : A -> result A) i l l' :
  update_nth i f l = Ok l' ->
  List.length l' = List.length l /\
  forall j d, j <> i -> nth j l' d = nth j l d.
Proof.
  revert i l'; induction l as [| a l IH]; intros i l' Hl'.
  - destruct i; simpl in Hl'; inversion Hl'; (split; [reflexivity | trivial]).
  - destruct i as [| i]; simpl in Hl'.
    + bind_inv Hl' b Hb. inversion Hl'; subst l'. split; [reflexivity |].
      intros [| j] d Hj; [congruence | reflexivity].
    + bind_inv Hl' bs Hbs. inversion Hl'; subst l'.
      destruct (IH _ _ Hbs) as [Hlen Hnth]. split; [simpl; congruence |].
      intros [| j] d Hj; [reflexivity |]. simpl. apply Hnth. congruence.
Qed.

Lemma in_concat_values (frames : list DataFrame) r :
  In r (List.concat (map values frames)) ->
  exists d, In d frames /\ In r (values d).
Proof.
  intros Hr. apply in_concat in Hr. destruct Hr as [rows [Hrows Hr]].
  apply in_map_iff in Hrows. destruct Hrows as [d [<- Hd]]. now exists d.
Qed.

Section FrameShape.

Context `{Platform}.

(** What [ingest_data_helper] returns for column names without FILE: the
    lines of the file, each with the stem of the file name appended. *)
Lemma helper_frame fs file dir cols d :
  loc "FILE" cols = None ->
  ingest_data_helper fs file dir cols = Ok d ->
  columns d = cols ++ ["FILE"] /\
  In file (listdir fs dir) /\
  forall r, In r (values d) ->
            exists r0, r = r0 ++ [Str (stem file)] /\
                       List.length r0 = List.length cols.
Proof.
  intros Hloc Hd. unfold ingest_data_helper in Hd.
  bind_inv Hd content Hcontent. bind_inv Hd df Hdf.
  inversion Hd; subst d; clear Hd.
  destruct (read_csv_Ok _ _ _ Hdf) as [Hcols [_ Hwidth]].
  unfold set_column. rewrite Hcols, Hloc. cbn [columns values].
  split; [reflexivity |]. split.
  - unfold read_file in Hcontent.
    destruct (find _ (fs dir)) as [e |] eqn:Hfind; [| discriminate].
    apply find_some in Hfind. destruct Hfind as [Hin Hname].
    apply String.eqb_eq in Hname. subst file.
    unfold listdir. now apply in_map.
  - intros r Hr. apply in_map_iff in Hr. destruct Hr as [r0 [<- Hr0]].
    exists r0. split; [reflexivity | now apply Hwidth].
Qed.

(** The rows of the de-duplicated frame come from the files listed. *)
Lemma deduplicated_rows fs dir cols keys df :
  loc "FILE" cols = None ->
  (frames <- traverse (fun file => ingest_data_helper fs file dir cols)
                      (filter (fun file => endswith file ".txt")
                              (listdir fs dir)) ;;
   df1 <- concat_frames frames ;;
   drop_duplicates keys df1) = Ok df ->
  columns df = cols ++ ["FILE"] /\
  forall r, In r (values df) ->
            exists file r0,
              In file (listdir fs dir) /\ endswith file ".txt" = true /\
              r = r0 ++ [Str (stem file)] /\
              List.length r0 = List.length cols.
Proof.
  intros Hloc Hdf.
  bind_inv Hdf frames Hframes. bind_inv Hdf df1 Hdf1.
  apply traverse_Ok in Hframes.
  destruct frames as [| f0 frames0]; [discriminate |].
  cbn [concat_frames] in Hdf1. inversion Hdf1; subst df1; clear Hdf1.
  unfold drop_duplicates in Hdf. cbn [columns values] in Hdf.
  destruct (forallb _ keys); [| discriminate].
  inversion Hdf; subst df; clear Hdf. cbn [columns values]. split.
  - destruct (Forall2_In_r _ _ _ _ Hframes (or_introl eq_refl))
      as [file0 [_ Hfile0]].
    now destruct (helper_frame _ _ _ _ _ Hloc Hfile0).
  - intros r Hr. apply drop_seen_In in Hr. destruct Hr as [Hr _].
    apply (in_concat_values (f0 :: frames0)) in Hr.
    destruct Hr as [d [Hd Hr]].
    destruct (Forall2_In_r _ _ _ _ Hframes Hd) as [file [Hfile Hhelper]].
    apply filter_In in Hfile. destruct Hfile as [Hlisted Htxt].
    destruct (helper_frame _ _ _ _ _ Hloc Hhelper) as [_ [_ Hrows]].
    destruct (Hrows r Hr) as [r0 [Hr0 Hlen]].
    now exists file, r0.
Qed.

Lemma ingest_frame_wx fs self df :
  String.eqb (table self) "wx_data" = true ->
  ingest_frame fs self = Ok df ->
  columns df = WX_FRAME_COLS /\
  forall r, In r (values df) ->
            List.length r = 5%nat /\
            exists file,
              In file (listdir fs WX_DATA) /\ endswith file ".txt" = true /\
              nth 4 r NULL = Str (stem file).
Proof.
  intros Hwx Hdf. unfold ingest_frame, data_layout in Hdf.
  rewrite Hwx in Hdf. cbv beta iota zeta in Hdf.
  match type of Hdf with
  | context [traverse ?f ?l] =>
      destruct (frames <- traverse f l ;; df1 <- concat_frames frames ;;
                drop_duplicates ["FILE"; "DATE"] df1) as [df2 | e] eqn:Hdf2
  end.
  2:{ exfalso. revert Hdf Hdf2. unfold rbind.
      repeat match goal with
             | |- context [match ?x with Ok _ => _ | Err _ => _ end] =>
                 destruct x; try discriminate
             end; congruence. }
  assert (Hmap : map_column "DATE" to_datetime
                            (rename "FILE" "STATION_ID" df2) = Ok df).
  { revert Hdf Hdf2. unfold rbind.
    repeat match goal with
           | |- context [match ?x with Ok _ => _ | Err _ => _ end] =>
               destruct x; try discriminate
           end.
    intros Hdf Hdf2. congruence. }
  clear Hdf.
  destruct (deduplicated_rows fs WX_DATA WX_COLS _ df2 eq_refl Hdf2)
    as [Hcols Hrows].
  unfold map_column, rename in Hmap. cbn [columns values] in Hmap.
  rewrite Hcols in Hmap.
  change (loc "DATE" _) with (Some 0%nat) in Hmap.
  bind_inv Hmap rows Htrav. inversion Hmap; subst df; clear Hmap.
  cbn [columns values]. split; [reflexivity |].
  intros r Hr. apply traverse_Ok in Htrav.
  destruct (Forall2_In_r _ _ _ _ Htrav Hr) as [r2 [Hr2 Hupd]].
  destruct (Hrows r2 Hr2) as [file [r0 [Hlisted [Htxt [-> Hlen]]]]].
  destruct (update_nth_Ok _ _ _ _ Hupd) as [Hlen' Hnth].
  split.
  - rewrite Hlen', length_app, Hlen. reflexivity.
  - exists file. split; [assumption |]. split; [assumption |].
    rewrite Hnth by discriminate.
    rewrite app_nth2 by (rewrite Hlen; apply Nat.le_refl).
    rewrite Hlen. reflexivity.
Qed.

End FrameShape.

Section FrameColumns.

Context `{Platform}.

Lemma ingest_frame_yld fs self df :
  String.eqb (table self) "wx_data" = false ->
  ingest_frame fs self = Ok df ->
  columns df = YLD_COLS /\
  forall r, In r (values df) -> List.length r = 2%nat.
Proof.
  intros Hwx Hdf. unfold ingest_frame, data_layout in Hdf.
  rewrite Hwx in Hdf. cbv beta iota zeta in Hdf.
  match type of Hdf with
  | context [traverse ?f ?l] =>
      destruct (frames <- traverse f l ;; df1 <- concat_frames frames ;;
                drop_duplicates ["YEAR"] df1) as [df2 | e] eqn:Hdf2
  end.
  2:{ exfalso. revert Hdf Hdf2. unfold rbind.
      repeat match goal with
             | |- context [match ?x with Ok _ => _ | Err _ => _ end] =>
                 destruct x; try discriminate
             end; congruence. }
  assert (Hdrop : drop_column "FILE" df2 = Ok df).
  { revert Hdf Hdf2. unfold rbind.
    repeat match goal with
           | |- context [match ?x with Ok _ => _ | Err _ => _ end] =>
               destruct x; try discriminate
           end.
    intros Hdf Hdf2. congruence. }
  clear Hdf.
  destruct (deduplicated_rows fs YLD_DATA YLD_COLS _ df2 eq_refl Hdf2)
    as [Hcols Hrows].
  unfold drop_column in Hdrop. rewrite Hcols in Hdrop.
  change (loc "FILE" _) with (Some 2%nat) in Hdrop.
  inversion Hdrop; subst df; clear Hdrop. cbn [columns values].
  split; [reflexivity |].
  intros r Hr. apply in_map_iff in Hr. destruct Hr as [r2 [<- Hr2]].
  destruct (Hrows r2 Hr2) as [file [r0 [_ [_ [-> Hlen]]]]].
  destruct r0 as [| a [| b [| c r0]]]; try discriminate Hlen. reflexivity.
Qed.

(** X4.  The frame that [ingest_data] uploads is rectangular and has the
    columns the COPY names: DATE, the three measurements and STATION_ID
    for weather, YEAR and the yield for yield (the FILE column is renamed
    or dropped); every record has one field per column. *)
Theorem ingest_frame_shape (fs : filesystem) (self : Ingestor)
        (df : DataFrame) (Hdf : ingest_frame fs self = Ok df) :
  columns df = (if String.eqb (table self) "wx_data"
                then WX_FRAME_COLS else YLD_COLS) /\
  forall r, In r (values df) -> List.length r = List.length (columns df).
Proof.
  destruct (String.eqb (table self) "wx_data") eqn:Hwx.
  - destruct (ingest_frame_wx fs self df Hwx Hdf) as [Hcols Hrows].
    split; [assumption |]. intros r Hr. rewrite Hcols.
    now destruct (Hrows r Hr).
  - destruct (ingest_frame_yld fs self df Hwx Hdf) as [Hcols Hrows].
    split; [assumption |]. intros r Hr. rewrite Hcols. now apply Hrows.
Qed.

(** X5.  For weather, the STATION_ID of every record that [ingest_data]
    uploads is the stem of the name of a [.txt] file of the weather
    directory. *)
Theorem station_id_is_file_stem (fs : filesystem) (self : Ingestor)
        (df : DataFrame) (r : list cell)
        (Hwx : table self = "wx_data")
        (Hdf : ingest_frame fs self = Ok df)
        (Hr : In r (values df)) :
  exists file,
    In file (listdir fs WX_DATA) /\ endswith file ".txt" = true /\
    at_col (columns df) "STATION_ID" r = Str (stem file).
Proof.
  assert (Hwx' : String.eqb (table self) "wx_data" = true)
    by (rewrite Hwx; reflexivity).
  destruct (ingest_frame_wx fs self df Hwx' Hdf) as [Hcols Hrows].
  destruct (Hrows r Hr) as [_ [file [Hlisted [Htxt Hnth]]]].
  exists file. split; [assumption |]. split; [assumption |].
  rewrite Hcols. exact Hnth.
Qed.

(** X6.  For weather the natural key holds the file stem, so no key occurs
    in two files as soon as different files of the directory have
    different stems. *)
Theorem weather_keys_within_files (fs : filesystem) (self : Ingestor)
        (Hwx : table self = "wx_data")
        (Hstems : forall f1 f2,
            In f1 (listdir fs WX_DATA) -> In f2 (listdir fs WX_DATA) ->
            stem f1 = stem f2 -> f1 = f2) :
  keys_within_files fs self.
Proof.
  unfold keys_within_files, data_dir_of, data_cols_of, keys_of, data_layout.
  rewrite Hwx. cbn [String.eqb Ascii.eqb Bool.eqb fst snd].
  intros f1 f2 d1 d2 r1 r2 H1 H2 Hr1 Hr2 Hk.
  destruct (helper_frame fs f1 WX_DATA WX_COLS d1 eq_refl H1)
    as [Hc1 [Hl1 Hrows1]].
  destruct (helper_frame fs f2 WX_DATA WX_COLS d2 eq_refl H2)
    as [Hc2 [Hl2 Hrows2]].
  destruct (Hrows1 r1 Hr1) as [r01 [-> Hlen1]].
  destruct (Hrows2 r2 Hr2) as [r02 [-> Hlen2]].
  apply Hstems; try assumption.
  rewrite Hc1, Hc2 in Hk.
  destruct r01 as [| a1 [| b1 [| c1 [| e1 [| ? ?]]]]]; try discriminate Hlen1.
  destruct r02 as [| a2 [| b2 [| c2 [| e2 [| ? ?]]]]]; try discriminate Hlen2.
  simpl in Hk.
  cbv [at_col loc index_of String.eqb Ascii.eqb Bool.eqb nth] in Hk.
  congruence.
Qed.

End FrameColumns.

Lemma ingest_frame_shape_witness :
  columns (mkFrame YLD_COLS [[Int 2000; Int 10]; [Int 2001; Int 11]]) =
  YLD_COLS /\
  forall r, In r [[Int 2000; Int 10]; [Int 2001; Int 11]] ->
            List.length r = 2%nat.
Proof.
  apply (@ingest_frame_shape reference sample_fs Ingestion_Obj_YLD
           (mkFrame YLD_COLS [[Int 2000; Int 10]; [Int 2001; Int 11]])).
  vm_compute. reflexivity.
Defined.

Lemma station_id_is_file_stem_witness :
  exists file,
    In file (@listdir sample_fs (@WX_DATA reference)) /\
    endswith file ".txt" = true /\
    Str "USC2" = Str (@stem reference file).
Proof.
  apply (@station_id_is_file_stem reference sample_fs Ingestion_Obj_WX
           (mkFrame WX_FRAME_COLS
                    [[Day 1985 1 1; Int (-22); Int (-128); Int 94; Str "USC1"];
                     [Day 1985 1 2; Int (-9999); Int (-144); Int 0; Str "USC1"];
                     [Day 1986 1 3; Int 10; Int (-9999); Int (-9999);
                      Str "USC1"];
                     [Day 1985 1 1; Int 15; Int 11; Int 250; Str "USC2"]])
           [Day 1985 1 1; Int 15; Int 11; Int 250; Str "USC2"]).
  - reflexivity.
  - vm_compute. reflexivity.
  - right. right. right. left. reflexivity.
Defined.

Lemma weather_keys_within_files_witness :
  @keys_within_files reference sample_fs Ingestion_Obj_WX.
Proof.
  apply (@weather_keys_within_files reference sample_fs Ingestion_Obj_WX).
  - reflexivity.
  - intros f1 f2 H1 H2.
    vm_compute in H1, H2.
    destruct H1 as [<- | [<- | [<- | []]]];
      destruct H2 as [<- | [<- | [<- | []]]];
      vm_compute; intros E; try reflexivity; discriminate E.
Defined.

(* ----------------------------------------------------------------- *)
(** ** Tables *)

Section MergeMore.

Variable rel : relation.

Lemma conflicts_false_not_In rows r :
  rel_pk rel <> [] -> conflicts rel rows r = false ->
  ~ In (pk_key rel r) (map (pk_key rel) rows).
Proof.
  unfold conflicts. destruct (rel_pk rel) eqn:Hpk; [congruence |].
  intros _ Hc Hin. apply in_map_iff in Hin. destruct Hin as [r' [Hk Hr']].
  assert (existsb (fun r'0 => key_eqb (pk_key rel r) (pk_key rel r'0)) rows
          = true) as Hex.
  { apply existsb_exists. exists r'. split; [assumption |].
    apply key_eqb_eq. congruence. }
  unfold pk_key in Hc, Hex. rewrite Hpk in Hc, Hex. congruence.
Qed.

Lemma not_In_conflicts_false rows r :
  ~ In (pk_key rel r) (map (pk_key rel) rows) ->
  conflicts rel rows r = false.
Proof.
  intros Hnot. unfold conflicts. destruct (rel_pk rel) eqn:Hpk;
    [reflexivity |].
  destruct (existsb _ rows) eqn:Hex; [| reflexivity].
  exfalso. apply Hnot. apply existsb_exists in Hex.
  destruct Hex as [r' [Hr' Hk]]. apply key_eqb_eq in Hk.
  apply in_map_iff. exists r'. split; [| assumption].
  symmetry. exact Hk.
Qed.

(** The primary key stays a key. *)
Lemma on_conflict_do_nothing_NoDup rows new :
  rel_pk rel <> [] ->
  NoDup (map (pk_key rel) rows) ->
  NoDup (map (pk_key rel) (on_conflict_do_nothing rel rows new)).
Proof.
  intros Hpk. revert rows; induction new as [| x new IH]; intros rows Hnd;
    simpl; [assumption |].
  apply IH. destruct (conflicts rel rows x) eqn:Hx; [assumption |].
  rewrite map_app. apply NoDup_app; [assumption | repeat constructor; intros [] |].
  intros k Hk [<- | []].
  exact (conflicts_false_not_In rows x Hpk Hx Hk).
Qed.

Lemma on_conflict_do_nothing_length rows new :
  (List.length (on_conflict_do_nothing rel rows new)
   <= List.length rows + List.length new)%nat.
Proof.
  revert rows; induction new as [| x new IH]; intros rows; simpl; [lia |].
  destruct (conflicts rel rows x).
  - specialize (IH rows). lia.
  - specialize (IH (rows ++ [x])). rewrite length_app in IH. simpl in IH. lia.
Qed.

(** Rows with new, pairwise different keys are all inserted, in order. *)
Lemma on_conflict_do_nothing_all_new rows new :
  NoDup (map (pk_key rel) new) ->
  (forall r, In r new -> conflicts rel rows r = false) ->
  on_conflict_do_nothing rel rows new = rows ++ new.
Proof.
  revert rows; induction new as [| x new IH]; intros rows Hnd Hnew; simpl.
  - now rewrite app_nil_r.
  - rewrite (Hnew x (or_introl eq_refl)).
    inversion Hnd as [| ? ? Hx Hnd']; subst.
    rewrite IH; [now rewrite <- app_assoc | assumption |].
    intros r Hr. apply not_In_conflicts_false.
    rewrite map_app. intros Hin. apply in_app_or in Hin.
    destruct Hin as [Hin | [Hin | []]].
    + assert (Hc : conflicts rel rows r = false) by (apply Hnew; now right).
      destruct (rel_pk rel) eqn:Hpk.
      * apply Hx. apply in_map_iff. exists r. split; [| assumption].
        unfold pk_key. now rewrite Hpk.
      * apply (conflicts_false_not_In rows r); [congruence | assumption |
                                                assumption].
    + apply Hx. rewrite Hin. now apply in_map.
Qed.

End MergeMore.

Lemma stored_None_no_conflict rel r :
  stored rel (pk_key rel r) = None ->
  conflicts rel (rel_rows rel) r = false.
Proof.
  intros Hstored. apply not_In_conflicts_false. intros Hin.
  apply in_map_iff in Hin. destruct Hin as [r' [Hk Hr']].
  unfold stored in Hstored. apply (find_none _ _ Hstored) in Hr'.
  rewrite Hk, key_eqb_refl in Hr'. discriminate.
Qed.

Lemma set_rel_names name rel db r0 :
  find_rel name db = Some r0 ->
  map fst (set_rel name rel db) = map fst db.
Proof.
  induction db as [| [n [| r]] db IH]; simpl; [discriminate | |].
  - intros Hf. now rewrite IH.
  - destruct (String.eqb n name); simpl; [reflexivity |].
    intros Hf. now rewrite IH.
Qed.


Section UploadMore.

Context `{Platform}.


Lemma staged_length rel df rows :
  staged rel df = Ok rows -> List.length rows = List.length (values df).
Proof.
  unfold staged. destruct (known_columns _ _); [| discriminate].
  intros Hrows. apply traverse_Ok, Forall2_length in Hrows. congruence.
Qed.

(** X8.  [upload_to_db] writes to its own table only, and only rows: every
    other table is found as it was, no table is created or dropped, and
    the columns, the primary key and the NOT NULL marks of the target are
    unchanged.  If the target does not exist the database is unchanged. *)
Theorem upload_to_db_frame (fault : nat -> bool) (self : Ingestor)
        (df : DataFrame) (db : database) :
  let target := qualified self (table self) in
  let db' := snd (upload_to_db fault self df db) in
  (forall name, name <> target -> find_rel name db' = find_rel name db) /\
  map fst db' = map fst db /\
  match find_rel target db with
  | None => db' = db
  | Some rel =>
      exists rel',
        find_rel target db' = Some rel' /\
        rel_cols rel' = rel_cols rel /\ rel_pk rel' = rel_pk rel /\
        rel_notnull rel' = rel_notnull rel
  end.
Proof.
  cbv zeta. rewrite upload_to_db_eq.
  destruct (find_rel (qualified self (table self)) db) as [rel |] eqn:Hrel;
    [| now repeat split].
  assert (Hsame : (forall name, name <> qualified self (table self) ->
                                find_rel name db = find_rel name db) /\
                  map fst db = map fst db /\
                  exists rel',
                    find_rel (qualified self (table self)) db = Some rel' /\
                    rel_cols rel' = rel_cols rel /\ rel_pk rel' = rel_pk rel /\
                    rel_notnull rel' = rel_notnull rel).
  { split; [reflexivity |]. split; [reflexivity |]. now exists rel. }
  destruct (fault 0%nat || fault 1%nat || fault 2%nat || fault 3%nat); [exact Hsame |].
  destruct (staged rel df) as [rows | e]; [| exact Hsame].
  destruct (fault 4%nat || fault 5%nat); [exact Hsame |].
  assert (Hsnd : snd (if fault 6%nat || fault 7%nat
                      then (@Err Z DatabaseError,
                            set_rel (qualified self (table self))
                                    (merged rel rows) db)
                      else (Ok (Z.of_nat (List.length
                                            (rel_rows (merged rel rows)))
                                - Z.of_nat (List.length (rel_rows rel))),
                            set_rel (qualified self (table self))
                                    (merged rel rows) db))
                 = set_rel (qualified self (table self)) (merged rel rows) db)
    by now destruct (fault 6%nat || fault 7%nat).
  rewrite Hsnd. clear Hsnd. split; [| split].
  - intros name Hname. now apply find_rel_set_rel_other.
  - exact (set_rel_names _ _ _ _ Hrel).
  - exists (merged rel rows). split; [apply find_rel_set_rel |].
    now repeat split.
Qed.

(** X9.  The primary key stays a key: if no two rows of the table share a
    key before [upload_to_db], no two rows share one afterwards, whether
    the call returns or raises and whatever the frame holds. *)
Theorem upload_to_db_keeps_keys_unique (fault : nat -> bool)
        (self : Ingestor) (df : DataFrame) (db : database) (rel : relation)
        (Hrel : find_rel (qualified self (table self)) db = Some rel)
        (Hpk : rel_pk rel <> [])
        (Hunique : unique_keys rel) :
  exists rel',
    find_rel (qualified self (table self))
             (snd (upload_to_db fault self df db)) = Some rel' /\
    unique_keys rel'.
Proof.
  rewrite upload_to_db_eq, Hrel.
  destruct (fault 0%nat || fault 1%nat || fault 2%nat || fault 3%nat);
    [now exists rel |].
  destruct (staged rel df) as [rows | e]; [| now exists rel].
  destruct (fault 4%nat || fault 5%nat); [now exists rel |].
  exists (merged rel rows). split;
    [destruct (fault 6%nat || fault 7%nat); apply find_rel_set_rel |].
  unfold unique_keys, merged in *.
  exact (on_conflict_do_nothing_NoDup rel (rel_rows rel) rows Hpk Hunique).
Qed.

(** X10.  The number of rows that [upload_to_db] reports as added is never
    more than the number of records of the frame. *)
Theorem upload_to_db_delta_bound (fault : nat -> bool) (self : Ingestor)
        (df : DataFrame) (db db' : database) (n : Z)
        (Hup : upload_to_db fault self df db = (Ok n, db')) :
  0 <= n <= Z.of_nat (List.length (values df)).
Proof.
  rewrite upload_to_db_eq in Hup.
  destruct (find_rel (qualified self (table self)) db) as [rel |];
    [| discriminate].
  destruct (fault 0%nat || fault 1%nat || fault 2%nat || fault 3%nat); [discriminate |].
  destruct (staged rel df) as [rows | e] eqn:Hst; [| discriminate].
  destruct (fault 4%nat || fault 5%nat); [discriminate |].
  destruct (fault 6%nat || fault 7%nat); [discriminate |].
  injection Hup as Hn _. subst n.
  apply staged_length in Hst. rewrite <- Hst.
  unfold merged. cbn [with_rows rel_rows].
  pose proof (on_conflict_do_nothing_length rel (rel_rows rel) rows) as Hle.
  destruct (on_conflict_do_nothing_appends rel (rel_rows rel) rows)
    as [added [Heq _]].
  rewrite Heq in *. rewrite length_app in *. lia.
Qed.

(** X11.  A first load is complete: when the staged rows have pairwise
    different keys and none of these keys is in the table, [upload_to_db]
    inserts every staged row, in the order of the frame, and reports their
    number. *)
Theorem upload_to_db_all_new (self : Ingestor) (df : DataFrame)
        (db : database) (rel : relation) (rows : list (list cell))
        (Hrel : find_rel (qualified self (table self)) db = Some rel)
        (Hstaged : staged rel df = Ok rows)
        (Hdistinct : NoDup (map (pk_key rel) rows))
        (Hnew : forall r, In r rows -> stored rel (pk_key rel r) = None) :
  upload_to_db no_fault self df db =
  (Ok (Z.of_nat (List.length rows)),
   set_rel (qualified self (table self))
           (with_rows rel (rel_rows rel ++ rows)) db).
Proof.
  rewrite upload_to_db_eq, Hrel. unfold no_fault. cbn [orb].
  rewrite Hstaged. unfold merged.
  rewrite on_conflict_do_nothing_all_new; [| assumption |].
  - cbn [with_rows rel_rows]. rewrite length_app, Nat2Z.inj_add.
    do 2 f_equal. lia.
  - intros r Hr. apply stored_None_no_conflict. now apply Hnew.
Qed.


End UploadMore.

Lemma upload_to_db_keeps_keys_unique_witness :
  exists rel',
    find_rel (qualified Ingestion_Obj_YLD (table Ingestion_Obj_YLD))
             (snd (@upload_to_db reference no_fault Ingestion_Obj_YLD
                                 revised_yields sample_yld_db)) = Some rel' /\
    unique_keys rel'.
Proof.
  apply (@upload_to_db_keeps_keys_unique reference no_fault Ingestion_Obj_YLD
           revised_yields sample_yld_db sample_yld_rel).
  - vm_compute. reflexivity.
  - cbn. discriminate.
  - unfold unique_keys. vm_compute. repeat constructor. intros [].
Defined.

Lemma upload_to_db_delta_bound_witness :
  0 <= 1 <= Z.of_nat (List.length (values revised_yields)).
Proof.
  apply (@upload_to_db_delta_bound reference no_fault Ingestion_Obj_YLD
           revised_yields sample_yld_db
           (snd (@upload_to_db reference no_fault Ingestion_Obj_YLD
                               revised_yields sample_yld_db))).
  vm_compute. reflexivity.
Defined.

Lemma upload_to_db_all_new_witness :
  @upload_to_db reference no_fault Ingestion_Obj_YLD
                (mkFrame YLD_COLS [[Int 2001; Int 11]; [Int 2002; Int 12]])
                sample_yld_db =
  (Ok 2,
   [("yld_schema", Schema);
    ("yld_schema.yld_data",
     Table (with_rows sample_yld_rel
                      [[Int 2000; Int 10]; [Int 2001; Int 11];
                       [Int 2002; Int 12]]))]).
Proof.
  apply (@upload_to_db_all_new reference Ingestion_Obj_YLD
           (mkFrame YLD_COLS [[Int 2001; Int 11]; [Int 2002; Int 12]])
           sample_yld_db sample_yld_rel
           [[Int 2001; Int 11]; [Int 2002; Int 12]]).
  - vm_compute. reflexivity.
  - vm_compute. reflexivity.
  - vm_compute. repeat constructor; simpl; intuition discriminate.
  - intros r [<- | [<- | []]]; vm_compute; reflexivity.
Defined.


(* ----------------------------------------------------------------- *)
(** ** The summary table *)

Lemma summary_rows_with_rows source target rows :
  summary_rows source (with_rows target rows) = summary_rows source target.
Proof. reflexivity. Qed.

(** X13.  The summary table is append-only: when it exists,
    [generate_avg_table] leaves its rows where they are and adds rows
    after them, so a summary stored for a station and a year is never
    recomputed; and no other table of the database is changed, the base
    table included. *)
Theorem generate_avg_table_append_only (self : Ingestor) (db db' : database)
        (target : relation)
        (Htarget : find_rel (qualified self AVG_TABLE) db = Some target)
        (Hrun : generate_avg_table self db = (Ok tt, db')) :
  exists added,
    find_rel (qualified self AVG_TABLE) db' =
    Some (with_rows target (rel_rows target ++ added)) /\
    (forall k r, stored target k = Some r ->
                 stored (with_rows target (rel_rows target ++ added)) k
                 = Some r) /\
    (forall name, name <> qualified self AVG_TABLE ->
                  find_rel name db' = find_rel name db).
Proof.
  destruct (generate_avg_table_Ok self db db' Hrun)
    as [db0 [source [target0 [rows [Hcreate [Ht [Hs [Hrows ->]]]]]]]].
  assert (Hsame : forall name, find_rel name db0 = find_rel name db).
  { intros name. apply (create_table_existing _ _ _ _ _ _ Hcreate).
    change (fold_ident (q_name (avg_table_query self)))
      with (qualified self AVG_TABLE).
    rewrite Htarget. discriminate. }
  rewrite Hsame, Htarget in Ht. inversion Ht; subst target0; clear Ht.
  unfold merged.
  destruct (on_conflict_do_nothing_appends target (rel_rows target) rows)
    as [added [-> _]].
  exists added. split; [apply find_rel_set_rel |]. split.
  - intros k r Hk. exact (find_app_Some _ _ _ _ Hk).
  - intros name Hname. rewrite find_rel_set_rel_other by assumption.
    apply Hsame.
Qed.

(** Nothing is added to a summary table that already holds the rows a run
    offers. *)
Lemma generate_avg_table_settled (self : Ingestor) (db1 : database)
      (source target : relation) (rows : list (list cell)) :
  created self (avg_table_query self) db1 ->
  find_rel (qualified self AVG_TABLE) db1 = Some (merged target rows) ->
  find_rel (qualified self (table self)) db1 = Some source ->
  summary_rows source target = Ok rows ->
  rel_pk target <> [] ->
  generate_avg_table self db1 = (Ok tt, db1).
Proof.
  intros Hcreated Htarget Hsource Hrows Hpk.
  rewrite generate_avg_table_eq.
  rewrite (create_table_created _ _ _ _ Hcreated).
  rewrite Htarget, Hsource.
  unfold merged at 1. rewrite summary_rows_with_rows, Hrows.
  rewrite merged_merged by assumption.
  f_equal. now apply set_rel_same.
Qed.

(** X14.  Computing the averages twice is computing them once: after a
    run of [generate_avg_table] that returned, a second run on the same
    database returns and changes nothing (the summary table has a primary
    key, the base table is another table). *)
Theorem generate_avg_table_twice (self : Ingestor) (db db1 : database)
        (Hnames : qualified self (table self) <> qualified self AVG_TABLE)
        (Hrun : generate_avg_table self db = (Ok tt, db1))
        (Hkey : summary_keyed self db1) :
  generate_avg_table self db1 = (Ok tt, db1).
Proof.
  destruct (generate_avg_table_Ok self db db1 Hrun)
    as [db0 [source [target [rows [Hcreate [Ht [Hs [Hrows ->]]]]]]]].
  destruct Hkey as [rel1 [Hrel1 Hpk]].
  rewrite find_rel_set_rel in Hrel1. inversion Hrel1; subst rel1.
  apply (generate_avg_table_settled self _ source target rows).
  - apply (created_extends _ _ db0); [| apply extends_set_rel].
    apply (create_table_Ok _ _ _ _ _ Hcreate).
  - apply find_rel_set_rel.
  - now rewrite find_rel_set_rel_other.
  - assumption.
  - exact Hpk.
Qed.

Lemma round_half_away_inject_Z (z : Z) : round_half_away (inject_Z z) = z.
Proof.
  unfold round_half_away, inject_Z. cbn [Qnum Qden].
  destruct (0 <=? z) eqn:Hz.
  - symmetry. apply (Z.div_unique (2 * z + 1) (2 * 1) z 1); lia.
  - assert ((2 * - z + 1) / (2 * 1) = - z) as ->; [| lia].
    symmetry. apply (Z.div_unique (2 * - z + 1) (2 * 1) (- z) 1); lia.
Qed.

Lemma Forall2_In_l {A B} (R : A -> B -> Prop) l l' a :
  Forall2 R l l' -> In a l -> exists b, In b l' /\ R a b.
Proof.
  induction 1 as [| a' b l l' Hab _ IH]; simpl; [contradiction |].
  intros [<- | Hin].
  - exists b. split; [now left | assumption].
  - destruct (IH Hin) as [b' [Hb' HR]]. exists b'. split; [now right | assumption].
Qed.

Lemma Forall2_compose {A B C} (P : A -> B -> Prop) (Q : B -> C -> Prop)
      l1 l2 l3 :
  Forall2 P l1 l2 -> Forall2 Q l2 l3 ->
  Forall2 (fun a c => exists b, P a b /\ Q b c) l1 l3.
Proof.
  intros H12. revert l3. induction H12 as [| a b l1 l2 Hab _ IH];
    intros l3 H23; inversion H23; subst; constructor.
  - now exists b.
  - now apply IH.
Qed.

Lemma Forall2_map_left {A B C} (R : B -> C -> Prop) (f : A -> B) l l' :
  Forall2 R (map f l) l' -> Forall2 (fun a c => R (f a) c) l l'.
Proof.
  revert l'; induction l as [| a l IH]; intros l' H; inversion H; subst;
    constructor; [assumption | now apply IH].
Qed.

Lemma Forall2_NoDup_map {A B K} (R : A -> B -> Prop) (g : B -> K) l l' :
  Forall2 R l l' -> NoDup l ->
  (forall a b a' b', In a l -> In a' l -> R a b -> R a' b' ->
                     g b = g b' -> a = a') ->
  NoDup (map g l').
Proof.
  induction 1 as [| a b l l' Hab Hall IH]; intros Hnd Hinj; simpl;
    [constructor |].
  inversion Hnd as [| ? ? Ha Hnd']; subst. constructor.
  - intros Hin. apply in_map_iff in Hin. destruct Hin as [b' [Hg Hb']].
    destruct (Forall2_In_r _ _ _ _ Hall Hb') as [a' [Ha' HR]].
    apply Ha.
    rewrite (Hinj a b a' b' (or_introl eq_refl) (or_intror Ha') Hab HR
                  (eq_sym Hg)).
    assumption.
  - apply IH; [assumption |].
    intros x y x' y' Hx Hx'. apply Hinj; now right.
Qed.

(** A group of [GROUP_BY] holds the rows of one key, and is not empty. *)
Lemma group_of_key (key : list cell -> list cell) (rows : list (list cell))
      (k : list cell) :
  In k (nodup key_eq_dec (map key rows)) ->
  exists r g', In r rows /\ key r = k /\
               filter (fun r' => key_eqb (key r') k) rows = r :: g'.
Proof.
  intros Hk. apply nodup_In, in_map_iff in Hk. destruct Hk as [r0 [Hk Hr0]].
  destruct (filter (fun r' => key_eqb (key r') k) rows) as [| r g'] eqn:Hf.
  - assert (In r0 (filter (fun r' => key_eqb (key r') k) rows)) as Hin
        by (apply filter_In; split; [assumption | now apply key_eqb_eq]).
    rewrite Hf in Hin. contradiction.
  - assert (In r (filter (fun r' => key_eqb (key r') k) rows)) as Hin
        by (rewrite Hf; now left).
    apply filter_In in Hin. destruct Hin as [Hr Hkr].
    exists r, g'. split; [assumption |]. split; [now apply key_eqb_eq |].
    reflexivity.
Qed.

(** The key columns of a row inserted into the summary table. *)
Lemma insert_row_avg_key (k1 k2 a0 b0 p0 : cell) (row : list cell) :
  insert_row avg_relation AVG_COLS [k1; k2; a0; b0; p0] = Ok row ->
  exists s y a b p,
    row = [s; y; a; b; p] /\
    assign (varchar 20) k1 = Ok s /\ s <> NULL /\
    assign int4 k2 = Ok y /\ y <> NULL.
Proof.
  unfold insert_row, avg_relation, AVG_COLS.
  cbn [rel_cols rel_notnull traverse map fold_ident fst snd].
  intros Hrow.
  bind_inv Hrow s Hs. bind_inv Hrow rest Hrest.
  inversion Hrow; subst row; clear Hrow.
  bind_inv Hrest y Hy. bind_inv Hrest rest' Hrest'.
  inversion Hrest; subst rest; clear Hrest.
  bind_inv Hrest' a Ha. bind_inv Hrest' rest Hrest.
  inversion Hrest'; subst rest'; clear Hrest'.
  bind_inv Hrest b Hb. bind_inv Hrest rest' Hrest'.
  inversion Hrest; subst rest; clear Hrest.
  bind_inv Hrest' p Hp.
  inversion Hrest'; subst rest'; clear Hrest'.
  exists s, y, a, b, p. split; [reflexivity |].
  vm_compute index_of in Hs, Hy.
  bind_inv Hs s' Hs'. bind_inv Hy y' Hy'.
  cbn [nth] in Hs', Hy'.
  assert (Hs2 : s' = s /\ s <> NULL).
  { revert Hs. clear. destruct s'; vm_compute; intros E;
      try discriminate E; inversion E; (split; [reflexivity | discriminate]). }
  assert (Hy2 : y' = y /\ y <> NULL).
  { revert Hy. clear. destruct y'; vm_compute; intros E;
      try discriminate E; inversion E; (split; [reflexivity | discriminate]). }
  destruct Hs2 as [-> Hs2], Hy2 as [-> Hy2]. now repeat split.
Qed.

Lemma summarises_key source k row :
  summarises source k row ->
  exists s yr a b p,
    row = [Str s; Int yr; a; b; p] /\ k = [Str s; Num (inject_Z yr)].
Proof.
  intros [r [s [y [a [b [p [_ [-> [-> [Hs [Hs' [Hy Hy']]]]]]]]]]]].
  unfold group_key.
  destruct (col_value source "STATION_ID" r) as [| | | str |];
    try discriminate Hs; [inversion Hs; congruence |].
  simpl in Hs. destruct (String.length str <=? 20)%nat; [| discriminate].
  inversion Hs; subst s; clear Hs.
  destruct (col_value source "DATE" r) as [| | | | yr m d];
    simpl in Hy; try (inversion Hy; congruence).
  destruct (in_int4 (round_half_away (inject_Z yr))); [| discriminate].
  rewrite round_half_away_inject_Z in Hy. inversion Hy; subst y.
  now exists str, yr, a, b, p.
Qed.

Lemma fresh_summary_rows (self : Ingestor) (db db' : database)
      (source : relation) :
  find_rel (qualified self AVG_TABLE) db = None ->
  find_rel (qualified self (table self)) db = Some source ->
  generate_avg_table self db = (Ok tt, db') ->
  exists rows,
    find_rel (qualified self AVG_TABLE) db' =
    Some (with_rows avg_relation rows) /\
    Forall2 (summarises source)
            (nodup key_eq_dec (map (group_key source) (rel_rows source)))
            rows /\
    NoDup (map (pk_key avg_relation) rows).
Proof.
  intros Hfresh Hsource Hrun.
  destruct (generate_avg_table_Ok self db db' Hrun)
    as [db0 [src [target [rows [Hcreate [Ht [Hs [Hrows ->]]]]]]]].
  destruct (create_avg_table self db db0 Hfresh Hcreate) as [Htarget Hold].
  rewrite Htarget in Ht. inversion Ht; subst target; clear Ht.
  rewrite (Hold _ _ Hsource) in Hs. inversion Hs; subst src; clear Hs.
  unfold summary_rows in Hrows.
  destruct (known_columns avg_relation AVG_COLS); [| discriminate].
  bind_inv Hrows selected Hsel. apply traverse_Ok in Hrows.
  unfold select_summary in Hsel.
  destruct (known_columns source _); [| discriminate].
  apply traverse_Ok in Hsel. unfold GROUP_BY in Hsel.
  apply Forall2_map_left in Hsel.
  pose proof (Forall2_compose _ _ _ _ _ Hsel Hrows) as Hall.
  set (ks := nodup key_eq_dec (map (group_key source) (rel_rows source)))
    in *.
  assert (Hsum : Forall2 (summarises source) ks rows).
  { assert (Hks : forall k, In k ks ->
                            In k (nodup key_eq_dec
                                        (map (group_key source)
                                             (rel_rows source))))
      by (intros k Hk; exact Hk).
    clearbody ks. clear Hsel Hrows Hrun.
    induction Hall as [| k row ks' rows' [sel [Hg Hins]] _ IH];
      constructor.
    - destruct (group_of_key _ _ _ (Hks k (or_introl eq_refl)))
        as [r [g' [Hr [Hkr Hfilter]]]].
      rewrite Hfilter in Hg. unfold summary_row in Hg.
      bind_inv Hg a0 Ha0. bind_inv Hg b0 Hb0. bind_inv Hg p0 Hp0.
      inversion Hg; subst sel; clear Hg. cbn [group_key app] in Hins.
      destruct (insert_row_avg_key _ _ _ _ _ _ Hins)
        as [s [y [a [b [p [-> [Hs [Hs' [Hy Hy']]]]]]]]].
      exists r, s, y, a, b, p. repeat split; try assumption.
      now symmetry.
    - apply IH. intros k' Hk'. apply Hks. now right. }
  assert (Hnd : NoDup (map (pk_key avg_relation) rows)).
  { apply (Forall2_NoDup_map _ _ _ _ Hsum); [apply NoDup_nodup |].
    intros k row k' row' _ _ Hk Hk' Hpk.
    destruct (summarises_key _ _ _ Hk) as [s [yr [a [b [p [-> ->]]]]]].
    destruct (summarises_key _ _ _ Hk') as [s' [yr' [a' [b' [p' [-> ->]]]]]].
    vm_compute in Hpk. congruence. }
  exists rows. split; [| split; assumption].
  rewrite find_rel_set_rel. unfold merged. do 2 f_equal.
  cbn [avg_relation rel_rows].
  change (mkRel _ _ _ []) with avg_relation.
  rewrite on_conflict_do_nothing_all_new; [reflexivity | assumption |].
  intros r _. unfold conflicts. cbn. reflexivity.
Qed.

(** X15.  A summary table that [generate_avg_table] creates holds exactly
    one row per station and year of the base table: as many rows as there
    are different (STATION_ID, year of DATE) pairs, no two of them with the
    same station and year. *)
Theorem one_summary_row_per_station_year (self : Ingestor)
        (db db' : database) (source : relation)
        (Hfresh : find_rel (qualified self AVG_TABLE) db = None)
        (Hsource : find_rel (qualified self (table self)) db = Some source)
        (Hrun : generate_avg_table self db = (Ok tt, db')) :
  exists target,
    find_rel (qualified self AVG_TABLE) db' = Some target /\
    List.length (rel_rows target) =
    List.length (nodup key_eq_dec
                       (map (group_key source) (rel_rows source))) /\
    unique_keys target.
Proof.
  destruct (fresh_summary_rows self db db' source Hfresh Hsource Hrun)
    as [rows [Hfind [Hall Hnd]]].
  exists (with_rows avg_relation rows). split; [assumption |]. split.
  - cbn [with_rows rel_rows]. symmetry. exact (Forall2_length Hall).
  - exact Hnd.
Qed.

(** X16.  Every reading is summarised: for each row of the base table, the
    summary table that [generate_avg_table] creates has a row for the
    station of that row and the year of its date. *)
Theorem every_station_year_summarised (self : Ingestor)
        (db db' : database) (source : relation) (r : list cell)
        (Hfresh : find_rel (qualified self AVG_TABLE) db = None)
        (Hsource : find_rel (qualified self (table self)) db = Some source)
        (Hrun : generate_avg_table self db = (Ok tt, db'))
        (Hr : In r (rel_rows source)) :
  exists target s yr m d a b p,
    find_rel (qualified self AVG_TABLE) db' = Some target /\
    col_value source "STATION_ID" r = Str s /\
    col_value source "DATE" r = Day yr m d /\
    In [Str s; Int yr; a; b; p] (rel_rows target).
Proof.
  destruct (fresh_summary_rows self db db' source Hfresh Hsource Hrun)
    as [rows [Hfind [Hall _]]].
  assert (Hk : In (group_key source r)
                  (nodup key_eq_dec
                         (map (group_key source) (rel_rows source))))
    by (apply nodup_In; now apply in_map).
  destruct (Forall2_In_l _ _ _ _ Hall Hk) as [row [Hrow Hsum]].
  destruct (summarises_key _ _ _ Hsum) as [s [yr [a [b [p [-> Hkey]]]]]].
  unfold group_key in Hkey. inversion Hkey as [[Hstation Hyear]].
  destruct (col_value source "DATE" r) as [| | | | yr' m d];
    try discriminate Hyear.
  simpl in Hyear. inversion Hyear; subst yr'.
  exists (with_rows avg_relation rows), s, yr, m, d, a, b, p.
  now repeat split.
Qed.

Lemma generate_avg_table_append_only_witness :
  let db1 := snd (generate_avg_table Ingestion_Obj_WX sample_wx_db) in
  exists added,
    find_rel (qualified Ingestion_Obj_WX AVG_TABLE)
             (snd (generate_avg_table Ingestion_Obj_WX db1)) =
    Some (with_rows avg_relation
                    ([[Str "USC1"; Int 1985; Int (-2); Int (-14); Int 0];
                      [Str "USC1"; Int 1986; Int 1; NULL; NULL];
                      [Str "USC2"; Int 1985; Int 2; Int 1; Int 2]] ++ added)).
Proof.
  intros db1.
  destruct (generate_avg_table_append_only Ingestion_Obj_WX db1
              (snd (generate_avg_table Ingestion_Obj_WX db1))
              (with_rows avg_relation
                 [[Str "USC1"; Int 1985; Int (-2); Int (-14); Int 0];
                  [Str "USC1"; Int 1986; Int 1; NULL; NULL];
                  [Str "USC2"; Int 1985; Int 2; Int 1; Int 2]]))
    as [added [Hfind _]].
  - vm_compute. reflexivity.
  - vm_compute. reflexivity.
  - exists added. exact Hfind.
Defined.

Lemma generate_avg_table_twice_witness :
  let db1 := snd (generate_avg_table Ingestion_Obj_WX sample_wx_db) in
  generate_avg_table Ingestion_Obj_WX db1 = (Ok tt, db1).
Proof.
  apply (generate_avg_table_twice Ingestion_Obj_WX sample_wx_db).
  - vm_compute. discriminate.
  - vm_compute. reflexivity.
  - eexists. split; [vm_compute; reflexivity | cbn; discriminate].
Defined.

Lemma one_summary_row_per_station_year_witness :
  exists target,
    find_rel (qualified Ingestion_Obj_WX AVG_TABLE)
             (snd (generate_avg_table Ingestion_Obj_WX sample_wx_db))
    = Some target /\
    List.length (rel_rows target) =
    List.length (nodup key_eq_dec
                       (map (group_key sample_wx_rel)
                            (rel_rows sample_wx_rel))) /\
    unique_keys target.
Proof.
  apply (one_summary_row_per_station_year Ingestion_Obj_WX sample_wx_db).
  - vm_compute. reflexivity.
  - vm_compute. reflexivity.
  - vm_compute. reflexivity.
Defined.

Lemma every_station_year_summarised_witness :
  exists target s yr m d a b p,
    find_rel (qualified Ingestion_Obj_WX AVG_TABLE)
             (snd (generate_avg_table Ingestion_Obj_WX sample_wx_db))
    = Some target /\
    col_value sample_wx_rel "STATION_ID"
              [Str "USC2"; Day 1985 1 1; Int 11; Int 15; Int 250] = Str s /\
    col_value sample_wx_rel "DATE"
              [Str "USC2"; Day 1985 1 1; Int 11; Int 15; Int 250]
    = Day yr m d /\
    In [Str s; Int yr; a; b; p] (rel_rows target).
Proof.
  apply (every_station_year_summarised Ingestion_Obj_WX sample_wx_db).
  - vm_compute. reflexivity.
  - vm_compute. reflexivity.
  - vm_compute. reflexivity.
  - right. right. right. left. reflexivity.
Defined.

(* ----------------------------------------------------------------- *)
(** ** utils.py *)

(** X17.  [generate_where_clause] applies two filters at most: once two
    filters of the list carry a value, whatever is given after them is
    left out of the WHERE clause, a filter on a column that does not exist
    included. *)
Theorem filters_after_the_second_are_ignored
        (where_lst extra : list (string * option string))
        (Htwo : (2 <= List.length (present where_lst))%nat) :
  generate_where_clause (where_lst ++ extra) =
  generate_where_clause where_lst.
Proof.
  rewrite !generate_where_clause_eq. unfold present in *.
  rewrite flat_map_app.
  set (given := flat_map _ where_lst) in *.
  destruct given as [| x0 [| x1 l]]; simpl in Htwo; try lia. reflexivity.
Qed.

Lemma filters_after_the_second_are_ignored_witness :
  generate_where_clause
    ([("station_id", Some "USC1"); ("year", None);
      ("date", Some "1985-01-01")] ++ [("no_such_column", Some "1")]) =
  " WHERE station_id = 'USC1' AND date = '1985-01-01'".
Proof.
  apply (filters_after_the_second_are_ignored
           [("station_id", Some "USC1"); ("year", None);
            ("date", Some "1985-01-01")]
           [("no_such_column", Some "1")]).
  vm_compute. repeat constructor.
Defined.


Section GetData.

Context `{Platform}.

(** X18.  The pagination clause applies to the count as to any other
    result.  For the clause that [generate_where_clause] makes of filters
    that the server reads as the comparisons meant,
    [get_data(..., count=True)] with [LIMIT l OFFSET o] returns its single
    row only for offset 0 and a limit of at least 1, and no row at all
    otherwise: the count asked for with an offset is lost.  So it is for
    every statement that counts, whatever its condition. *)
Theorem get_data_count_is_paginated (db : database) (schema table : string)
        (where_lst : list (string * option string)) (limit off : nat)
        (rel : relation)
        (Hschema : is_name schema = true)
        (Htable : is_name table = true)
        (Hrel : find_rel (fold_ident (schema ++ "." ++ table)%string) db
                = Some rel)
        (Hfilters : forall f, In f (firstn 2 (present where_lst)) ->
                              well_formed rel f) :
  get_data db schema table (generate_where_clause where_lst)
           (pagination (Some (limit, off))) true =
  Ok (if (off =? 0)%nat && (0 <? limit)%nat
      then [[Int (Z.of_nat (List.length (matching_rows rel where_lst)))]]
      else []) /\
  forall sel rows,
    sel_count sel = true ->
    sel_limit sel = Some limit -> sel_offset sel = Some off ->
    run_select db sel = Ok rows ->
    if (off =? 0)%nat && (0 <? limit)%nat
    then exists n, rows = [[Int n]]
    else rows = [].
Proof.
  split.
  - rewrite (get_data_generated rel) by assumption.
    cbn [paginate]. f_equal.
    destruct off as [| off]; [destruct limit as [| [| limit]]; reflexivity |].
    destruct off; destruct limit; reflexivity.
  - intros sel rows Hcount Hlimit Hoff Hrun. unfold run_select in Hrun.
    destruct (find_rel (sel_from sel) db) as [rel' |]; [| discriminate].
    bind_inv Hrun keep Hkeep. rewrite Hcount, Hlimit, Hoff in Hrun.
    inversion Hrun; subst rows; clear Hrun.
    destruct off as [| off];
      [destruct limit as [| [| limit]]; cbn; try reflexivity; now eexists |].
    destruct off; destruct limit; reflexivity.
Qed.


End GetData.

Lemma get_data_count_is_paginated_witness :
  @get_data reference sample_wx_db "wx_schema" "wx_data"
            " WHERE date = '1985-01-01'" " LIMIT 10 OFFSET 1" true = Ok [].
Proof.
  apply (@get_data_count_is_paginated reference sample_wx_db
           "wx_schema" "wx_data" [("date", Some "1985-01-01")] 10 1
           sample_wx_rel).
  - vm_compute. reflexivity.
  - vm_compute. reflexivity.
  - vm_compute. reflexivity.
  - intros f [<- | []]. split; [split; vm_compute; reflexivity |].
    eexists. vm_compute. reflexivity.
Defined.


(* ----------------------------------------------------------------- *)
(** ** The whole script *)

Lemma create_table_other self table query db db0 name :
  create_table self table query db = (Ok tt, db0) ->
  name <> fold_ident (q_name query) ->
  find_rel name db0 = find_rel name db.
Proof.
  intros Hcreate Hname.
  now apply (create_table_Ok _ _ _ _ _ Hcreate).
Qed.

Section MainRun.

Context `{Platform}.

(** What a run of [ingest_data] that returned has done. *)
Lemma ingest_data_Ok fs fault self query db n db1 :
  ingest_data fs fault self query db = (Ok n, db1) ->
  exists db0 df rel rows,
    create_table self (table self) query db = (Ok tt, db0) /\
    ingest_frame fs self = Ok df /\
    find_rel (qualified self (table self)) db0 = Some rel /\
    staged rel df = Ok rows /\
    db1 = set_rel (qualified self (table self)) (merged rel rows) db0.
Proof.
  intros Hrun. rewrite ingest_data_eq in Hrun.
  destruct (ingest_frame fs self) as [df | e]; [| discriminate].
  destruct (create_table self (table self) query db) as [[[] | e] db0];
    [| discriminate].
  rewrite upload_to_db_eq in Hrun.
  destruct (find_rel (qualified self (table self)) db0) as [rel |] eqn:Hrel;
    [| discriminate].
  destruct (fault 0%nat || fault 1%nat || fault 2%nat || fault 3%nat);
    [discriminate |].
  destruct (staged rel df) as [rows | e] eqn:Hst; [| discriminate].
  destruct (fault 4%nat || fault 5%nat); [discriminate |].
  destruct (fault 6%nat || fault 7%nat); [discriminate |].
  injection Hrun as _ Hdb. exists db0, df, rel, rows.
  repeat split; try reflexivity; try assumption. now symmetry.
Qed.

(** Nothing is added to a table that already holds the rows a run stages. *)
Lemma ingest_data_settled fs self query db df rel rows :
  ingest_frame fs self = Ok df ->
  created self query db ->
  find_rel (qualified self (table self)) db = Some (merged rel rows) ->
  staged rel df = Ok rows ->
  rel_pk rel <> [] ->
  ingest_data fs no_fault self query db = (Ok 0, db).
Proof.
  intros Hframe Hcreated Hfind Hst Hpk.
  rewrite ingest_data_eq, Hframe.
  rewrite (create_table_created _ _ _ _ Hcreated).
  rewrite upload_to_db_eq, Hfind. unfold no_fault. cbn [orb].
  rewrite staged_merged, Hst, merged_merged by assumption.
  rewrite Z.sub_diag. f_equal. now apply set_rel_same.
Qed.

(** X20.  Running the whole script twice is running it once: after a run
    of [main] that returned, a second run on the same files returns and
    leaves the three tables, hence the database, exactly as the first run
    left them (each table has its primary key). *)
Theorem main_twice (fs : filesystem) (fault_wx fault_yld : nat -> bool)
        (db db1 : database)
        (Hrun : main fs fault_wx fault_yld db = (Ok tt, db1))
        (Hwx : keyed Ingestion_Obj_WX db1)
        (Hyld : keyed Ingestion_Obj_YLD db1)
        (Havg : summary_keyed Ingestion_Obj_WX db1) :
  main fs no_fault no_fault db1 = (Ok tt, db1).
Proof.
  unfold main, bind in Hrun.
  destruct (ingest_data fs fault_wx Ingestion_Obj_WX query_wx db)
    as [[n1 | e1] dbA] eqn:HA; [| discriminate].
  destruct (ingest_data fs fault_yld Ingestion_Obj_YLD query_yld dbA)
    as [[n2 | e2] dbB] eqn:HB; [| discriminate].
  destruct (ingest_data_Ok _ _ _ _ _ _ _ HA)
    as [dbA0 [dfA [relA [rowsA [HcA [HframeA [_ [HstA HdbA]]]]]]]].
  destruct (ingest_data_Ok _ _ _ _ _ _ _ HB)
    as [dbB0 [dfB [relB [rowsB [HcB [HframeB [_ [HstB HdbB]]]]]]]].
  destruct (generate_avg_table_Ok _ _ _ Hrun)
    as [dbC0 [source [target [rowsC [HcC [_ [HsrcC [HrowsC HdbC]]]]]]]].
  set (wx := qualified Ingestion_Obj_WX (table Ingestion_Obj_WX)) in *.
  set (yld := qualified Ingestion_Obj_YLD (table Ingestion_Obj_YLD)) in *.
  set (avg := qualified Ingestion_Obj_WX AVG_TABLE) in *.
  assert (HwxA : find_rel wx dbA = Some (merged relA rowsA))
    by (rewrite HdbA; apply find_rel_set_rel).
  assert (HwxB : find_rel wx dbB = Some (merged relA rowsA)).
  { rewrite HdbB, find_rel_set_rel_other by (vm_compute; discriminate).
    rewrite (create_table_other _ _ _ _ _ _ HcB)
      by (vm_compute; discriminate).
    exact HwxA. }
  assert (HyldB : find_rel yld dbB = Some (merged relB rowsB))
    by (rewrite HdbB; apply find_rel_set_rel).
  assert (Hwx1 : find_rel wx db1 = Some (merged relA rowsA)).
  { rewrite HdbC, find_rel_set_rel_other by (vm_compute; discriminate).
    rewrite (create_table_other _ _ _ _ _ _ HcC)
      by (vm_compute; discriminate).
    exact HwxB. }
  assert (Hyld1 : find_rel yld db1 = Some (merged relB rowsB)).
  { rewrite HdbC, find_rel_set_rel_other by (vm_compute; discriminate).
    rewrite (create_table_other _ _ _ _ _ _ HcC)
      by (vm_compute; discriminate).
    exact HyldB. }
  assert (Havg1 : find_rel avg db1 = Some (merged target rowsC))
    by (rewrite HdbC; apply find_rel_set_rel).
  assert (Hsource : find_rel wx db1 = Some source).
  { rewrite HdbC, find_rel_set_rel_other by (vm_compute; discriminate).
    exact HsrcC. }
  assert (HextC : extends dbC0 db1)
    by (rewrite HdbC; apply extends_set_rel).
  assert (HextB : extends dbB0 db1).
  { apply (extends_trans _ dbB); [rewrite HdbB; apply extends_set_rel |].
    apply (extends_trans _ dbC0); [| exact HextC].
    apply (create_table_Ok _ _ _ _ _ HcC). }
  assert (HextA : extends dbA0 db1).
  { apply (extends_trans _ dbA); [rewrite HdbA; apply extends_set_rel |].
    apply (extends_trans _ dbB0); [| exact HextB].
    apply (create_table_Ok _ _ _ _ _ HcB). }
  assert (HcreatedA : created Ingestion_Obj_WX query_wx db1).
  { apply (created_extends _ _ dbA0); [| exact HextA].
    apply (create_table_Ok _ _ _ _ _ HcA). }
  assert (HcreatedB : created Ingestion_Obj_YLD query_yld db1).
  { apply (created_extends _ _ dbB0); [| exact HextB].
    apply (create_table_Ok _ _ _ _ _ HcB). }
  assert (HcreatedC : created Ingestion_Obj_WX
                              (avg_table_query Ingestion_Obj_WX) db1).
  { apply (created_extends _ _ dbC0); [| exact HextC].
    apply (create_table_Ok _ _ _ _ _ HcC). }
  destruct Hwx as [r1 [Hr1 Hpk1]]. fold wx in Hr1.
  rewrite Hwx1 in Hr1. inversion Hr1; subst r1.
  destruct Hyld as [r2 [Hr2 Hpk2]]. fold yld in Hr2.
  rewrite Hyld1 in Hr2. inversion Hr2; subst r2.
  destruct Havg as [r3 [Hr3 Hpk3]]. fold avg in Hr3.
  rewrite Havg1 in Hr3. inversion Hr3; subst r3.
  unfold main, bind.
  rewrite (ingest_data_settled fs Ingestion_Obj_WX query_wx db1
             dfA relA rowsA HframeA HcreatedA Hwx1 HstA Hpk1).
  rewrite (ingest_data_settled fs Ingestion_Obj_YLD query_yld db1
             dfB relB rowsB HframeB HcreatedB Hyld1 HstB Hpk2).
  exact (generate_avg_table_settled Ingestion_Obj_WX db1 source target
           rowsC HcreatedC Havg1 Hsource HrowsC Hpk3).
Qed.

End MainRun.

Lemma main_twice_witness :
  let db1 := snd (@main reference sample_fs no_fault no_fault []) in
  @main reference sample_fs no_fault no_fault db1 = (Ok tt, db1).
Proof.
  apply (@main_twice reference sample_fs no_fault no_fault []).
  - vm_compute. reflexivity.
  - eexists. split; [vm_compute; reflexivity | cbn; discriminate].
  - eexists. split; [vm_compute; reflexivity | cbn; discriminate].
  - eexists. split; [vm_compute; reflexivity | cbn; discriminate].
Defined.


Lemma upload_to_db_frame_witness :
  find_rel "wx_schema.avg_table"
           (snd (@upload_to_db reference no_fault Ingestion_Obj_YLD
                               revised_yields sample_yld_db)) =
  find_rel "wx_schema.avg_table" sample_yld_db.
Proof.
  apply (proj1 (@upload_to_db_frame reference no_fault Ingestion_Obj_YLD
                  revised_yields sample_yld_db)).
  vm_compute. discriminate.
Defined.
